(** * Shader metadata index and search: a shallow embedding of [search.py]

    The development follows [ShaderSearcher] method by method:
    [build_tag_mappings], [add_requires_info_to_jsons], [load_requires_file],
    [load_all_json_metadata] and [search].  The file system (the cache file,
    the directory [json_dir] and the directories [shader_dirs]) and the
    searcher object are explicit states that every method takes and returns.

    What is modelled, and how:
    - a file of [json_dir] either does not parse, parses to a JSON value
      that is no object, or parses to an object with an optional [info] and
      an optional [renderpass]; the fields of [info], of a pass and of an
      input are present or absent and, when present, strings or arrays of
      strings; keys the searcher neither reads nor writes are left out;
    - the pickled cache is absent, unreadable, or a dictionary with an
      optional [tag_cache] and an optional [shader_index]; writing a file
      succeeds;
    - dictionaries and sets whose iteration order comes from a directory
      listing or from hashing are finite maps and finite sets, so the order
      of a returned list is one of the orders Python may produce; JSON
      arrays are lists;
    - [json_dir] is a flat directory: its files are named without [/], and a
      shader id that holds one names a path the model does not contain;
    - the file system holds one corpus directory, which the [json_dir] of
      every searcher names, however it is spelled; the file paths of a
      stored index lead into it, so a path is opened by the file name it
      ends with, whichever searcher asks;
    - [glob] reads a [json_dir] that holds [*], [?] or [[] as a pattern: the
      corpus directory is found when its name matches itself, and no other
      directory that the pattern could match is part of the file system;
    - strings are byte strings: [lower] and [strip] act on the ASCII range. *)

From Stdlib Require Import String Ascii Bool List Arith ZArith Lia Sorted Permutation.
From stdpp Require Import base tactics option list gmap strings fin_maps fin_sets.

Open Scope string_scope.

Set Warnings "-clear-no-such-hyp".

(** ** Python string operations *)

Module PyStr.

Definition lower_ascii (c : ascii) : ascii :=
  let n := nat_of_ascii c in
  if (Nat.leb 65 n && Nat.leb n 90)%bool then ascii_of_nat (n + 32) else c.

(** [s.lower()] *)
Fixpoint lower (s : string) : string :=
  match s with
  | EmptyString => EmptyString
  | String c t => String (lower_ascii c) (lower t)
  end.

(** [s.startswith(p)] *)
Definition startswith (s p : string) : bool := String.prefix p s.

(** [needle in hay] on two strings *)
Fixpoint contains (needle hay : string) : bool :=
  String.prefix needle hay ||
  match hay with
  | EmptyString => false
  | String _ t => contains needle t
  end.

Definition rev_string (s : string) : string :=
  string_of_list_ascii (rev (list_ascii_of_string s)).

(** [s.endswith(x)] *)
Definition endswith (s x : string) : bool :=
  String.prefix (rev_string x) (rev_string s).

Definition is_space (c : ascii) : bool :=
  let n := nat_of_ascii c in
  ((Nat.leb 9 n && Nat.leb n 13) || (Nat.leb 28 n && Nat.leb n 32))%bool.

Fixpoint lstrip (s : string) : string :=
  match s with
  | EmptyString => EmptyString
  | String c t => if is_space c then lstrip t else s
  end.

(** [s.strip()] *)
Definition strip (s : string) : string :=
  rev_string (lstrip (rev_string (lstrip s))).

Fixpoint drop_chars (n : nat) (s : string) : string :=
  match n, s with
  | O, _ => s
  | S _, EmptyString => EmptyString
  | S m, String _ t => drop_chars m t
  end.

(** [s.replace(old, '')] for a non-empty [old]: occurrences are removed
    left to right, without overlap.  [skip] counts the characters of the
    occurrence being removed that are still ahead. *)
Fixpoint remove_all_from (old : string) (skip : nat) (s : string) : string :=
  match s with
  | EmptyString => EmptyString
  | String c t =>
      match skip with
      | S k => remove_all_from old k t
      | O =>
          if String.prefix old s
          then remove_all_from old (String.length old - 1) t
          else String c (remove_all_from old 0 t)
      end
  end.

Definition remove_all (old s : string) : string := remove_all_from old 0 s.

(** [s[:-n]] *)
Definition drop_last (n : nat) (s : string) : string :=
  rev_string (drop_chars n (rev_string s)).

(** [s.split(sep)[-1]] for a one-character separator: the text after
    the last separator, the whole string when there is none. *)
Fixpoint last_segment_from (sep : ascii) (acc s : string) : string :=
  match s with
  | EmptyString => acc
  | String c t =>
      if Ascii.eqb c sep then last_segment_from sep t t
      else last_segment_from sep acc t
  end.

Definition last_segment (sep : ascii) (s : string) : string :=
  last_segment_from sep s s.

End PyStr.

Import PyStr.

(** ** Render passes and the requirement inference
    ([add_requires_info_to_jsons], the loop over [data['renderpass']]) *)

(** The [sampler] object of an input: filter, wrap and the like. *)
Definition Sampler : Type := list (string * string).

(** One element of [pass_info['inputs']]; an absent key is [None]. *)
Record InputDesc : Type := mkInput {
  inp_type : option string;
  inp_filepath : option string;
  inp_sampler : option Sampler
}.

(** One element of [data['renderpass']]. *)
Record PassInfo : Type := mkPass {
  pass_type : option string;
  pass_inputs : option (list InputDesc)
}.

(** [d.get(key, dflt)] on a key that is present or not. *)
Definition py_get {A : Type} (field : option A) (dflt : A) : A :=
  match field with Some v => v | None => dflt end.

(** The [if]/[elif] chain on an already lower-cased type; the source has it
    twice, once for [input_type] and once for [pass_type]. *)
Definition add_type_resource (ty : string) (required : gset string) : gset string :=
  if String.eqb ty "image" || String.eqb ty "buffer" then {["imagebuf"]} ∪ required
  else if String.eqb ty "sound" then {["soundbuf"]} ∪ required
  else if String.eqb ty "common" then {["library"]} ∪ required
  else if String.eqb ty "cubemap" then {["cubemap"]} ∪ required
  else if negb (String.eqb ty "") then {[ty ++ "buf"]} ∪ required
  else required.

(** Body of [for inp in inputs]. *)
Definition infer_input (required : gset string) (inp : InputDesc) : gset string :=
  let input_type := lower (py_get (inp_type inp) "") in
  let sampler_info := py_get (inp_sampler inp) [] in
  let required := add_type_resource input_type required in
  let filepath := py_get (inp_filepath inp) "" in
  if contains "/media/" filepath || contains "cubemap" (lower filepath)
  then {["texture"]} ∪ required
  else required.

(** Body of [for pass_info in data['renderpass']]. *)
Definition infer_pass (required : gset string) (p : PassInfo) : gset string :=
  let inputs := py_get (pass_inputs p) [] in
  let required := foldl infer_input required inputs in
  let ptype := lower (py_get (pass_type p) "") in
  add_type_resource ptype required.

(** [required_resources] after the loop over the render passes. *)
Definition required_resources (renderpass : list PassInfo) : gset string :=
  foldl infer_pass ∅ renderpass.

(** ** The corpus: JSON documents of [json_dir] *)

(** [data['info']].  Only the keys the searcher reads or writes are kept;
    every other key of a document is written back as it was read. *)
Record Info : Type := mkInfo {
  info_id : option string;
  info_name : option string;
  info_username : option string;
  info_description : option string;
  info_tags : option (list string);
  info_requires : option (list string)
}.

(** A JSON object at top level: [data] with [isinstance(data, dict)]. *)
Record Document : Type := mkDoc {
  doc_info : option Info;
  doc_renderpass : option (list PassInfo)
}.

(** What [json.load] makes of a file of the corpus. *)
Inductive JsonFile : Type :=
| Unparseable                 (* json.JSONDecodeError or UnicodeDecodeError *)
| NotADict                    (* a JSON array, string, number, ... *)
| Parsed (data : Document).

(** ** The cache file [tmp/shader_cache.dat] *)

(** One value of [shader_index]. *)
Record IndexEntry : Type := mkEntry {
  e_filepath : string;
  e_name : string;
  e_username : string;
  e_description : string;
  e_tags : list string
}.

(** The pickled dictionary, with its two optional keys. *)
Record CacheData : Type := mkCache {
  cd_tag_cache : option (gmap string (gset string));
  cd_shader_index : option (gmap string IndexEntry)
}.

Inductive CacheFile : Type :=
| CacheAbsent                 (* os.path.exists is False *)
| CacheCorrupt                (* pickle.load raises *)
| CacheStored (d : CacheData).

(** ** The shader archives ([shader_dirs]) *)

Inductive TextFile : Type :=
| Unreadable                  (* open raises *)
| Lines (ls : list string).

Inductive DirEntry : Type :=
| SubDir                      (* os.path.isfile is False *)
| RegularFile (f : TextFile).

Record Archive : Type := mkArchive {
  search_results : option (gmap string DirEntry);
  archive_files : gmap string TextFile
}.

(** ** File system and searcher object *)

Record World : Type := mkWorld {
  cache_file : CacheFile;
  json_files : gmap string JsonFile;   (* the directory [json_dir] *)
  archives : list Archive              (* the directories [shader_dirs], in order *)
}.

Record Searcher : Type := mkSearcher {
  json_dir : string;
  requires_cache : gmap string (gset string);
  tag_cache : gmap string (gset string);
  shader_index : gmap string IndexEntry
}.

(** [ShaderSearcher(json_dir)] *)
Definition new_searcher (dir : string) : Searcher :=
  mkSearcher dir ∅ ∅ ∅.

Definition set_cache_file (w : World) (c : CacheFile) : World :=
  mkWorld c (json_files w) (archives w).

Definition set_json_files (w : World) (fs : gmap string JsonFile) : World :=
  mkWorld (cache_file w) fs (archives w).

Definition set_requires_cache (s : Searcher) (rc : gmap string (gset string)) : Searcher :=
  mkSearcher (json_dir s) rc (tag_cache s) (shader_index s).

Definition set_tag_cache (s : Searcher) (tc : gmap string (gset string)) : Searcher :=
  mkSearcher (json_dir s) (requires_cache s) tc (shader_index s).

Definition set_shader_index (s : Searcher) (ix : gmap string IndexEntry) : Searcher :=
  mkSearcher (json_dir s) (requires_cache s) (tag_cache s) ix.

(** [os.path.join(a, b)] for a relative [b]. *)
Definition path_join (a b : string) : string :=
  if String.eqb a "" then b
  else if endswith a "/" then a ++ b
  else a ++ "/" ++ b.

(** [os.path.basename(p)] *)
Definition basename (p : string) : string := last_segment "/"%char p.

(** *** [glob.glob(os.path.join(json_dir, "*.json"))]

    [glob] splits the pattern with [os.path.split] and reads every part
    that holds [*], [?] or [[] as an [fnmatch] pattern, the directory part
    too. *)

(** [glob.has_magic(s)] *)
Definition has_magic (s : string) : bool :=
  contains "*" s || contains "?" s || contains "[" s.

Fixpoint all_slashes (s : string) : bool :=
  match s with
  | EmptyString => true
  | String c t => Ascii.eqb c "/" && all_slashes t
  end.

Fixpoint lstrip_slashes (s : string) : string :=
  match s with
  | EmptyString => EmptyString
  | String c t => if Ascii.eqb c "/" then lstrip_slashes t else s
  end.

(** [os.path.split(os.path.join(json_dir, "*.json"))[0]]: [json_dir]
    without the slashes it ends with, unless it holds nothing but slashes. *)
Definition glob_dirname (dir : string) : string :=
  if all_slashes dir then dir
  else rev_string (lstrip_slashes (rev_string dir)).

(** The path [glob] returns for the file [name] of [json_dir]:
    [os.path.join(dirname, name)]. *)
Definition glob_path (dir name : string) : string :=
  path_join (glob_dirname dir) name.

(** One element of an [fnmatch] pattern, as [fnmatch.translate] reads it:
    a character, [?], [*], or a class with its single characters and
    ranges. *)
Inductive GlobToken : Type :=
| GLit (c : ascii)
| GAny
| GStar
| GClass (negated : bool) (members : list (ascii * ascii)).

(** The text between the brackets: [a-b] is a range, anything else a
    character; a range whose ends are in the wrong order holds nothing. *)
Fixpoint class_members (body : list ascii) : list (ascii * ascii) :=
  match body with
  | a :: rest =>
      match rest with
      | "-"%char :: b :: rest' => (a, b) :: class_members rest'
      | _ => (a, a) :: class_members rest
      end
  | [] => []
  end.

(** The text up to the first [']'] and the text after it. *)
Fixpoint find_close (s : list ascii) : option (list ascii * list ascii) :=
  match s with
  | [] => None
  | c :: r =>
      if Ascii.eqb c "]" then Some ([], r)
      else match find_close r with
           | Some (body, rest) => Some (c :: body, rest)
           | None => None
           end
  end.

(** The class that the text after a ['['] opens: an optional [!], then a
    [']'] that counts as a member when it comes first, then the members up
    to the closing [']'].  [None] when no [']'] closes it: the ['['] is an
    ordinary character then. *)
Definition class_at (r : list ascii) : option (GlobToken * list ascii) :=
  let '(negated, r1) :=
    match r with
    | "!"%char :: r' => (true, r')
    | _ => (false, r)
    end in
  match r1 with
  | "]"%char :: r2 =>
      match find_close r2 with
      | Some (body, rest) =>
          Some (GClass negated (class_members ("]"%char :: body)), rest)
      | None => None
      end
  | _ =>
      match find_close r1 with
      | Some (body, rest) => Some (GClass negated (class_members body), rest)
      | None => None
      end
  end.

Fixpoint glob_tokens (fuel : nat) (p : list ascii) : list GlobToken :=
  match fuel, p with
  | S fuel, c :: r =>
      if Ascii.eqb c "*" then GStar :: glob_tokens fuel r
      else if Ascii.eqb c "?" then GAny :: glob_tokens fuel r
      else if Ascii.eqb c "[" then
        match class_at r with
        | Some (tok, rest) => tok :: glob_tokens fuel rest
        | None => GLit c :: glob_tokens fuel r
        end
      else GLit c :: glob_tokens fuel r
  | _, _ => []
  end.

Definition in_class (x : ascii) (members : list (ascii * ascii)) : bool :=
  existsb (fun m => Nat.leb (nat_of_ascii (fst m)) (nat_of_ascii x)
                    && Nat.leb (nat_of_ascii x) (nat_of_ascii (snd m)))
          members.

Fixpoint glob_match (toks : list GlobToken) (s : list ascii) : bool :=
  match toks with
  | [] => match s with [] => true | _ => false end
  | GLit c :: ts =>
      match s with x :: r => Ascii.eqb x c && glob_match ts r | [] => false end
  | GAny :: ts =>
      match s with _ :: r => glob_match ts r | [] => false end
  | GClass negated members :: ts =>
      match s with
      | x :: r => xorb negated (in_class x members) && glob_match ts r
      | [] => false
      end
  | GStar :: ts =>
      (fix star (s : list ascii) : bool :=
         glob_match ts s || match s with [] => false | _ :: r => star r end) s
  end.

(** [fnmatch.fnmatchcase(name, pat)] *)
Definition fnmatch (name pat : string) : bool :=
  let p := list_ascii_of_string pat in
  glob_match (glob_tokens (length p) p) (list_ascii_of_string name).

(** The parts of a path between its slashes. *)
Fixpoint path_parts_from (cur : string) (s : string) : list string :=
  match s with
  | EmptyString => [rev_string cur]
  | String c t =>
      if Ascii.eqb c "/" then rev_string cur :: path_parts_from EmptyString t
      else path_parts_from (String c cur) t
  end.

Definition path_parts (s : string) : list string := path_parts_from EmptyString s.

(** Whether [glob], reading the directory [dir] as a pattern, finds the
    directory of that very name: every part of the name has to match itself
    ([json*] does, [j[s]on] matches [json] only).  Other directories the
    pattern may match are not part of the file system modelled here. *)
Definition matches_itself (dir : string) : bool :=
  forallb (fun part => fnmatch part part) (path_parts dir).

(** The file name a path denotes when it continues the spelling [glob]
    gives the directory [dir]. *)
Definition name_in_dir (dir path : string) : option string :=
  let d := path_join (glob_dirname dir) "" in
  if String.prefix d path then Some (drop_chars (String.length d) path) else None.

(** [open(path)] followed by [json.load], for a file path stored in the
    index; [None] is [FileNotFoundError].  The path is opened as it is,
    whoever asks: every [json_dir] names the one directory of the corpus, so
    the path leads to the file its last segment names.  (The first case
    takes the rest of a path that continues the spelling of [json_dir] for
    the file name; in a flat directory that is the last segment.) *)
Definition open_json (w : World) (dir path : string) : option JsonFile :=
  let by_last_segment := json_files w !! basename path in
  match name_in_dir dir path with
  | Some name =>
      match json_files w !! name with
      | Some f => Some f
      | None => by_last_segment
      end
  | None => by_last_segment
  end.

(** ** [build_tag_mappings] *)

(** The stripped, non-blank lines of a file. *)
Definition nonblank_lines (ls : list string) : list string :=
  List.filter (fun l => negb (String.eqb l "")) (List.map strip ls).

(** Body of [for tag_file in os.listdir(search_results_dir)]. *)
Definition read_tag_file (tag_mappings : gmap string (gset string))
    (entry : string * DirEntry) : gmap string (gset string) :=
  let '(tag_name, e) := entry in
  match e with
  | RegularFile (Lines ls) => <[tag_name := list_to_set (nonblank_lines ls)]> tag_mappings
  | RegularFile Unreadable => tag_mappings      (* warning printed *)
  | SubDir => tag_mappings
  end.

(** Body of [for shader_dir in self.shader_dirs]. *)
Definition scan_search_results (tag_mappings : gmap string (gset string))
    (a : Archive) : gmap string (gset string) :=
  match search_results a with
  | Some dir => foldl read_tag_file tag_mappings (map_to_list dir)
  | None => tag_mappings
  end.

Definition scan_tag_files (w : World) : gmap string (gset string) :=
  foldl scan_search_results ∅ (archives w).

(** The [try] block that stores [tag_mappings]: the existing dictionary is
    loaded first, and a failure to load it abandons the write. *)
Definition save_tag_cache (w : World) (tag_mappings : gmap string (gset string)) : World :=
  match cache_file w with
  | CacheAbsent => set_cache_file w (CacheStored (mkCache (Some tag_mappings) None))
  | CacheCorrupt => w
  | CacheStored d =>
      set_cache_file w (CacheStored (mkCache (Some tag_mappings) (cd_shader_index d)))
  end.

Definition cached_tag_cache (w : World) : option (gmap string (gset string)) :=
  match cache_file w with
  | CacheStored d => cd_tag_cache d
  | _ => None
  end.

Definition build_tag_mappings (w : World) (self : Searcher)
    : gmap string (gset string) * World * Searcher :=
  match cached_tag_cache w with
  | Some tc => (tc, w, set_tag_cache self tc)
  | None =>
      let tag_mappings := scan_tag_files w in
      let w := save_tag_cache w tag_mappings in
      (tag_mappings, w, set_tag_cache self tag_mappings)
  end.

(** ** [add_requires_info_to_jsons] *)

Definition set_info_tags (i : Info) (t : list string) : Info :=
  mkInfo (info_id i) (info_name i) (info_username i) (info_description i)
         (Some t) (info_requires i).

Definition set_info_requires (i : Info) (r : list string) : Info :=
  mkInfo (info_id i) (info_name i) (info_username i) (info_description i)
         (info_tags i) (Some r).

(** Body of [for shader_id in shader_ids]: the document [<shader_id>.json]
    of [json_dir] gets [tag] appended and is written back when it lacked it.
    The counter is incremented at every such write. *)
Definition add_tag_to_json (tag : string)
    (acc : gmap string JsonFile * nat) (shader_id : string)
    : gmap string JsonFile * nat :=
  let '(files, tag_updated_count) := acc in
  let filename := shader_id ++ ".json" in
  match files !! filename with
  | Some (Parsed data) =>
      match doc_info data with
      | Some info =>
          let tags := py_get (info_tags info) [] in
          if bool_decide (tag ∈ tags) then acc
          else
            let data' := mkDoc (Some (set_info_tags info (tags ++ [tag])))
                               (doc_renderpass data) in
            (<[filename := Parsed data']> files, S tag_updated_count)
      | None => acc
      end
  | Some NotADict => acc
  | Some Unparseable => acc         (* exception caught and printed *)
  | None => acc                     (* os.path.exists is False *)
  end.

(** Body of [for tag, shader_ids in tag_mappings.items()]. *)
Definition add_tag_to_jsons (acc : gmap string JsonFile * nat)
    (item : string * gset string) : gmap string JsonFile * nat :=
  let '(tag, shader_ids) := item in
  foldl (add_tag_to_json tag) acc (elements shader_ids).

(** First loop of the method. *)
Definition tag_pass (tag_mappings : gmap string (gset string))
    (files : gmap string JsonFile) : gmap string JsonFile * nat :=
  foldl add_tag_to_jsons (files, 0) (map_to_list tag_mappings).

(** [for req in required_resources: if req not in info['requires']: append] *)
Definition append_missing (requires : list string) (reqs : list string) : list string :=
  foldl (fun (acc : list string) req =>
           if bool_decide (req ∈ acc) then acc else (acc ++ [req])%list)
        requires reqs.

(** The requires list a document ends the loop body with. *)
Definition updated_requires (info : Info) (renderpass : list PassInfo) : list string :=
  append_missing (py_get (info_requires info) [])
                 (elements (required_resources renderpass)).

(** Body of [for filename in os.listdir(self.json_dir)]. *)
Definition add_requires_to_json (acc : gmap string JsonFile * nat) (filename : string)
    : gmap string JsonFile * nat :=
  let '(files, requires_updated_count) := acc in
  if endswith filename ".json" then
    match files !! filename with
    | Some (Parsed data) =>
        match doc_info data, doc_renderpass data with
        | Some info, Some renderpass =>
            let original_count := length (py_get (info_requires info) []) in
            let requires := updated_requires info renderpass in
            if Nat.ltb original_count (length requires) then
              let data' := mkDoc (Some (set_info_requires info requires))
                                 (Some renderpass) in
              (<[filename := Parsed data']> files, S requires_updated_count)
            else acc
        | _, _ => acc
        end
    | Some NotADict => acc
    | Some Unparseable => acc       (* exception caught and printed *)
    | None => acc
    end
  else acc.

(** [os.listdir(d)] *)
Definition listdir {A : Type} (d : gmap string A) : list string :=
  (map_to_list d).*1.

(** Second loop of the method. *)
Definition requires_pass (files : gmap string JsonFile) : gmap string JsonFile * nat :=
  foldl add_requires_to_json (files, 0) (listdir files).

Definition add_requires_info_to_jsons (w : World) (self : Searcher)
    : (nat * nat) * World * Searcher :=
  let '(tag_mappings, w, self) := build_tag_mappings w self in
  let '(files, tag_updated_count) := tag_pass tag_mappings (json_files w) in
  let '(files, requires_updated_count) := requires_pass files in
  ((tag_updated_count, requires_updated_count), set_json_files w files, self).

(** ** [load_requires_file] *)

(** Body of [for line in f]. *)
Definition add_requires_line (requires_set : gset string) (line : string) : gset string :=
  let line := strip line in
  if negb (String.eqb line "") && negb (startswith line "---") then
    let shader_id :=
      if contains "/" line then last_segment "/"%char line else line in
    {[shader_id]} ∪ requires_set
  else requires_set.

(** Body of [for shader_dir in self.shader_dirs]. *)
Definition scan_requires_file (req_type : string) (requires_set : gset string)
    (a : Archive) : gset string :=
  match archive_files a !! ("requires_" ++ req_type ++ ".txt") with
  | Some (Lines ls) => foldl add_requires_line requires_set ls
  | Some Unreadable => requires_set             (* warning printed *)
  | None => requires_set
  end.

Definition scan_requires_files (w : World) (req_type : string) : gset string :=
  foldl (scan_requires_file req_type) ∅ (archives w).

Definition load_requires_file (w : World) (self : Searcher) (req_type : string)
    : gset string * Searcher :=
  match requires_cache self !! req_type with
  | Some s => (s, self)
  | None =>
      let requires_set := scan_requires_files w req_type in
      (requires_set, set_requires_cache self (<[req_type := requires_set]> (requires_cache self)))
  end.

(** ** [load_all_json_metadata] *)

(** [glob.glob(os.path.join(json_dir, "*.json"))]: the names ending in
    [.json], hidden files excepted; none when [json_dir], read as a
    pattern, does not match its own name. *)
Definition glob_json (dir : string) (files : gmap string JsonFile) : list string :=
  if has_magic dir && negb (matches_itself dir) then []
  else List.filter (fun n => endswith n ".json" && negb (startswith n "."))
                   (listdir files).

(** Body of [for i, filepath in enumerate(json_files)]. *)
Definition index_json_file (dir : string) (files : gmap string JsonFile)
    (index : gmap string IndexEntry) (name : string) : gmap string IndexEntry :=
  let filepath := glob_path dir name in
  match files !! name with
  | Some (Parsed data) =>
      match doc_info data with
      | Some info =>
          let shader_id :=
            py_get (info_id info) (remove_all ".json" (basename filepath)) in
          <[shader_id := mkEntry filepath
                                 (py_get (info_name info) "")
                                 (py_get (info_username info) "")
                                 (py_get (info_description info) "")
                                 (py_get (info_tags info) [])]> index
      | None => index
      end
  | Some NotADict => index
  | Some Unparseable => index       (* json.JSONDecodeError, UnicodeDecodeError *)
  | None => index                   (* FileNotFoundError *)
  end.

Definition build_index (dir : string) (files : gmap string JsonFile)
    : gmap string IndexEntry :=
  foldl (index_json_file dir files) ∅ (glob_json dir files).

(** [cache_data] after the first [if]: the dictionary read from the cache
    file, or the empty one when the file is not read. *)
Definition initial_cache_data (force_rebuild : bool) (w : World) : CacheData :=
  if force_rebuild then mkCache None None
  else match cache_file w with
       | CacheStored d => d
       | CacheCorrupt => mkCache None None
       | CacheAbsent => mkCache None None
       end.

Definition load_all_json_metadata (w : World) (self : Searcher) (force_rebuild : bool)
    : gmap string IndexEntry * World :=
  let cache_data := initial_cache_data force_rebuild w in
  match cd_shader_index cache_data with
  | Some index => (index, w)
  | None =>
      let index := build_index (json_dir self) (json_files w) in
      let cache_data := mkCache (cd_tag_cache cache_data) (Some index) in
      (index, set_cache_file w (CacheStored cache_data))
  end.

(** ** [search] *)

(** The sixteen [requires_*] keyword arguments, in the order of the
    signature. *)
Inductive Capability : Type :=
| Buffer | Cubemap | Image | Imagebuf | Keyboard | Library | Mic | Music
| Musicstream | Sound | Soundbuf | Texture | Video | Volume | Webcam | Common.

Record SearchArgs : Type := mkArgs {
  arg_tags : option string;
  arg_name : option string;
  arg_author : option string;
  arg_description : option string;
  requires_buffer : bool;
  requires_cubemap : bool;
  requires_image : bool;
  requires_imagebuf : bool;
  requires_keyboard : bool;
  requires_library : bool;
  requires_mic : bool;
  requires_music : bool;
  requires_musicstream : bool;
  requires_sound : bool;
  requires_soundbuf : bool;
  requires_texture : bool;
  requires_video : bool;
  requires_volume : bool;
  requires_webcam : bool;
  requires_common : bool;
  force_rebuild : bool
}.

(** The defaults of the signature: [None] and [False] throughout. *)
Definition default_args : SearchArgs :=
  mkArgs None None None None
         false false false false false false false false
         false false false false false false false false
         false.

(** One element of the returned list. *)
Record Result : Type := mkResult {
  r_filepath : string;
  r_id : string;
  r_name : string;
  r_username : string;
  r_description : string;
  r_tags : list string
}.

(** The flag guarding the block of a capability. *)
Definition requested (args : SearchArgs) (c : Capability) : bool :=
  match c with
  | Buffer => requires_buffer args
  | Cubemap => requires_cubemap args
  | Image => requires_image args
  | Imagebuf => requires_imagebuf args
  | Keyboard => requires_keyboard args
  | Library => requires_library args
  | Mic => requires_mic args
  | Music => requires_music args
  | Musicstream => requires_musicstream args
  | Sound => requires_sound args
  | Soundbuf => requires_soundbuf args
  | Texture => requires_texture args
  | Video => requires_video args
  | Volume => requires_volume args
  | Webcam => requires_webcam args
  | Common => requires_common args
  end.

(** The argument of [self.load_requires_file] in the block. *)
Definition requires_file_of (c : Capability) : string :=
  match c with
  | Buffer => "buffer" | Cubemap => "cubemap" | Image => "image"
  | Imagebuf => "imagebuf" | Keyboard => "keyboard" | Library => "library"
  | Mic => "mic" | Music => "music" | Musicstream => "musicstream"
  | Sound => "sound" | Soundbuf => "soundbuf" | Texture => "texture"
  | Video => "video" | Volume => "volume" | Webcam => "webcam"
  | Common => "common"
  end.

(** The string the block looks for in [req_list]. *)
Definition json_requirement_of (c : Capability) : string :=
  match c with
  | Buffer => "imagebuf" | Cubemap => "cubemap" | Image => "imagebuf"
  | Imagebuf => "imagebuf" | Keyboard => "keyboardbuf" | Library => "library"
  | Mic => "micbuf" | Music => "musicbuf" | Musicstream => "musicstreambuf"
  | Sound => "soundbuf" | Soundbuf => "soundbuf" | Texture => "texturebuf"
  | Video => "videobuf" | Volume => "volumebuf" | Webcam => "webcambuf"
  | Common => "library"
  end.

(** The blocks in the order of the source. *)
Definition capability_blocks : list Capability :=
  [Buffer; Cubemap; Image; Imagebuf; Keyboard; Library; Mic; Music;
   Musicstream; Sound; Soundbuf; Texture; Video; Volume; Webcam; Common].

(** The condition of the [if] that opens the requires filters. *)
Definition any_requires (args : SearchArgs) : bool :=
  requires_buffer args || requires_cubemap args || requires_image args
  || requires_imagebuf args || requires_keyboard args || requires_library args
  || requires_mic args || requires_music args || requires_musicstream args
  || requires_sound args || requires_soundbuf args || requires_texture args
  || requires_video args || requires_volume args || requires_webcam args
  || requires_common args.

(** Truth value of an optional string argument: [None] and [''] are false. *)
Definition truthy (o : option string) : option string :=
  match o with
  | Some s => if String.eqb s "" then None else Some s
  | None => None
  end.

(** [temp_set] after a loop over [self.shader_index.items()] that adds the
    ids passing the test [keep]. *)
Definition select_ids (keep : string -> IndexEntry -> bool)
    (index : gmap string IndexEntry) : gset string :=
  foldl (fun (temp_set : gset string) (item : string * IndexEntry) =>
           if keep item.1 item.2 then {[item.1]} ∪ temp_set else temp_set)
        ∅ (map_to_list index).

(** Body of [for cached_tag, shader_ids in self.tag_cache.items()]. *)
Definition collect_cached_tag (tag_lower shader_id : string)
    (all_tags : list string) (item : string * gset string) : list string :=
  let '(cached_tag, shader_ids) := item in
  if bool_decide (shader_id ∈ shader_ids) && startswith (lower cached_tag) tag_lower
  then if bool_decide (cached_tag ∈ all_tags) then all_tags
       else (all_tags ++ [cached_tag])%list
  else all_tags.

Definition tags_match (tags_of : gmap string (gset string)) (tag_lower : string)
    (shader_id : string) (data : IndexEntry) : bool :=
  let all_tags :=
    foldl (collect_cached_tag tag_lower shader_id) (e_tags data) (map_to_list tags_of) in
  existsb (fun t => contains tag_lower (lower t)) all_tags.

Definition name_match (name_lower : string) (_ : string) (data : IndexEntry) : bool :=
  contains name_lower (lower (e_name data)).

Definition author_match (author_lower : string) (_ : string) (data : IndexEntry) : bool :=
  contains author_lower (lower (e_username data)).

Definition description_match (desc_lower : string) (_ : string) (data : IndexEntry) : bool :=
  contains desc_lower (lower (e_description data)).

(** One [if <text argument>:] block. *)
Definition apply_text_filter (arg : option string)
    (keep : string -> string -> IndexEntry -> bool)
    (index : gmap string IndexEntry) (matching_shaders : gset string) : gset string :=
  match truthy arg with
  | Some s => matching_shaders ∩ select_ids (keep (lower s)) index
  | None => matching_shaders
  end.

(** [matching_shaders] after the four text filters. *)
Definition text_filters (args : SearchArgs) (self : Searcher) : gset string :=
  let index := shader_index self in
  let matching_shaders : gset string := dom index in
  let matching_shaders :=
    apply_text_filter (arg_tags args) (tags_match (tag_cache self)) index matching_shaders in
  let matching_shaders :=
    apply_text_filter (arg_name args) name_match index matching_shaders in
  let matching_shaders :=
    apply_text_filter (arg_author args) author_match index matching_shaders in
  apply_text_filter (arg_description args) description_match index matching_shaders.

(** [req_list]: the [requires] list read from the shader's file at the
    moment of the query; any failure gives the empty list. *)
Definition read_req_list (w : World) (self : Searcher) (shader_info : IndexEntry)
    : list string :=
  match open_json w (json_dir self) (e_filepath shader_info) with
  | Some (Parsed shader_data) =>
      match doc_info shader_data with
      | Some info => py_get (info_requires info) []
      | None => []
      end
  | Some NotADict => []
  | Some Unparseable => []
  | None => []
  end.

(** One [if requires_<c>:] block. *)
Definition check_requirement (args : SearchArgs) (w : World)
    (shader_id : string) (req_list : list string)
    (acc : list bool * bool * Searcher) (c : Capability)
    : list bool * bool * Searcher :=
  let '(conditions_met, any_requirement_checked, self) := acc in
  if requested args c then
    let '(from_file, self) := load_requires_file w self (requires_file_of c) in
    let in_orig := bool_decide (shader_id ∈ from_file) in
    let has_req := bool_decide (json_requirement_of c ∈ req_list) in
    ((conditions_met ++ [in_orig || has_req])%list, true, self)
  else acc.

(** Body of [for shader_id in matching_shaders] in the requires filters. *)
Definition filter_by_requires (args : SearchArgs) (w : World)
    (acc : gset string * Searcher) (shader_id : string) : gset string * Searcher :=
  let '(temp_matching, self) := acc in
  match shader_index self !! shader_id with
  | Some shader_info =>
      let req_list := read_req_list w self shader_info in
      let '(conditions_met, any_requirement_checked, self) :=
        foldl (check_requirement args w shader_id req_list)
              ([], false, self) capability_blocks in
      if (any_requirement_checked && forallb id conditions_met)
         || negb any_requirement_checked
      then ({[shader_id]} ∪ temp_matching, self)
      else (temp_matching, self)
  | None => acc
  end.

(** The requires filters as a whole. *)
Definition requires_filters (args : SearchArgs) (w : World) (self : Searcher)
    (matching_shaders : gset string) : gset string * Searcher :=
  if any_requires args then
    foldl (filter_by_requires args w) (∅, self) (elements matching_shaders)
  else (matching_shaders, self).

(** [for shader_id in matching_shaders: results.append(...)]; [None] is the
    [KeyError] of [self.shader_index[shader_id]]. *)
Fixpoint prepare_results (index : gmap string IndexEntry) (ids : list string)
    : option (list Result) :=
  match ids with
  | [] => Some []
  | shader_id :: rest =>
      match index !! shader_id, prepare_results index rest with
      | Some data, Some results =>
          Some (mkResult (e_filepath data) shader_id (e_name data)
                         (e_username data) (e_description data) (e_tags data)
                :: results)
      | _, _ => None
      end
  end.

(** The first three lines of [search]. *)
Definition search_load (args : SearchArgs) (w : World) (self : Searcher)
    : World * Searcher :=
  let '(index, w) := load_all_json_metadata w self (force_rebuild args) in
  let self := set_shader_index self index in
  if force_rebuild args then (w, self)
  else
    let '(_, w, self) := build_tag_mappings w self in
    (w, self).

Definition search (args : SearchArgs) (w : World) (self : Searcher)
    : option (list Result) * World * Searcher :=
  let '(w, self) := search_load args w self in
  let matching_shaders := text_filters args self in
  let '(matching_shaders, self) := requires_filters args w self matching_shaders in
  (prepare_results (shader_index self) (elements matching_shaders), w, self).

(** ** Reference statements the theorems compare the code with *)

(** The mapping rules of the requirement inference, worded as a union over
    the type fields and file paths of a render-pass list.  [other] is the
    rule for a type outside the four named ones. *)
Section CapabilityRules.

Variable other : string -> string.

Definition type_capabilities (field : option string) : gset string :=
  match field with
  | None => ∅
  | Some T =>
      let t := lower T in
      if String.eqb t "image" || String.eqb t "buffer" then {["imagebuf"]}
      else if String.eqb t "sound" then {["soundbuf"]}
      else if String.eqb t "common" then {["library"]}
      else if String.eqb t "cubemap" then {["cubemap"]}
      else if String.eqb T "" then ∅
      else {[other T]}
  end.

Definition filepath_capabilities (field : option string) : gset string :=
  match field with
  | None => ∅
  | Some p =>
      if contains "/media/" p || contains "cubemap" (lower p)
      then {["texture"]} else ∅
  end.

Definition input_capabilities (inp : InputDesc) : gset string :=
  type_capabilities (inp_type inp) ∪ filepath_capabilities (inp_filepath inp).

Definition pass_capabilities (p : PassInfo) : gset string :=
  type_capabilities (pass_type p)
  ∪ ⋃ (input_capabilities <$> py_get (pass_inputs p) []).

Definition renderpass_capabilities (renderpass : list PassInfo) : gset string :=
  ⋃ (pass_capabilities <$> renderpass).

End CapabilityRules.

(** [T + "buf"], the rule as the specification has it. *)
Definition capabilities_as_specified : list PassInfo -> gset string :=
  renderpass_capabilities (fun T => T ++ "buf").

(** [T.lower() + "buf"] *)
Definition capabilities_lowercased : list PassInfo -> gset string :=
  renderpass_capabilities (fun T => lower T ++ "buf").

(** Two inputs, passes or render-pass lists that differ at most in the
    [sampler] of their inputs. *)
Definition same_input_but_sampler (a b : InputDesc) : Prop :=
  inp_type a = inp_type b /\ inp_filepath a = inp_filepath b.

Definition same_pass_but_sampler (p q : PassInfo) : Prop :=
  pass_type p = pass_type q /\
  option_Forall2 (Forall2 same_input_but_sampler) (pass_inputs p) (pass_inputs q).

Definition same_but_sampler (rp1 rp2 : list PassInfo) : Prop :=
  Forall2 same_pass_but_sampler rp1 rp2.

(** ** Observations of a state *)


Definition cached_shader_index (w : World) : option (gmap string IndexEntry) :=
  match cache_file w with
  | CacheStored d => cd_shader_index d
  | _ => None
  end.

(** The [requires] list stored in a file of the corpus, when it has one. *)
Definition requires_of_file (f : JsonFile) : option (list string) :=
  match f with
  | Parsed data =>
      match doc_info data with
      | Some info => info_requires info
      | None => None
      end
  | _ => None
  end.

(** The set [load_requires_file] answers with for [req_type]. *)
Definition requires_set (w : World) (self : Searcher) (req_type : string) : gset string :=
  (load_requires_file w self req_type).1.

(** The dictionary [search] appends for shader [shader_id]. *)
Definition result_of (shader_id : string) (data : IndexEntry) : Result :=
  mkResult (e_filepath data) shader_id (e_name data) (e_username data)
           (e_description data) (e_tags data).

(** [search(force_rebuild=force)] with every other argument at its default. *)
Definition no_predicates (force : bool) : SearchArgs :=
  mkArgs None None None None
         false false false false false false false false
         false false false false false false false false
         force.

(** [search(tags=t, force_rebuild=force)] *)
Definition tags_only (t : string) (force : bool) : SearchArgs :=
  mkArgs (Some t) None None None
         false false false false false false false false
         false false false false false false false false
         force.

(** Whether the second loop of the mutator would write a file back: the
    document has [info] and [renderpass] and its [requires] list grows. *)
Definition requires_would_grow (f : JsonFile) : bool :=
  match f with
  | Parsed data =>
      match doc_info data, doc_renderpass data with
      | Some info, Some renderpass =>
          Nat.ltb (length (py_get (info_requires info) []))
                  (length (updated_requires info renderpass))
      | _, _ => false
      end
  | _ => false
  end.

(** Every [.json] file of a directory has the requirements its render
    passes imply. *)
Definition requires_settled (files : gmap string JsonFile) : Prop :=
  forall k f, files !! k = Some f -> endswith k ".json" = true ->
              requires_would_grow f = false.

(** Two states of one file that agree on everything the second loop of the
    mutator reads. *)
Definition requires_related (o' o : option JsonFile) : Prop :=
  match o', o with
  | Some f', Some f =>
      requires_would_grow f' = requires_would_grow f
      /\ requires_of_file f' = requires_of_file f
  | None, None => True
  | _, _ => False
  end.

(** The id and the entry [load_all_json_metadata] computes for the document
    of file [name] whose [info] is [info]. *)
Definition indexed_id (dir name : string) (info : Info) : string :=
  py_get (info_id info) (remove_all ".json" (basename (glob_path dir name))).

Definition indexed_entry (dir name : string) (info : Info) : IndexEntry :=
  mkEntry (glob_path dir name)
          (py_get (info_name info) "")
          (py_get (info_username info) "")
          (py_get (info_description info) "")
          (py_get (info_tags info) []).

(** The ids listed by the tag file [tag] of an archive, when the archive
    has a readable one. *)
Definition tag_file_ids (a : Archive) (tag : string) : option (gset string) :=
  match search_results a with
  | Some dir =>
      match dir !! tag with
      | Some (RegularFile (Lines ls)) => Some (list_to_set (nonblank_lines ls))
      | _ => None
      end
  | None => None
  end.

(** The condition one [if requires_<c>:] block appends for a shader. *)
Definition requirement_met (w : World) (self : Searcher) (shader_id : string)
    (req_list : list string) (c : Capability) : bool :=
  bool_decide (shader_id ∈ requires_set w self (requires_file_of c))
  || bool_decide (json_requirement_of c ∈ req_list).

(** Two states of the searcher object that differ at most in which
    requires files have been memoised, not in what they answer. *)
Definition same_loader (w : World) (self self' : Searcher) : Prop :=
  json_dir self' = json_dir self
  /\ shader_index self' = shader_index self
  /\ tag_cache self' = tag_cache self
  /\ forall req_type, requires_set w self' req_type = requires_set w self req_type.

(** ** Sample inputs *)

Definition newline : string := String (ascii_of_nat 10) "".

Definition empty_info : Info := mkInfo None None None None None None.

(** A corpus of one shader whose own tag list is empty, and an archive
    whose [search_results/procedural] lists that shader. *)
Definition procedural_doc : JsonFile :=
  Parsed (mkDoc (Some (mkInfo (Some "XsBSRd") (Some "Glow Sphere") (Some "jon")
                              None (Some []) None))
                None).

Definition procedural_archive : Archive :=
  mkArchive (Some {[ "procedural" := RegularFile (Lines ["XsBSRd" ++ newline]) ]}) ∅.

Definition procedural_world : World :=
  mkWorld CacheAbsent {[ "XsBSRd.json" := procedural_doc ]} [procedural_archive].

(** A cache file holding both slots. *)
Definition both_slots : CacheData :=
  mkCache (Some {[ "procedural" := {[ "XsBSRd" ]} ]})
          (Some {[ "XsBSRd" := mkEntry "json/XsBSRd.json" "Glow Sphere" "jon" "" [] ]}).

Definition cached_world : World :=
  mkWorld (CacheStored both_slots) {[ "XsBSRd.json" := procedural_doc ]}
          [procedural_archive].

(** A corpus of one well-formed document without a declared id, in a file
    whose name holds [.json] twice, and one malformed document. *)
Definition double_extension_corpus : gmap string JsonFile :=
  {[ "a.json.json" := Parsed (mkDoc (Some empty_info) None);
     "b.json" := Unparseable ]}.

(** A corpus of one document, named by two tag files. *)
Definition two_tags_world : World :=
  mkWorld CacheAbsent
          {[ "X.json" := Parsed (mkDoc (Some empty_info) None) ]}
          [mkArchive (Some {[ "a" := RegularFile (Lines ["X" ++ newline]);
                              "b" := RegularFile (Lines ["X" ++ newline]) ]}) ∅].

(** Four shaders and a requires file: [A] declares [soundbuf] itself, [D]
    is listed in [requires_sound.txt], [B] has neither, and [C] declares
    [soundbuf] but has another author. *)
Definition sound_world : World :=
  mkWorld CacheAbsent
    {[ "A.json" := Parsed (mkDoc (Some (mkInfo (Some "A") None (Some "jon") None None
                                               (Some ["soundbuf"]))) None);
       "B.json" := Parsed (mkDoc (Some (mkInfo (Some "B") None (Some "Jon") None None
                                               None)) None);
       "C.json" := Parsed (mkDoc (Some (mkInfo (Some "C") None (Some "ann") None None
                                               (Some ["soundbuf"]))) None);
       "D.json" := Parsed (mkDoc (Some (mkInfo (Some "D") None (Some "jonas") None None
                                               None)) None) ]}
    [mkArchive None
       {[ "requires_sound.txt" :=
            Lines ["--- shaders with sound" ++ newline; "folder/D" ++ newline; newline] ]}].

(** [search(author="jon", requires_sound=True)] *)
Definition sound_by_jon : SearchArgs :=
  mkArgs None None (Some "jon") None
         false false false false false false false false
         false true false false false false false false
         false.

(** A corpus of one shader with a sound input and no [requires] list. *)
Definition unsettled_world : World :=
  mkWorld CacheAbsent
    {[ "S.json" := Parsed (mkDoc (Some empty_info)
                              (Some [mkPass (Some "image")
                                            (Some [mkInput (Some "sound") None None])])) ]}
    [].

(** ** The command line ([main] of [search.py]) *)

(** The parsed arguments: the search options, [--reindex] being
    [force_rebuild], and [--add-tags]. *)
Record CliArgs : Type := mkCli {
  cli_search : SearchArgs;
  cli_add_tags : bool
}.

(** What [main] prints last. *)
Inductive Printed : Type :=
| PrintedCounts (tag_updated requires_updated : nat)
| PrintedResults (results : list Result)      (* "Found n matching shaders:" *)
| PrintedNoMatch                              (* "No shaders found ..." *)
| PrintedHelp
| Traceback.                                  (* an exception left [search] *)

(** Truth value of an optional string, as [any] tests it. *)
Definition is_truthy (o : option string) : bool :=
  match truthy o with Some _ => true | None => false end.

(** [has_criteria = any([args.tags, ..., args.common])] *)
Definition has_criteria (a : SearchArgs) : bool :=
  existsb id
    [is_truthy (arg_tags a); is_truthy (arg_name a); is_truthy (arg_author a);
     is_truthy (arg_description a);
     requires_buffer a; requires_cubemap a; requires_image a; requires_imagebuf a;
     requires_keyboard a; requires_library a; requires_mic a; requires_music a;
     requires_musicstream a; requires_sound a; requires_soundbuf a;
     requires_texture a; requires_video a; requires_volume a; requires_webcam a;
     requires_common a].

Fixpoint take_chars (n : nat) (s : string) : string :=
  match n, s with
  | O, _ => EmptyString
  | S _, EmptyString => EmptyString
  | S m, String c t => String c (take_chars m t)
  end.

(** [d[:100] + '...' if len(d) > 100 else d], the description as printed. *)
Definition shown_description (d : string) : string :=
  if Nat.ltb 100 (String.length d) then take_chars 100 d ++ "..." else d.

(** [main] after [parse_args], for the corpus directory [dir]. *)
Definition main (dir : string) (cli : CliArgs) (w : World) : Printed * World :=
  let searcher := new_searcher dir in
  if cli_add_tags cli then
    let '(counts, w, _) := add_requires_info_to_jsons w searcher in
    (PrintedCounts counts.1 counts.2, w)
  else if has_criteria (cli_search cli) then
    let '(results, w, _) := search (cli_search cli) w searcher in
    match results with
    | Some (r :: rs) => (PrintedResults (r :: rs), w)
    | Some [] => (PrintedNoMatch, w)
    | None => (Traceback, w)
    end
  else (PrintedHelp, w).

(** ** The web server ([webserver.py]) *)

(** One element of the list [load_all_shaders] returns. *)
Record WebShader : Type := mkWebShader {
  ws_id : string;
  ws_filename : string;
  ws_data : Document;
  ws_info : Info
}.

Fixpoint last_dot_from (i : nat) (found : option nat) (s : string) : option nat :=
  match s with
  | EmptyString => found
  | String c t =>
      last_dot_from (S i) (if Ascii.eqb c "."%char then Some i else found) t
  end.

Fixpoint all_dots (s : string) : bool :=
  match s with
  | EmptyString => true
  | String c t => Ascii.eqb c "."%char && all_dots t
  end.

(** [os.path.splitext(filename)[0]] for a name without directory part: the
    name up to its last dot, unless only dots come before that dot. *)
Definition splitext_root (filename : string) : string :=
  match last_dot_from 0 None filename with
  | Some i =>
      if all_dots (take_chars i filename) then filename
      else take_chars i filename
  | None => filename
  end.

(** [shader_data.get('info', {})] *)
Definition info_or_empty (data : Document) : Info :=
  py_get (doc_info data) (mkInfo None None None None None None).

(** The id [load_all_shaders] gives a document: the one declared in
    [info], else the file name without its extension. *)
Definition web_shader_id (filename : string) (data : Document) : string :=
  match doc_info data with
  | Some info =>
      match info_id info with
      | Some i => i
      | None => splitext_root filename
      end
  | None => splitext_root filename
  end.

(** Body of [for filename in os.listdir(JSON_DIR)] in [load_all_shaders]. *)
Definition load_shader_file (files : gmap string JsonFile)
    (shaders : list WebShader) (filename : string) : list WebShader :=
  if endswith filename ".json" then
    match files !! filename with
    | Some (Parsed shader_data) =>
        (shaders ++ [mkWebShader (web_shader_id filename shader_data) filename
                                 shader_data (info_or_empty shader_data)])%list
    | Some NotADict => shaders        (* exception logged *)
    | Some Unparseable => shaders     (* exception logged *)
    | None => shaders
    end
  else shaders.

(** The key of [shaders.sort]: the lower-cased name, or id when the
    document has no name. *)
Definition sort_key (x : WebShader) : string :=
  lower (py_get (info_name (info_or_empty (ws_data x))) (ws_id x)).

(** [list.sort(key=...)] is a stable sort that compares keys with [<]:
    an element goes before the first one whose key is not smaller. *)
Fixpoint insert_by_key (x : WebShader) (sorted : list WebShader) : list WebShader :=
  match sorted with
  | [] => [x]
  | y :: ys =>
      if String.ltb (sort_key y) (sort_key x) then y :: insert_by_key x ys
      else x :: y :: ys
  end.

Definition sort_by_key (shaders : list WebShader) : list WebShader :=
  foldr insert_by_key [] shaders.

Definition load_all_shaders (w : World) : list WebShader :=
  sort_by_key (foldl (load_shader_file (json_files w)) [] (listdir (json_files w))).

(** [load_shader_by_id]: the loop returns at the first file that declares
    the id. *)
Fixpoint find_shader_by_id (files : gmap string JsonFile) (shader_id : string)
    (names : list string) : option WebShader :=
  match names with
  | [] => None
  | filename :: rest =>
      if endswith filename ".json" then
        match files !! filename with
        | Some (Parsed shader_data) =>
            match doc_info shader_data with
            | Some info =>
                match info_id info with
                | Some i =>
                    if String.eqb i shader_id
                    then Some (mkWebShader shader_id filename shader_data
                                           (info_or_empty shader_data))
                    else find_shader_by_id files shader_id rest
                | None => find_shader_by_id files shader_id rest
                end
            | None => find_shader_by_id files shader_id rest
            end
        | Some NotADict => find_shader_by_id files shader_id rest
        | Some Unparseable => find_shader_by_id files shader_id rest
        | None => find_shader_by_id files shader_id rest
        end
      else find_shader_by_id files shader_id rest
  end.

Definition load_shader_by_id (w : World) (shader_id : string) : option WebShader :=
  find_shader_by_id (json_files w) shader_id (listdir (json_files w)).

(** The test of the loop of [search_shaders], on the lower-cased query. *)
Definition shader_matches (query : string) (shader : WebShader) : bool :=
  let info := info_or_empty (ws_data shader) in
  let name := lower (py_get (info_name info) "") in
  let username := lower (py_get (info_username info) "") in
  let description := lower (py_get (info_description info) "") in
  contains query name || contains query username || contains query description.

Definition search_shaders (shaders : list WebShader) (query : string) : list WebShader :=
  let query := lower query in
  List.filter (shader_matches query) shaders.

(** [l[start:stop]] with Python's treatment of negative and out-of-range
    bounds. *)
Definition slice_bound (n i : Z) : Z :=
  if Z.ltb i 0 then Z.max (i + n) 0 else Z.min i n.

Definition py_slice {A : Type} (l : list A) (start stop : Z) : list A :=
  let n := Z.of_nat (length l) in
  let a := slice_bound n start in
  let b := slice_bound n stop in
  take (Z.to_nat (b - a)) (drop (Z.to_nat a) l).

Definition per_page : Z := 20.

(** The arguments [browse] and [search_page] hand to the template;
    [total_results] is an argument of [search_page] only, for [browse] the
    field holds the length of the list it paginates. *)
Record PageView : Type := mkPageView {
  pv_shaders : list WebShader;
  pv_page : Z;
  pv_total_pages : Z;
  pv_query : string;
  pv_total_results : Z;
  pv_start_page : Z;
  pv_end_page : Z
}.

(** The pagination both views compute. *)
Definition paginate (shaders : list WebShader) (page : Z) (query : string) : PageView :=
  let start_idx := ((page - 1) * per_page)%Z in
  let end_idx := (start_idx + per_page)%Z in
  let paginated := py_slice shaders start_idx end_idx in
  let total_pages := ((Z.of_nat (length shaders) + per_page - 1) / per_page)%Z in
  mkPageView paginated page total_pages query (Z.of_nat (length shaders))
             (Z.max 1 (page - 2)) (Z.min total_pages (page + 2)).

(** [browse]: [page] and [query] are the request arguments. *)
Definition browse (w : World) (page : Z) (query : string) : PageView :=
  let query := strip query in
  let shaders := load_all_shaders w in
  let shaders := if String.eqb query "" then shaders else search_shaders shaders query in
  paginate shaders page query.

(** [search_page] *)
Definition search_page (w : World) (page : Z) (q : string) : PageView :=
  let query := strip q in
  if String.eqb query "" then
    mkPageView [] 1 1 "" 0 (Z.max 1 (page - 2)) (Z.min 1 (page + 2))
  else paginate (search_shaders (load_all_shaders w) query) page query.

(** The JSON [api_shaders] answers with. *)
Record ShadersPage : Type := mkShadersPage {
  sp_shaders : list WebShader;
  sp_total : Z;
  sp_page : Z;
  sp_has_next : bool;
  sp_has_prev : bool
}.

Definition api_shaders (w : World) (page : Z) (query : string) : ShadersPage :=
  let query := strip query in
  let shaders := load_all_shaders w in
  let shaders := if String.eqb query "" then shaders else search_shaders shaders query in
  let start_idx := ((page - 1) * per_page)%Z in
  let end_idx := (start_idx + per_page)%Z in
  mkShadersPage (py_slice shaders start_idx end_idx)
                (Z.of_nat (length shaders)) page
                (Z.ltb end_idx (Z.of_nat (length shaders)))
                (Z.ltb 0 start_idx).

(** [api_search]: the shaders returned and the [total] reported. *)
Definition api_search (w : World) (q : string) : list WebShader * Z :=
  let query := strip q in
  if String.eqb query "" then ([], 0%Z)
  else
    let results := search_shaders (load_all_shaders w) query in
    (py_slice results 0 50, Z.of_nat (length results)).

(** [shader_detail]: [None] is the 404 answer. *)
Definition shader_detail (w : World) (shader_id : string) : option WebShader :=
  load_shader_by_id w shader_id.

(** ** Further observations *)

Definition set_archives (w : World) (archs : list Archive) : World :=
  mkWorld (cache_file w) (json_files w) archs.

(** The tags stored in a file of the corpus; a document without the key
    has none. *)
Definition tags_of_file (f : JsonFile) : list string :=
  match f with
  | Parsed data =>
      match doc_info data with
      | Some info => py_get (info_tags info) []
      | None => []
      end
  | _ => []
  end.

(** A file of the corpus that parses to an object with an [info] section. *)
Definition has_info (f : JsonFile) : bool :=
  match f with
  | Parsed data => match doc_info data with Some _ => true | None => false end
  | _ => false
  end.

(** An index record passes the text filter of one argument. *)
Definition passes_filter (arg : option string)
    (keep : string -> string -> IndexEntry -> bool)
    (shader_id : string) (data : IndexEntry) : Prop :=
  match truthy arg with
  | Some s => keep (lower s) shader_id data = true
  | None => True
  end.

(** An index record passes every text filter of a call. *)
Definition passes_text_filters (args : SearchArgs) (tags_of : gmap string (gset string))
    (shader_id : string) (data : IndexEntry) : Prop :=
  passes_filter (arg_tags args) (tags_match tags_of) shader_id data
  /\ passes_filter (arg_name args) name_match shader_id data
  /\ passes_filter (arg_author args) author_match shader_id data
  /\ passes_filter (arg_description args) description_match shader_id data.

(** Three archives with a tag file [procedural]: the first lists two
    other shaders, the last is unreadable. *)
Definition three_archives_world : World :=
  mkWorld CacheAbsent ∅
    [mkArchive (Some {[ "procedural" := RegularFile (Lines ["A"; "B"]) ]}) ∅;
     procedural_archive;
     mkArchive (Some {[ "procedural" := RegularFile Unreadable ]}) ∅].

(** [search(requires_sound=True)] *)
Definition sound_only : SearchArgs :=
  mkArgs None None None None
         false false false false false false false false
         false true false false false false false false
         false.

(** [search(requires_sound=True, force_rebuild=True)] *)
Definition sound_rebuilt : SearchArgs :=
  mkArgs None None None None
         false false false false false false false false
         false true false false false false false false
         true.

(** [info'] is [info] with, at most, entries appended to [tags] and to
    [requires]. *)
Definition info_grows (info' info : Info) : Prop :=
  info_id info' = info_id info
  /\ info_name info' = info_name info
  /\ info_username info' = info_username info
  /\ info_description info' = info_description info
  /\ py_get (info_tags info) [] `prefix_of` py_get (info_tags info') []
  /\ py_get (info_requires info) [] `prefix_of` py_get (info_requires info') [].

(** [f'] is the file [f] after the mutator: the same, or the same document
    with entries appended to the [tags] and [requires] of its [info]. *)
Definition file_grows (f' f : JsonFile) : Prop :=
  match f', f with
  | Parsed d', Parsed d =>
      doc_renderpass d' = doc_renderpass d
      /\ match doc_info d', doc_info d with
         | Some i', Some i => info_grows i' i
         | None, None => True
         | _, _ => False
         end
  | Unparseable, Unparseable => True
  | NotADict, NotADict => True
  | _, _ => False
  end.

(** The same for a directory: no file appears or disappears. *)
Definition dir_grows (o' o : option JsonFile) : Prop :=
  match o', o with
  | Some f', Some f => file_grows f' f
  | None, None => True
  | _, _ => False
  end.

(** The order [shaders.sort] leaves two elements in: the key of the second
    is not smaller than the key of the first. *)
Definition key_le (a b : WebShader) : Prop :=
  String.ltb (sort_key b) (sort_key a) = false.

(** The list [load_all_shaders] builds before sorting it. *)
Definition loaded_shaders (w : World) : list WebShader :=
  foldl (load_shader_file (json_files w)) [] (listdir (json_files w)).

(** The record [load_all_shaders] and [load_shader_by_id] make of a file. *)
Definition web_shader_of (filename : string) (data : Document) : WebShader :=
  mkWebShader (web_shader_id filename data) filename data (info_or_empty data).

(** The list [browse] and [api_shaders] paginate: every shader, or the
    matches of the stripped query when it is not empty. *)
Definition browse_listing (w : World) (query : string) : list WebShader :=
  if String.eqb (strip query) "" then load_all_shaders w
  else search_shaders (load_all_shaders w) (strip query).

(** * Theorems *)

(** ** String lemmas *)

Lemma lower_empty (s : string) : lower s = "" <-> s = "".
Proof. destruct s; simpl; split; intros H; congruence. Qed.

Lemma eqb_lower_empty (s : string) : String.eqb (lower s) "" = String.eqb s "".
Proof. destruct s; reflexivity. Qed.

Example lower_ex : lower "Cube/MAP_01" = "cube/map_01".
Proof. reflexivity. Qed.

Example strip_ex : strip ("  folder/Xs 1" ++ newline) = "folder/Xs 1".
Proof. reflexivity. Qed.

Example contains_ex :
  contains "/media/" "/media/a/tex.png" = true
  /\ contains "/media/" "/Media/tex.png" = false
  /\ contains "" "" = true.
Proof. repeat split. Qed.

Example endswith_ex :
  endswith "XsBSRd.json" ".json" = true /\ endswith "json" ".json" = false.
Proof. split; reflexivity. Qed.

Example remove_all_ex :
  remove_all ".json" "XsBSRd.json" = "XsBSRd"
  /\ remove_all ".json" "a.jsonjson.json" = "ajson".
Proof. split; reflexivity. Qed.

Example last_segment_ex :
  last_segment "/"%char "shaders/sub/XsBSRd" = "XsBSRd"
  /\ last_segment "/"%char "XsBSRd" = "XsBSRd"
  /\ last_segment "/"%char "folder/" = "".
Proof. repeat split. Qed.

(** ** Requirement inference *)

Lemma add_type_resource_spec (T : string) (required : gset string) :
  add_type_resource (lower T) required
  = type_capabilities (fun T => lower T ++ "buf") (Some T) ∪ required.
Proof.
  unfold add_type_resource, type_capabilities.
  rewrite eqb_lower_empty.
  destruct (String.eqb (lower T) "image" || String.eqb (lower T) "buffer");
    [reflexivity|].
  destruct (String.eqb (lower T) "sound"); [reflexivity|].
  destruct (String.eqb (lower T) "common"); [reflexivity|].
  destruct (String.eqb (lower T) "cubemap"); [reflexivity|].
  destruct (String.eqb T ""); simpl; [set_solver | reflexivity].
Qed.

Lemma add_type_resource_field (field : option string) (required : gset string) :
  add_type_resource (lower (py_get field "")) required
  = type_capabilities (fun T => lower T ++ "buf") field ∪ required.
Proof.
  destruct field as [T|]; simpl.
  - apply add_type_resource_spec.
  - unfold add_type_resource; simpl. set_solver.
Qed.

Lemma infer_input_spec (required : gset string) (inp : InputDesc) :
  infer_input required inp
  = required ∪ input_capabilities (fun T => lower T ++ "buf") inp.
Proof.
  unfold infer_input, input_capabilities.
  rewrite add_type_resource_field.
  destruct (inp_filepath inp) as [p|]; simpl.
  - destruct (contains "/media/" p || contains "cubemap" (lower p)); set_solver.
  - set_solver.
Qed.

Lemma foldl_infer_input_spec (inputs : list InputDesc) (required : gset string) :
  foldl infer_input required inputs
  = required ∪ ⋃ (input_capabilities (fun T => lower T ++ "buf") <$> inputs).
Proof.
  revert required. induction inputs as [|inp inputs IH]; intros required; simpl.
  - set_solver.
  - rewrite IH, infer_input_spec. set_solver.
Qed.

Lemma infer_pass_spec (required : gset string) (p : PassInfo) :
  infer_pass required p
  = required ∪ pass_capabilities (fun T => lower T ++ "buf") p.
Proof.
  unfold infer_pass, pass_capabilities.
  rewrite add_type_resource_field, foldl_infer_input_spec. set_solver.
Qed.

Lemma foldl_infer_pass_spec (renderpass : list PassInfo) (required : gset string) :
  foldl infer_pass required renderpass
  = required ∪ capabilities_lowercased renderpass.
Proof.
  unfold capabilities_lowercased, renderpass_capabilities.
  revert required. induction renderpass as [|p rp IH]; intros required; simpl.
  - set_solver.
  - rewrite IH, infer_pass_spec. set_solver.
Qed.

(** C3, as stated, fails: a type written with capitals gives the
    lower-cased name followed by [buf], not the type as written followed by
    [buf].  The render-pass list is one pass of type [Video]. *)
Lemma inference_capitalised_type :
  required_resources [mkPass (Some "Video") None] = {["videobuf"]}
  /\ capabilities_as_specified [mkPass (Some "Video") None] = {["Videobuf"]}
  /\ required_resources [mkPass (Some "Video") None]
     <> capabilities_as_specified [mkPass (Some "Video") None].
Proof.
  split; [|split].
  - vm_compute. reflexivity.
  - vm_compute. reflexivity.
  - intros H. apply (f_equal elements) in H. vm_compute in H. discriminate H.
Qed.

(** C3, amended: for every render-pass list the inferred set is the union,
    over all passes and all their inputs, of [imagebuf] for type [image] or
    [buffer], [soundbuf] for [sound], [library] for [common], [cubemap] for
    [cubemap] (types compared case-insensitively), the lower-cased type
    followed by [buf] for any other non-empty type, and [texture] for each
    input whose file path contains [/media/] or, case-insensitively,
    [cubemap]; absent fields contribute nothing and the empty list gives the
    empty set. *)
Theorem required_resources_union (renderpass : list PassInfo) :
  required_resources renderpass = capabilities_lowercased renderpass
  /\ required_resources [] = ∅.
Proof.
  split; [|reflexivity].
  unfold required_resources. rewrite foldl_infer_pass_spec. set_solver.
Qed.

(** ** Independence from the sampler *)

Lemma infer_input_same (a b : InputDesc) (required : gset string) :
  same_input_but_sampler a b -> infer_input required a = infer_input required b.
Proof.
  intros [Ht Hp]. unfold infer_input. rewrite Ht, Hp. reflexivity.
Qed.

Lemma foldl_infer_input_same (xs ys : list InputDesc) :
  Forall2 same_input_but_sampler xs ys ->
  forall required, foldl infer_input required xs = foldl infer_input required ys.
Proof.
  induction 1 as [|a b xs ys Hab _ IH]; intros required; simpl.
  - reflexivity.
  - rewrite (infer_input_same a b required Hab). apply IH.
Qed.

Lemma infer_pass_same (p q : PassInfo) (required : gset string) :
  same_pass_but_sampler p q -> infer_pass required p = infer_pass required q.
Proof.
  intros [Ht Hi]. unfold infer_pass. rewrite Ht.
  destruct Hi as [xs ys Hxy|]; simpl.
  - rewrite (foldl_infer_input_same xs ys Hxy). reflexivity.
  - reflexivity.
Qed.

(** C10: two render-pass lists that differ only in the [sampler] field of
    their inputs have the same inferred capability set. *)
Theorem required_resources_ignores_sampler (rp1 rp2 : list PassInfo) :
  same_but_sampler rp1 rp2 -> required_resources rp1 = required_resources rp2.
Proof.
  unfold required_resources. generalize (∅ : gset string).
  intros required H. revert required.
  induction H as [|p q rp1 rp2 Hpq _ IH]; intros required; simpl.
  - reflexivity.
  - rewrite (infer_pass_same p q required Hpq). apply IH.
Qed.

Lemma required_resources_ignores_sampler_witness :
  same_but_sampler
    [mkPass (Some "image") (Some [mkInput (Some "texture") (Some "/media/a.png")
                                          (Some [("filter", "linear")])])]
    [mkPass (Some "image") (Some [mkInput (Some "texture") (Some "/media/a.png")
                                          None])]
  /\ required_resources
       [mkPass (Some "image") (Some [mkInput (Some "texture") (Some "/media/a.png")
                                             (Some [("filter", "linear")])])]
     = required_resources
       [mkPass (Some "image") (Some [mkInput (Some "texture") (Some "/media/a.png")
                                             None])].
Proof.
  assert (H : same_but_sampler
    [mkPass (Some "image") (Some [mkInput (Some "texture") (Some "/media/a.png")
                                          (Some [("filter", "linear")])])]
    [mkPass (Some "image") (Some [mkInput (Some "texture") (Some "/media/a.png")
                                          None])]).
  { repeat constructor. }
  split; [exact H | exact (required_resources_ignores_sampler _ _ H)].
Defined.

(** ** The cache file *)

Lemma load_index_keeps_tag_cache (w : World) (self : Searcher) :
  cached_tag_cache (load_all_json_metadata w self false).2 = cached_tag_cache w.
Proof.
  unfold load_all_json_metadata, initial_cache_data, cached_tag_cache.
  destruct (cache_file w) as [| |d] eqn:E; simpl; try rewrite E; try reflexivity.
  destruct (cd_shader_index d); simpl; rewrite ?E; reflexivity.
Qed.

Lemma build_tag_mappings_keeps_index (w : World) (self : Searcher) :
  cached_shader_index (build_tag_mappings w self).1.2 = cached_shader_index w.
Proof.
  unfold build_tag_mappings, cached_tag_cache, cached_shader_index, save_tag_cache.
  destruct (cache_file w) as [| |d] eqn:E; simpl; rewrite ?E; try reflexivity.
  destruct (cd_tag_cache d); simpl; rewrite ?E; reflexivity.
Qed.

Lemma forced_rebuild_clears_tag_cache (w : World) (self : Searcher) :
  cached_tag_cache (load_all_json_metadata w self true).2 = None.
Proof. reflexivity. Qed.

Lemma load_all_json_metadata_persists (w : World) (self : Searcher) (force : bool) :
  cached_shader_index (load_all_json_metadata w self force).2
  = Some (load_all_json_metadata w self force).1.
Proof.
  unfold load_all_json_metadata, initial_cache_data, cached_shader_index.
  destruct force; [reflexivity|].
  destruct (cache_file w) as [| |d] eqn:E; try reflexivity.
  destruct (cd_shader_index d) as [index|] eqn:Ei;
    cbn [fst snd cache_file set_cache_file cd_shader_index]; [|reflexivity].
  rewrite E. exact Ei.
Qed.

Lemma load_all_json_metadata_source (w : World) (self : Searcher) (force : bool) :
  (load_all_json_metadata w self force).1
  = match (if force then None else cached_shader_index w) with
    | Some index => index
    | None => build_index (json_dir self) (json_files w)
    end.
Proof.
  unfold load_all_json_metadata, initial_cache_data, cached_shader_index.
  destruct force; [reflexivity|].
  destruct (cache_file w) as [| |d]; try reflexivity.
  destruct (cd_shader_index d); reflexivity.
Qed.

(** C4: the index goes through the cache file and comes back unchanged.
    Whatever the cache file was and with or without [force_rebuild],
    [load_all_json_metadata] returns the stored index (a call without
    [force_rebuild] on a cache file that has one) or the index it builds
    from the corpus (every other call), and after the call the
    [shader_index] slot of the cache file holds the index returned, the
    corpus being left as it was; a later call without [force_rebuild]
    returns that index, whatever the corpus holds by then and without
    touching the file system; and a call without [force_rebuild] on a cache
    file that has a [shader_index] returns that index and leaves everything
    as it was. *)
Theorem index_cache_round_trip (w : World) (self self' : Searcher) (force : bool)
    (corpus' : gmap string JsonFile) :
  let built := load_all_json_metadata w self force in
  built.1 = match (if force then None else cached_shader_index w) with
            | Some index => index
            | None => build_index (json_dir self) (json_files w)
            end
  /\ cached_shader_index built.2 = Some built.1
  /\ json_files built.2 = json_files w
  /\ (let w' := set_json_files built.2 corpus' in
      load_all_json_metadata w' self' false = (built.1, w'))
  /\ (forall d index,
        cache_file w = CacheStored d -> cd_shader_index d = Some index ->
        load_all_json_metadata w self false = (index, w)).
Proof.
  cbn zeta. split; [apply load_all_json_metadata_source|].
  split; [apply load_all_json_metadata_persists|].
  split.
  { unfold load_all_json_metadata.
    destruct (cd_shader_index (initial_cache_data force w)); reflexivity. }
  split.
  - unfold load_all_json_metadata, initial_cache_data.
    destruct force; simpl.
    + reflexivity.
    + destruct (cache_file w) as [| |d] eqn:E; simpl; try reflexivity.
      destruct (cd_shader_index d) as [index|] eqn:Ei; simpl.
      * rewrite E, Ei. reflexivity.
      * reflexivity.
  - intros d index E Ei.
    unfold load_all_json_metadata, initial_cache_data. rewrite E, Ei. reflexivity.
Qed.

Lemma index_cache_round_trip_witness :
  (let built := load_all_json_metadata procedural_world (new_searcher "json") false in
   let w' := set_json_files built.2 ∅ in
   cached_shader_index built.2 = Some built.1
   /\ load_all_json_metadata w' (new_searcher "elsewhere") false = (built.1, w'))
  /\ load_all_json_metadata cached_world (new_searcher "json") false
     = ({[ "XsBSRd" := mkEntry "json/XsBSRd.json" "Glow Sphere" "jon" "" [] ]},
        cached_world).
Proof.
  split.
  - pose proof (index_cache_round_trip procedural_world (new_searcher "json")
                  (new_searcher "elsewhere") false ∅) as (_ & Hstored & _ & Hback & _).
    split; [exact Hstored | exact Hback].
  - exact (proj2 (proj2 (proj2 (proj2
             (index_cache_round_trip cached_world (new_searcher "json")
                (new_searcher "json") false ∅))))
             both_slots _ eq_refl eq_refl).
Defined.

(** The round trip from an absent cache file: the index built from the
    corpus is written, and read back after the corpus has been emptied. *)
Example index_persisted_from_absent_cache :
  let built := load_all_json_metadata procedural_world (new_searcher "json") false in
  let index : gmap string IndexEntry :=
    {[ "XsBSRd" := mkEntry "json/XsBSRd.json" "Glow Sphere" "jon" "" [] ]} in
  cache_file procedural_world = CacheAbsent
  /\ built.1 = index
  /\ cached_shader_index built.2 = Some index
  /\ (load_all_json_metadata (set_json_files built.2 ∅) (new_searcher "elsewhere")
        false).1 = index.
Proof. vm_compute. repeat split; reflexivity. Qed.

(** C9, as stated, fails: [load_all_json_metadata] with [force_rebuild]
    does not read the cache file, and writes a dictionary with the rebuilt
    [shader_index] and no [tag_cache] over one that held both. *)
Lemma forced_rebuild_drops_tag_cache :
  cached_tag_cache cached_world = Some {[ "procedural" := {[ "XsBSRd" ]} ]}
  /\ cache_file (load_all_json_metadata cached_world (new_searcher "json") true).2
     = CacheStored
         (mkCache None
            (Some {[ "XsBSRd" := mkEntry "json/XsBSRd.json" "Glow Sphere" "jon" "" [] ]})).
Proof. split; vm_compute; reflexivity. Qed.

(** C9, amended: [build_tag_mappings] leaves the [shader_index] slot of the
    cache file as it was, whatever the file held; [load_all_json_metadata]
    without [force_rebuild] leaves the [tag_cache] slot as it was; with
    [force_rebuild] it writes a dictionary that has the rebuilt
    [shader_index] and no [tag_cache]. *)
Theorem cache_slots_frame (w : World) (self : Searcher) :
  cached_shader_index (build_tag_mappings w self).1.2 = cached_shader_index w
  /\ cached_tag_cache (load_all_json_metadata w self false).2 = cached_tag_cache w
  /\ cache_file (load_all_json_metadata w self true).2
     = CacheStored (mkCache None (Some (build_index (json_dir self) (json_files w)))).
Proof.
  split; [apply build_tag_mappings_keeps_index|].
  split; [apply load_index_keeps_tag_cache | reflexivity].
Qed.

(** ** The index builder *)

Lemma index_json_file_step (dir : string) (files : gmap string JsonFile)
    (index : gmap string IndexEntry) (name : string) :
  index_json_file dir files index name
  = match files !! name with
    | Some (Parsed data) =>
        match doc_info data with
        | Some info => <[indexed_id dir name info := indexed_entry dir name info]> index
        | None => index
        end
    | _ => index
    end.
Proof.
  unfold index_json_file.
  destruct (files !! name) as [[| |data]|]; reflexivity.
Qed.

Lemma build_index_loop_sound (dir : string) (files : gmap string JsonFile)
    (names : list string) :
  forall (index : gmap string IndexEntry) (shader_id : string) (e : IndexEntry),
  foldl (index_json_file dir files) index names !! shader_id = Some e ->
  index !! shader_id = Some e
  \/ exists name data info,
       name ∈ names /\ files !! name = Some (Parsed data) /\ doc_info data = Some info
       /\ shader_id = indexed_id dir name info /\ e = indexed_entry dir name info.
Proof.
  induction names as [|name names IH]; intros index shader_id e H.
  - left. exact H.
  - change (foldl (index_json_file dir files) index (name :: names))
      with (foldl (index_json_file dir files) (index_json_file dir files index name) names)
      in H.
    apply IH in H as [H|(name' & data & info & Hin & Hf & Hi & Hid & He)].
    + rewrite index_json_file_step in H.
      destruct (files !! name) as [[| |data]|] eqn:Ef; try (left; exact H).
      destruct (doc_info data) as [info|] eqn:Ei; try (left; exact H).
      destruct (decide (indexed_id dir name info = shader_id)) as [Heq|Hne].
      * rewrite Heq, lookup_insert_eq in H. injection H as <-.
        right. exists name, data, info. repeat split; auto. left.
      * rewrite lookup_insert_ne in H by exact Hne. left. exact H.
    + right. exists name', data, info. repeat split; auto. right. exact Hin.
Qed.

Lemma build_index_loop_keeps (dir : string) (files : gmap string JsonFile)
    (names : list string) :
  forall (index : gmap string IndexEntry) (shader_id : string),
  is_Some (index !! shader_id) ->
  is_Some (foldl (index_json_file dir files) index names !! shader_id).
Proof.
  induction names as [|name names IH]; intros index shader_id H; [exact H|].
  change (foldl (index_json_file dir files) index (name :: names))
    with (foldl (index_json_file dir files) (index_json_file dir files index name) names).
  apply IH. rewrite index_json_file_step.
  destruct (files !! name) as [[| |data]|]; try exact H.
  destruct (doc_info data) as [info|]; try exact H.
  rewrite lookup_insert. case_decide; [eexists; reflexivity | exact H].
Qed.

Lemma build_index_loop_complete (dir : string) (files : gmap string JsonFile)
    (names : list string) (name : string) (data : Document) (info : Info) :
  name ∈ names -> files !! name = Some (Parsed data) -> doc_info data = Some info ->
  forall index : gmap string IndexEntry,
  is_Some (foldl (index_json_file dir files) index names !! indexed_id dir name info).
Proof.
  intros Hin Hf Hi. induction names as [|n names IH]; intros index.
  - inversion Hin.
  - change (foldl (index_json_file dir files) index (n :: names))
      with (foldl (index_json_file dir files) (index_json_file dir files index n) names).
    apply elem_of_cons in Hin as [<-|Hin].
    + apply build_index_loop_keeps. rewrite index_json_file_step, Hf, Hi.
      rewrite lookup_insert_eq. eexists; reflexivity.
    + apply IH. exact Hin.
Qed.

Lemma elem_of_json_names (files : gmap string JsonFile) (name : string) :
  name ∈ List.filter (fun n => endswith n ".json" && negb (startswith n "."))
                     (listdir files)
  <-> is_Some (files !! name)
      /\ endswith name ".json" = true /\ startswith name "." = false.
Proof.
  unfold listdir. rewrite list_elem_of_In, filter_In, <- list_elem_of_In.
  rewrite andb_true_iff, negb_true_iff, list_elem_of_fmap. split.
  - intros [((n & f) & -> & Hin) H]. split; [|exact H].
    apply elem_of_map_to_list in Hin. exists f. exact Hin.
  - intros [[f Hf] H]. split; [|exact H].
    exists (name, f). split; [reflexivity|]. apply elem_of_map_to_list. exact Hf.
Qed.

(** What the glob lists is a file of the directory with a name in [.json]
    that is not hidden; for a [json_dir] without pattern characters it lists
    every such file. *)
Lemma glob_json_names (dir : string) (files : gmap string JsonFile) (name : string) :
  name ∈ glob_json dir files ->
  is_Some (files !! name)
  /\ endswith name ".json" = true /\ startswith name "." = false.
Proof.
  unfold glob_json. destruct (has_magic dir && negb (matches_itself dir)).
  - intros H. inversion H.
  - apply elem_of_json_names.
Qed.

Lemma elem_of_glob_json (dir : string) (files : gmap string JsonFile) (name : string) :
  has_magic dir = false ->
  name ∈ glob_json dir files
  <-> is_Some (files !! name)
      /\ endswith name ".json" = true /\ startswith name "." = false.
Proof.
  intros Hd. unfold glob_json. rewrite Hd. cbn [andb]. apply elem_of_json_names.
Qed.

(** Every record of the index comes from a document that parses to an
    object with an [info] section, under the id and with the fields the
    builder computes for it. *)
Lemma build_index_sound (dir : string) (files : gmap string JsonFile)
    (shader_id : string) (e : IndexEntry) :
  build_index dir files !! shader_id = Some e ->
  exists name data info,
    name ∈ glob_json dir files /\ files !! name = Some (Parsed data)
    /\ doc_info data = Some info
    /\ shader_id = indexed_id dir name info /\ e = indexed_entry dir name info.
Proof.
  intros H. apply build_index_loop_sound in H as [H|H]; [|exact H].
  rewrite lookup_empty in H. discriminate H.
Qed.

(** Every such document that the glob lists has its id in the index. *)
Lemma build_index_complete (dir : string) (files : gmap string JsonFile)
    (name : string) (data : Document) (info : Info) :
  name ∈ glob_json dir files -> files !! name = Some (Parsed data) ->
  doc_info data = Some info ->
  is_Some (build_index dir files !! indexed_id dir name info).
Proof. intros Hin Hf Hi. exact (build_index_loop_complete _ _ _ _ _ _ Hin Hf Hi ∅). Qed.

(** A corpus without any such document gives the empty index. *)
Lemma build_index_all_skipped (dir : string) (files : gmap string JsonFile) :
  (forall name data, files !! name = Some (Parsed data) -> doc_info data = None) ->
  build_index dir files = ∅.
Proof.
  intros Hall. apply map_eq. intros shader_id. rewrite lookup_empty.
  destruct (build_index dir files !! shader_id) as [e|] eqn:E; [|reflexivity].
  apply build_index_sound in E as (name & data & info & _ & Hf & Hi & _).
  rewrite (Hall name data Hf) in Hi. discriminate Hi.
Qed.

(** C5 at a corpus of one well-formed and one malformed document: the
    malformed one is skipped and the index has one record, but the id the
    record gets from the file name [a.json.json] is [a], every [.json]
    having been removed, where the name without its extension is [a.json]. *)
Lemma build_index_double_extension :
  build_index "json" double_extension_corpus
  = {[ "a" := mkEntry "json/a.json.json" "" "" "" [] ]}
  /\ size (build_index "json" double_extension_corpus) = 1
  /\ drop_last 5 "a.json.json" = "a.json".
Proof. repeat split; vm_compute; reflexivity. Qed.

(** ** The tag pass of the mutator *)

(** C7 at a corpus of one document named by two tag files: the pass writes
    the one document twice and counts two. *)
Lemma tag_pass_counts_writes :
  (add_requires_info_to_jsons two_tags_world (new_searcher "json")).1.1.1 = 2
  /\ size (json_files two_tags_world) = 1
  /\ json_files (add_requires_info_to_jsons two_tags_world (new_searcher "json")).1.2
     = {[ "X.json" :=
            Parsed (mkDoc (Some (mkInfo None None None None (Some ["a"; "b"]) None))
                          None) ]}.
Proof. repeat split; vm_compute; reflexivity. Qed.

(** ** The requires pass of the mutator *)

Lemma append_missing_present (reqs l : list string) :
  (forall r, r ∈ reqs -> r ∈ l) -> append_missing l reqs = l.
Proof.
  unfold append_missing.
  induction reqs as [|r reqs IH]; intros H; simpl; [reflexivity|].
  rewrite bool_decide_eq_true_2 by (apply H; left).
  apply IH. intros r' Hr'. apply H. right. exact Hr'.
Qed.

Lemma append_missing_keeps (reqs l : list string) (x : string) :
  x ∈ l -> x ∈ append_missing l reqs.
Proof.
  unfold append_missing. revert l.
  induction reqs as [|r reqs IH]; intros l Hx; simpl; [exact Hx|].
  apply IH. destruct (bool_decide (r ∈ l)); [exact Hx|].
  apply elem_of_app. left. exact Hx.
Qed.

Lemma append_missing_adds (reqs l : list string) (x : string) :
  x ∈ reqs -> x ∈ append_missing l reqs.
Proof.
  revert l. induction reqs as [|r reqs IH]; intros l Hx.
  - inversion Hx.
  - apply elem_of_cons in Hx as [->|Hx].
    + change (append_missing l (r :: reqs))
        with (append_missing (if bool_decide (r ∈ l) then l else (l ++ [r])%list) reqs).
      apply append_missing_keeps.
      destruct (bool_decide (r ∈ l)) eqn:E.
      * apply bool_decide_eq_true_1 in E. exact E.
      * apply elem_of_app. right. left.
    + change (append_missing l (r :: reqs))
        with (append_missing (if bool_decide (r ∈ l) then l else (l ++ [r])%list) reqs).
      apply IH. exact Hx.
Qed.

Lemma updated_requires_settled (info : Info) (renderpass : list PassInfo) :
  updated_requires (set_info_requires info (updated_requires info renderpass)) renderpass
  = updated_requires info renderpass.
Proof.
  unfold updated_requires at 1. simpl.
  apply append_missing_present. intros r Hr.
  unfold updated_requires. apply append_missing_adds. exact Hr.
Qed.

Lemma add_requires_to_json_step (files : gmap string JsonFile) (n : nat) (name : string) :
  add_requires_to_json (files, n) name
  = match files !! name with
    | Some (Parsed (mkDoc (Some info) (Some renderpass))) =>
        if endswith name ".json"
           && requires_would_grow (Parsed (mkDoc (Some info) (Some renderpass)))
        then (<[name := Parsed (mkDoc
                 (Some (set_info_requires info (updated_requires info renderpass)))
                 (Some renderpass))]> files, S n)
        else (files, n)
    | _ => (files, n)
    end.
Proof.
  unfold add_requires_to_json, requires_would_grow.
  destruct (endswith name ".json"); simpl.
  - destruct (files !! name) as [[| |[[info|] [rp|]]]|]; simpl; reflexivity.
  - destruct (files !! name) as [[| |[[info|] [rp|]]]|]; simpl; reflexivity.
Qed.

Lemma requires_would_grow_updated (info : Info) (renderpass : list PassInfo) :
  requires_would_grow
    (Parsed (mkDoc (Some (set_info_requires info (updated_requires info renderpass)))
                   (Some renderpass))) = false.
Proof.
  unfold requires_would_grow. cbn [doc_info doc_renderpass].
  rewrite updated_requires_settled. simpl. apply Nat.ltb_irrefl.
Qed.

(** A step leaves every file as it was or settled, and creates none. *)
Lemma add_requires_to_json_others (files : gmap string JsonFile) (n : nat)
    (name k : string) (f' : JsonFile) :
  (add_requires_to_json (files, n) name).1 !! k = Some f' ->
  exists f, files !! k = Some f /\ (f' = f \/ requires_would_grow f' = false).
Proof.
  rewrite add_requires_to_json_step.
  destruct (files !! name) as [[| |[[info|] [rp|]]]|] eqn:E;
    try (intros H; exists f'; split; [exact H | left; reflexivity]).
  destruct (endswith name ".json"
            && requires_would_grow (Parsed (mkDoc (Some info) (Some rp))));
    try (intros H; exists f'; split; [exact H | left; reflexivity]).
  cbn [fst].
  destruct (decide (name = k)) as [->|Hne].
  - rewrite lookup_insert_eq. intros [= <-].
    eexists. split; [exact E|]. right. apply requires_would_grow_updated.
  - rewrite lookup_insert_ne by exact Hne.
    intros H; exists f'; split; [exact H | left; reflexivity].
Qed.

(** A step settles the file it visits. *)
Lemma add_requires_to_json_settles (files : gmap string JsonFile) (n : nat)
    (name : string) (f' : JsonFile) :
  (add_requires_to_json (files, n) name).1 !! name = Some f' ->
  endswith name ".json" = true ->
  requires_would_grow f' = false.
Proof.
  rewrite add_requires_to_json_step. intros H Hjson. rewrite Hjson in H.
  destruct (files !! name) as [[| |[[info|] [rp|]]]|] eqn:E; cbn [fst] in H;
    try (rewrite E in H; first [discriminate H | injection H as <-; reflexivity]).
  destruct (requires_would_grow (Parsed (mkDoc (Some info) (Some rp)))) eqn:G;
    cbn [andb fst] in H.
  - rewrite lookup_insert_eq in H. injection H as <-.
    apply requires_would_grow_updated.
  - rewrite E in H. injection H as <-. exact G.
Qed.

Lemma requires_loop_invariant (names : list string) :
  forall (files : gmap string JsonFile) (n : nat),
  let r := foldl add_requires_to_json (files, n) names in
  (forall k f', r.1 !! k = Some f' ->
     exists f, files !! k = Some f /\ (f' = f \/ requires_would_grow f' = false))
  /\ (forall k f', k ∈ names -> r.1 !! k = Some f' ->
        endswith k ".json" = true -> requires_would_grow f' = false).
Proof.
  induction names as [|name names IH]; intros files n.
  - split.
    + intros k f' H. exists f'. split; [exact H | left; reflexivity].
    + intros k f' Hk. inversion Hk.
  - change (foldl add_requires_to_json (files, n) (name :: names))
      with (foldl add_requires_to_json (add_requires_to_json (files, n) name) names).
    destruct (add_requires_to_json (files, n) name) as [files1 n1] eqn:Estep.
    destruct (IH files1 n1) as [IHa IHb].
    assert (Hfiles1 : files1 = (add_requires_to_json (files, n) name).1)
      by (rewrite Estep; reflexivity).
    split.
    + intros k f' H.
      destruct (IHa k f' H) as (f1 & Hf1 & Hcase).
      rewrite Hfiles1 in Hf1.
      destruct (add_requires_to_json_others _ _ _ _ _ Hf1) as (f & Hf & Hcase1).
      exists f. split; [exact Hf|].
      destruct Hcase as [->|Hs]; [exact Hcase1 | right; exact Hs].
    + intros k f' Hk H Hjson.
      apply elem_of_cons in Hk as [->|Hk].
      * destruct (IHa name f' H) as (f1 & Hf1 & [->|Hs]); [|exact Hs].
        rewrite Hfiles1 in Hf1.
        exact (add_requires_to_json_settles _ _ _ _ Hf1 Hjson).
      * exact (IHb k f' Hk H Hjson).
Qed.

Lemma requires_pass_settles (files : gmap string JsonFile) :
  requires_settled (requires_pass files).1.
Proof.
  intros k f' H Hjson.
  destruct (requires_loop_invariant (listdir files) files 0) as [Ha Hb].
  destruct (Ha k f' H) as (f & Hf & _).
  apply (Hb k f'); [|exact H|exact Hjson].
  unfold listdir. apply list_elem_of_fmap. exists (k, f). split; [reflexivity|].
  apply elem_of_map_to_list. exact Hf.
Qed.

Lemma requires_loop_settled (files : gmap string JsonFile) :
  requires_settled files ->
  forall (names : list string) (n : nat),
  foldl add_requires_to_json (files, n) names = (files, n).
Proof.
  intros Hs names. induction names as [|name names IH]; intros n.
  - reflexivity.
  - change (foldl add_requires_to_json (files, n) (name :: names))
      with (foldl add_requires_to_json (add_requires_to_json (files, n) name) names).
    rewrite add_requires_to_json_step.
    destruct (files !! name) as [[| |[[info|] [rp|]]]|] eqn:E; try apply IH.
    destruct (endswith name ".json") eqn:Hjson; cbn [andb]; [|apply IH].
    rewrite (Hs name _ E Hjson). apply IH.
Qed.

Lemma requires_pass_settled (files : gmap string JsonFile) :
  requires_settled files -> requires_pass files = (files, 0).
Proof. intros Hs. apply requires_loop_settled. exact Hs. Qed.

(** ** The tag pass leaves the requirements alone *)

Lemma requires_related_refl (o : option JsonFile) : requires_related o o.
Proof. destruct o; simpl; auto. Qed.

Lemma requires_related_trans (o1 o2 o3 : option JsonFile) :
  requires_related o1 o2 -> requires_related o2 o3 -> requires_related o1 o3.
Proof.
  destruct o1, o2, o3; simpl; try tauto.
  intros [H1 H2] [H3 H4]. split; congruence.
Qed.

Lemma add_tag_to_json_related (tag : string) (files : gmap string JsonFile)
    (n : nat) (shader_id k : string) :
  requires_related ((add_tag_to_json tag (files, n) shader_id).1 !! k) (files !! k).
Proof.
  unfold add_tag_to_json.
  destruct (files !! (shader_id ++ ".json")) as [[| |data]|] eqn:E;
    try apply requires_related_refl.
  destruct (doc_info data) as [info|] eqn:Ei; try apply requires_related_refl.
  destruct (bool_decide (tag ∈ py_get (info_tags info) []));
    try apply requires_related_refl.
  cbn [fst].
  destruct (decide (shader_id ++ ".json" = k)) as [<-|Hne].
  - rewrite lookup_insert_eq, E. unfold requires_related, requires_would_grow,
      requires_of_file, updated_requires.
    cbn [doc_info doc_renderpass set_info_tags info_requires].
    rewrite Ei. split; reflexivity.
  - rewrite lookup_insert_ne by exact Hne. apply requires_related_refl.
Qed.

Lemma add_tag_to_jsons_related (tag : string) (ids : list string) :
  forall (files : gmap string JsonFile) (n : nat) (k : string),
  requires_related ((foldl (add_tag_to_json tag) (files, n) ids).1 !! k) (files !! k).
Proof.
  induction ids as [|shader_id ids IH]; intros files n k.
  - apply requires_related_refl.
  - change (foldl (add_tag_to_json tag) (files, n) (shader_id :: ids))
      with (foldl (add_tag_to_json tag) (add_tag_to_json tag (files, n) shader_id) ids).
    pose proof (add_tag_to_json_related tag files n shader_id k) as Hstep.
    destruct (add_tag_to_json tag (files, n) shader_id) as [files1 n1].
    exact (requires_related_trans _ _ _ (IH files1 n1 k) Hstep).
Qed.

Lemma tag_loop_related (items : list (string * gset string)) :
  forall (files : gmap string JsonFile) (n : nat) (k : string),
  requires_related ((foldl add_tag_to_jsons (files, n) items).1 !! k) (files !! k).
Proof.
  induction items as [|[tag ids] items IH]; intros files n k.
  - apply requires_related_refl.
  - change (foldl add_tag_to_jsons (files, n) ((tag, ids) :: items))
      with (foldl add_tag_to_jsons
              (foldl (add_tag_to_json tag) (files, n) (elements ids)) items).
    pose proof (add_tag_to_jsons_related tag (elements ids) files n k) as Hstep.
    destruct (foldl (add_tag_to_json tag) (files, n) (elements ids)) as [files1 n1].
    exact (requires_related_trans _ _ _ (IH files1 n1 k) Hstep).
Qed.

Lemma tag_pass_related (tag_mappings : gmap string (gset string))
    (files : gmap string JsonFile) (k : string) :
  requires_related ((tag_pass tag_mappings files).1 !! k) (files !! k).
Proof. apply tag_loop_related. Qed.

Lemma tag_pass_settled (tag_mappings : gmap string (gset string))
    (files : gmap string JsonFile) :
  requires_settled files -> requires_settled (tag_pass tag_mappings files).1.
Proof.
  intros Hs k f' H Hjson.
  pose proof (tag_pass_related tag_mappings files k) as Hrel.
  rewrite H in Hrel. destruct (files !! k) as [f|] eqn:E; simpl in Hrel; [|tauto].
  destruct Hrel as [Hg _]. rewrite Hg. exact (Hs k f E Hjson).
Qed.

Lemma build_tag_mappings_json_files (w : World) (self : Searcher) :
  json_files (build_tag_mappings w self).1.2 = json_files w.
Proof.
  unfold build_tag_mappings, save_tag_cache.
  destruct (cached_tag_cache w); simpl; [reflexivity|].
  destruct (cache_file w); reflexivity.
Qed.

Lemma add_requires_info_to_jsons_unfold (w : World) (self : Searcher) :
  add_requires_info_to_jsons w self
  = let b := build_tag_mappings w self in
    let t := tag_pass b.1.1 (json_files w) in
    let r := requires_pass t.1 in
    ((t.2, r.2), set_json_files b.1.2 r.1, b.2).
Proof.
  unfold add_requires_info_to_jsons.
  rewrite <- (build_tag_mappings_json_files w self).
  destruct (build_tag_mappings w self) as [[tm w1] self1]. cbn [fst snd].
  destruct (tag_pass tm (json_files w1)) as [files1 n1]. cbn [fst snd].
  destruct (requires_pass files1) as [files2 n2]. reflexivity.
Qed.

(** C6: after one run of [add_requires_info_to_jsons], a second run (by the
    same or another searcher object) reports 0 files updated with requires
    information, its second loop writes no file, and no [requires] list of
    the corpus differs from what the first run left. *)
Theorem requires_pass_idempotent (w : World) (self self' : Searcher) :
  let w1 := (add_requires_info_to_jsons w self).1.2 in
  let run2 := add_requires_info_to_jsons w1 self' in
  let tagged := (tag_pass (build_tag_mappings w1 self').1.1 (json_files w1)).1 in
  run2.1.1.2 = 0
  /\ requires_pass tagged = (tagged, 0)
  /\ json_files run2.1.2 = tagged
  /\ (forall name,
        requires_of_file <$> json_files run2.1.2 !! name
        = requires_of_file <$> json_files w1 !! name).
Proof.
  intros w1 run2 tagged.
  assert (Hs1 : requires_settled (json_files w1)).
  { subst w1. rewrite add_requires_info_to_jsons_unfold. cbn [fst snd json_files set_json_files].
    apply requires_pass_settles. }
  assert (Hs2 : requires_settled tagged) by (apply tag_pass_settled; exact Hs1).
  assert (Hp : requires_pass tagged = (tagged, 0)) by (apply requires_pass_settled; exact Hs2).
  assert (Hfiles : json_files run2.1.2 = tagged).
  { subst run2. rewrite add_requires_info_to_jsons_unfold.
    cbn [fst snd json_files set_json_files]. fold tagged. rewrite Hp. reflexivity. }
  repeat split.
  - subst run2. rewrite add_requires_info_to_jsons_unfold.
    cbn [fst snd]. fold tagged. rewrite Hp. reflexivity.
  - exact Hp.
  - exact Hfiles.
  - intros name. rewrite Hfiles.
    pose proof (tag_pass_related (build_tag_mappings w1 self').1.1 (json_files w1) name)
      as Hrel.
    fold tagged in Hrel.
    destruct (tagged !! name) as [f'|], (json_files w1 !! name) as [f|];
      simpl in Hrel; try tauto.
    destruct Hrel as [_ Hr]. simpl. rewrite Hr. reflexivity.
Qed.

(** ** The tag mapping read from the archives *)

Lemma read_tag_file_other (tag : string) (entries : list (string * DirEntry)) :
  forall tag_mappings : gmap string (gset string),
  tag ∉ entries.*1 ->
  foldl read_tag_file tag_mappings entries !! tag = tag_mappings !! tag.
Proof.
  induction entries as [|[t e] entries IH]; intros tag_mappings Hnot; [reflexivity|].
  change (foldl read_tag_file tag_mappings ((t, e) :: entries))
    with (foldl read_tag_file (read_tag_file tag_mappings (t, e)) entries).
  cbn [fmap list_fmap fst] in Hnot. apply not_elem_of_cons in Hnot as [Hne Hnot].
  rewrite (IH _ Hnot). unfold read_tag_file.
  destruct e as [|[|ls]]; try reflexivity.
  apply lookup_insert_ne. congruence.
Qed.

Lemma read_tag_file_entry (tag : string) (e : DirEntry)
    (entries : list (string * DirEntry)) :
  forall tag_mappings : gmap string (gset string),
  NoDup entries.*1 -> (tag, e) ∈ entries ->
  foldl read_tag_file tag_mappings entries !! tag
  = match e with
    | RegularFile (Lines ls) => Some (list_to_set (nonblank_lines ls))
    | _ => tag_mappings !! tag
    end.
Proof.
  induction entries as [|[t e'] entries IH]; intros tag_mappings Hnd Hin.
  - inversion Hin.
  - change (foldl read_tag_file tag_mappings ((t, e') :: entries))
      with (foldl read_tag_file (read_tag_file tag_mappings (t, e')) entries).
    cbn [fmap list_fmap fst] in Hnd. apply NoDup_cons in Hnd as [Hnot Hnd].
    apply elem_of_cons in Hin as [[= <- <-]|Hin].
    + rewrite (read_tag_file_other tag entries _ Hnot). unfold read_tag_file.
      destruct e as [|[|ls]]; try reflexivity. apply lookup_insert_eq.
    + rewrite (IH _ Hnd Hin).
      assert (Hne : t <> tag).
      { intros ->. apply Hnot. apply list_elem_of_fmap. exists (tag, e).
        split; [reflexivity | exact Hin]. }
      destruct e as [|[|ls]]; try reflexivity;
        unfold read_tag_file; destruct e' as [|[|ls']]; try reflexivity;
        apply lookup_insert_ne; exact Hne.
Qed.

(** One archive replaces the set of a tag it has a readable file for, and
    leaves every other tag as it was. *)
Lemma scan_search_results_lookup (tag_mappings : gmap string (gset string))
    (a : Archive) (tag : string) :
  scan_search_results tag_mappings a !! tag
  = match tag_file_ids a tag with
    | Some ids => Some ids
    | None => tag_mappings !! tag
    end.
Proof.
  unfold scan_search_results, tag_file_ids.
  destruct (search_results a) as [dir|]; [|reflexivity].
  destruct (dir !! tag) as [e|] eqn:E.
  - rewrite (read_tag_file_entry tag e).
    + destruct e as [|[|ls]]; reflexivity.
    + apply NoDup_fst_map_to_list.
    + apply elem_of_map_to_list. exact E.
  - apply read_tag_file_other. intros Hin.
    apply list_elem_of_fmap in Hin as ((t & e) & -> & Hin).
    apply elem_of_map_to_list in Hin. cbn [fst] in E. congruence.
Qed.

(** The scanned mapping gives a tag the ids of the last archive, in the
    order of [shader_dirs], that has a readable file for it. *)
Lemma scan_tag_files_lookup (w : World) (tag : string) :
  scan_tag_files w !! tag
  = foldl (fun found a =>
             match tag_file_ids a tag with Some ids => Some ids | None => found end)
          None (archives w).
Proof.
  unfold scan_tag_files.
  assert (H : forall archs (tm : gmap string (gset string)),
            foldl scan_search_results tm archs !! tag
            = foldl (fun found a =>
                       match tag_file_ids a tag with
                       | Some ids => Some ids
                       | None => found
                       end) (tm !! tag) archs).
  { induction archs as [|a archs IH]; intros tm; [reflexivity|].
    change (foldl scan_search_results tm (a :: archs))
      with (foldl scan_search_results (scan_search_results tm a) archs).
    rewrite IH, scan_search_results_lookup. reflexivity. }
  rewrite H, lookup_empty. reflexivity.
Qed.

Lemma build_tag_mappings_source (w : World) (self : Searcher) :
  (build_tag_mappings w self).1.1
  = match cached_tag_cache w with
    | Some tc => tc
    | None => scan_tag_files w
    end.
Proof. unfold build_tag_mappings. destruct (cached_tag_cache w); reflexivity. Qed.

(** ** Search: loading, selecting and returning *)

Lemma search_unfold (args : SearchArgs) (w : World) (self : Searcher) :
  search args w self
  = let st := search_load args w self in
    let rf := requires_filters args st.1 st.2 (text_filters args st.2) in
    (prepare_results (shader_index rf.2) (elements rf.1), st.1, rf.2).
Proof.
  unfold search. destruct (search_load args w self) as [w1 self1]. cbn [fst snd].
  destruct (requires_filters args w1 self1 (text_filters args self1)) as [m self2].
  reflexivity.
Qed.

Lemma search_load_forced (args : SearchArgs) (w : World) (self : Searcher) :
  force_rebuild args = true ->
  search_load args w self
  = ((load_all_json_metadata w self true).2,
     set_shader_index self (load_all_json_metadata w self true).1).
Proof.
  intros Hf. unfold search_load. rewrite Hf.
  destruct (load_all_json_metadata w self true) as [index w1]. reflexivity.
Qed.

Lemma search_load_cached (args : SearchArgs) (w : World) (self : Searcher) :
  force_rebuild args = false ->
  search_load args w self
  = let loaded := load_all_json_metadata w self false in
    let b := build_tag_mappings loaded.2 (set_shader_index self loaded.1) in
    (b.1.2, b.2).
Proof.
  intros Hf. unfold search_load. rewrite Hf.
  destruct (load_all_json_metadata w self false) as [index w1]. cbn [fst snd].
  destruct (build_tag_mappings w1 (set_shader_index self index)) as [[tm w2] self2].
  reflexivity.
Qed.

Lemma build_tag_mappings_self (w : World) (self : Searcher) :
  (build_tag_mappings w self).2 = set_tag_cache self (build_tag_mappings w self).1.1.
Proof.
  unfold build_tag_mappings. destruct (cached_tag_cache w); reflexivity.
Qed.

Lemma build_tag_mappings_archives (w : World) (self : Searcher) :
  archives (build_tag_mappings w self).1.2 = archives w.
Proof.
  unfold build_tag_mappings, save_tag_cache.
  destruct (cached_tag_cache w); simpl; [reflexivity|].
  destruct (cache_file w); reflexivity.
Qed.

Lemma load_all_json_metadata_files (w : World) (self : Searcher) (force : bool) :
  json_files (load_all_json_metadata w self force).2 = json_files w
  /\ archives (load_all_json_metadata w self force).2 = archives w.
Proof.
  unfold load_all_json_metadata.
  destruct (cd_shader_index (initial_cache_data force w)); split; reflexivity.
Qed.

(** The mapping [build_tag_mappings] returns depends on the [tag_cache] slot
    of the cache file and on the archives only. *)
Lemma build_tag_mappings_result (w w' : World) (self self' : Searcher) :
  cached_tag_cache w' = cached_tag_cache w -> archives w' = archives w ->
  (build_tag_mappings w' self').1.1 = (build_tag_mappings w self).1.1.
Proof.
  intros Hc Ha. unfold build_tag_mappings, scan_tag_files. rewrite Hc, Ha.
  destruct (cached_tag_cache w); reflexivity.
Qed.

Lemma search_load_index (args : SearchArgs) (w : World) (self : Searcher) :
  shader_index (search_load args w self).2
  = (load_all_json_metadata w self (force_rebuild args)).1
  /\ json_dir (search_load args w self).2 = json_dir self
  /\ requires_cache (search_load args w self).2 = requires_cache self
  /\ json_files (search_load args w self).1 = json_files w
  /\ archives (search_load args w self).1 = archives w.
Proof.
  destruct (force_rebuild args) eqn:Hf.
  - rewrite (search_load_forced _ _ _ Hf). cbn [fst snd].
    destruct (load_all_json_metadata_files w self true) as [H1 H2].
    repeat split; assumption.
  - rewrite (search_load_cached _ _ _ Hf). cbn zeta. cbn [fst snd].
    rewrite build_tag_mappings_self, build_tag_mappings_json_files,
      build_tag_mappings_archives.
    destruct (load_all_json_metadata_files w self false) as [H1 H2].
    repeat split; assumption.
Qed.

Lemma search_load_tag_cache (args : SearchArgs) (w : World) (self : Searcher) :
  tag_cache (search_load args w self).2
  = if force_rebuild args then tag_cache self
    else (build_tag_mappings w self).1.1.
Proof.
  destruct (force_rebuild args) eqn:Hf.
  - rewrite (search_load_forced _ _ _ Hf). reflexivity.
  - rewrite (search_load_cached _ _ _ Hf). cbn zeta. cbn [fst snd].
    rewrite build_tag_mappings_self. cbn [tag_cache set_tag_cache].
    apply build_tag_mappings_result.
    + apply load_index_keeps_tag_cache.
    + apply load_all_json_metadata_files.
Qed.

Lemma select_ids_loop (keep : string -> IndexEntry -> bool)
    (items : list (string * IndexEntry)) :
  forall (acc : gset string) (shader_id : string),
  shader_id ∈ foldl (fun (temp_set : gset string) (item : string * IndexEntry) =>
                       if keep item.1 item.2 then {[item.1]} ∪ temp_set else temp_set)
                    acc items
  <-> shader_id ∈ acc
      \/ exists data, (shader_id, data) ∈ items /\ keep shader_id data = true.
Proof.
  induction items as [|[i d] items IH]; intros acc shader_id; simpl.
  - split; [auto|]. intros [H|(data & H & _)]; [exact H | inversion H].
  - rewrite IH. split.
    + intros [H|(data & H & Hk)].
      * destruct (keep i d) eqn:Hkeep.
        -- apply elem_of_union in H as [H|H]; [|left; exact H].
           apply elem_of_singleton in H as ->.
           right. exists d. split; [left | exact Hkeep].
        -- left; exact H.
      * right. exists data. split; [right; exact H | exact Hk].
    + intros [H|(data & H & Hk)].
      * left. destruct (keep i d); [apply elem_of_union; right|]; exact H.
      * apply elem_of_cons in H as [[= -> ->]|H].
        -- left. rewrite Hk. apply elem_of_union. left. apply elem_of_singleton.
           reflexivity.
        -- right. exists data. split; assumption.
Qed.

Lemma elem_of_select_ids (keep : string -> IndexEntry -> bool)
    (index : gmap string IndexEntry) (shader_id : string) :
  shader_id ∈ select_ids keep index
  <-> exists data, index !! shader_id = Some data /\ keep shader_id data = true.
Proof.
  unfold select_ids. rewrite select_ids_loop. split.
  - intros [H|(data & H & Hk)]; [set_solver|].
    exists data. split; [apply elem_of_map_to_list; exact H | exact Hk].
  - intros (data & H & Hk). right. exists data.
    split; [apply elem_of_map_to_list; exact H | exact Hk].
Qed.

Lemma apply_text_filter_subseteq (arg : option string)
    (keep : string -> string -> IndexEntry -> bool)
    (index : gmap string IndexEntry) (matching_shaders : gset string) :
  apply_text_filter arg keep index matching_shaders ⊆ matching_shaders.
Proof.
  unfold apply_text_filter. destruct (truthy arg); set_solver.
Qed.

Lemma text_filters_in_index (args : SearchArgs) (self : Searcher) (shader_id : string) :
  shader_id ∈ text_filters args self -> is_Some (shader_index self !! shader_id).
Proof.
  unfold text_filters. intros H.
  do 4 apply apply_text_filter_subseteq in H.
  apply elem_of_dom in H. exact H.
Qed.

Lemma prepare_results_spec (index : gmap string IndexEntry) (ids : list string) :
  (forall i, i ∈ ids -> is_Some (index !! i)) ->
  exists results,
    prepare_results index ids = Some results
    /\ r_id <$> results = ids
    /\ (forall r, r ∈ results ->
          exists data, index !! r_id r = Some data /\ r = result_of (r_id r) data).
Proof.
  induction ids as [|i ids IH]; intros Hall.
  - exists []. repeat split. intros r Hr. inversion Hr.
  - destruct IH as (results & Hres & Hids & Hrec).
    { intros j Hj. apply Hall. right. exact Hj. }
    destruct (Hall i) as [data Hdata]; [left|].
    exists (result_of i data :: results). cbn [prepare_results].
    rewrite Hdata, Hres. repeat split.
    + cbn [fmap list_fmap]. simpl. rewrite <- Hids. reflexivity.
    + intros r Hr. apply elem_of_cons in Hr as [->|Hr].
      * exists data. split; [exact Hdata | reflexivity].
      * apply Hrec. exact Hr.
Qed.

Lemma requires_filters_off (args : SearchArgs) (w : World) (self : Searcher)
    (matching_shaders : gset string) :
  any_requires args = false ->
  requires_filters args w self matching_shaders = (matching_shaders, self).
Proof. intros H. unfold requires_filters. rewrite H. reflexivity. Qed.

(** C2, as stated, fails: on a corpus of one shader a search without any
    predicate returns that shader's record, not the empty list. *)
Lemma search_without_predicates_not_empty :
  (search (no_predicates false) procedural_world (new_searcher "json")).1.1
  = Some [mkResult "json/XsBSRd.json" "XsBSRd" "Glow Sphere" "jon" "" []]
  /\ (search (no_predicates false) procedural_world (new_searcher "json")).1.1
     <> Some [].
Proof.
  assert (H : (search (no_predicates false) procedural_world (new_searcher "json")).1.1
              = Some [mkResult "json/XsBSRd.json" "XsBSRd" "Glow Sphere" "jon" "" []])
    by (vm_compute; reflexivity).
  split; [exact H|]. rewrite H. discriminate.
Qed.

(** C2, amended: a call of [search] without any predicate raises nothing
    and returns the record of every shader of the loaded index, one per id. *)
Theorem search_without_predicates (w : World) (self : Searcher) (force : bool) :
  let index := (load_all_json_metadata w self force).1 in
  exists results,
    (search (no_predicates force) w self).1.1 = Some results
    /\ r_id <$> results = elements (dom index : gset string)
    /\ length results = size index
    /\ (forall r, r ∈ results <->
          exists data, index !! r_id r = Some data /\ r = result_of (r_id r) data).
Proof.
  intros index. rewrite search_unfold. cbn zeta.
  rewrite requires_filters_off by reflexivity. cbn [fst snd].
  set (self1 := (search_load (no_predicates force) w self).2).
  assert (Hix : shader_index self1 = index) by apply search_load_index.
  assert (Htf : text_filters (no_predicates force) self1 = dom index).
  { unfold text_filters, apply_text_filter. simpl. rewrite Hix. reflexivity. }
  rewrite Htf, Hix.
  destruct (prepare_results_spec index (elements (dom index : gset string)))
    as (results & Hres & Hids & Hrec).
  { intros i Hi. apply elem_of_elements, elem_of_dom in Hi. exact Hi. }
  exists results. split; [exact Hres|]. split; [exact Hids|]. split.
  - rewrite <- (length_fmap r_id), Hids. rewrite <- size_dom. reflexivity.
  - intros r. split; [apply Hrec|].
    intros (data & Hdata & Hr).
    assert (Hin : r_id r ∈ r_id <$> results).
    { rewrite Hids. apply elem_of_elements, elem_of_dom. eexists; exact Hdata. }
    apply list_elem_of_fmap in Hin as (r' & Hid & Hr').
    destruct (Hrec r' Hr') as (data' & Hdata' & Heq).
    rewrite <- Hid in Hdata'. rewrite Hdata in Hdata'. injection Hdata' as <-.
    rewrite Hr, Hid, <- Heq. exact Hr'.
Qed.

(** ** The requires-file loader *)

Lemma add_requires_line_loop (ls : list string) :
  forall (requires_set : gset string) (shader_id : string),
  shader_id ∈ foldl add_requires_line requires_set ls
  <-> shader_id ∈ requires_set
      \/ exists line,
           line ∈ ls /\ strip line <> "" /\ startswith (strip line) "---" = false
           /\ shader_id = (if contains "/" (strip line)
                           then last_segment "/"%char (strip line)
                           else strip line).
Proof.
  induction ls as [|l ls IH]; intros requires_set shader_id.
  - cbn. split; [auto|]. intros [H|(line & H & _)]; [exact H | inversion H].
  - change (foldl add_requires_line requires_set (l :: ls))
      with (foldl add_requires_line (add_requires_line requires_set l) ls).
    rewrite IH. unfold add_requires_line.
    destruct (String.eqb_spec (strip l) "") as [He|He]; cbn [negb andb].
    + split.
      * intros [H|(line & Hin & H)]; [left; exact H|].
        right. exists line. split; [right; exact Hin | exact H].
      * intros [H|(line & Hin & Hne & H)]; [left; exact H|].
        apply elem_of_cons in Hin as [->|Hin]; [congruence|].
        right. exists line. split; [exact Hin|]. split; [exact Hne | exact H].
    + destruct (startswith (strip l) "---") eqn:Hs; cbn [negb].
      * split.
        -- intros [H|(line & Hin & H)]; [left; exact H|].
           right. exists line. split; [right; exact Hin | exact H].
        -- intros [H|(line & Hin & Hne & Hst & H)]; [left; exact H|].
           apply elem_of_cons in Hin as [->|Hin]; [congruence|].
           right. exists line. repeat split; assumption.
      * rewrite elem_of_union, elem_of_singleton. split.
        -- intros [[->|H]|(line & Hin & H)].
           ++ right. exists l. split; [left|]. repeat split; assumption.
           ++ left; exact H.
           ++ right. exists line. split; [right; exact Hin | exact H].
        -- intros [H|(line & Hin & Hne & Hst & H)]; [left; right; exact H|].
           apply elem_of_cons in Hin as [->|Hin].
           ++ left; left; exact H.
           ++ right. exists line. repeat split; assumption.
Qed.

(** The ids a scan of the requires files gives: the last path segment of
    every non-blank, non-comment line of every readable
    [requires_<req_type>.txt]. *)
Lemma elem_of_scan_requires_files (w : World) (req_type shader_id : string) :
  shader_id ∈ scan_requires_files w req_type
  <-> exists a ls line,
        a ∈ archives w
        /\ archive_files a !! ("requires_" ++ req_type ++ ".txt") = Some (Lines ls)
        /\ line ∈ ls /\ strip line <> "" /\ startswith (strip line) "---" = false
        /\ shader_id = (if contains "/" (strip line)
                        then last_segment "/"%char (strip line)
                        else strip line).
Proof.
  unfold scan_requires_files.
  assert (H : forall archs (acc : gset string),
            shader_id ∈ foldl (scan_requires_file req_type) acc archs
            <-> shader_id ∈ acc
                \/ exists a ls line,
                     a ∈ archs
                     /\ archive_files a !! ("requires_" ++ req_type ++ ".txt")
                        = Some (Lines ls)
                     /\ line ∈ ls /\ strip line <> ""
                     /\ startswith (strip line) "---" = false
                     /\ shader_id = (if contains "/" (strip line)
                                     then last_segment "/"%char (strip line)
                                     else strip line)).
  { induction archs as [|a archs IH]; intros acc.
    - cbn. split; [auto|]. intros [H|(a & ls & line & H & _)]; [exact H | inversion H].
    - change (foldl (scan_requires_file req_type) acc (a :: archs))
        with (foldl (scan_requires_file req_type)
                (scan_requires_file req_type acc a) archs).
      rewrite IH. unfold scan_requires_file.
      destruct (archive_files a !! ("requires_" ++ req_type ++ ".txt"))
        as [[|ls]|] eqn:E.
      + split.
        * intros [H|(a' & ls' & line & Hin & H)]; [left; exact H|].
          right. exists a', ls', line. split; [right; exact Hin | exact H].
        * intros [H|(a' & ls' & line & Hin & Hf & H)]; [left; exact H|].
          apply elem_of_cons in Hin as [->|Hin]; [congruence|].
          right. exists a', ls', line. split; [exact Hin|]. split; [exact Hf | exact H].
      + rewrite add_requires_line_loop. split.
        * intros [[H|(line & H)]|(a' & ls' & line & Hin & H)].
          -- left; exact H.
          -- right. exists a, ls, line. split; [left|]. split; [exact E | exact H].
          -- right. exists a', ls', line. split; [right; exact Hin | exact H].
        * intros [H|(a' & ls' & line & Hin & Hf & H)]; [left; left; exact H|].
          apply elem_of_cons in Hin as [->|Hin].
          -- left; right. rewrite E in Hf. injection Hf as <-. exists line. exact H.
          -- right. exists a', ls', line. split; [exact Hin|].
             split; [exact Hf | exact H].
      + split.
        * intros [H|(a' & ls' & line & Hin & H)]; [left; exact H|].
          right. exists a', ls', line. split; [right; exact Hin | exact H].
        * intros [H|(a' & ls' & line & Hin & Hf & H)]; [left; exact H|].
          apply elem_of_cons in Hin as [->|Hin]; [congruence|].
          right. exists a', ls', line. split; [exact Hin|]. split; [exact Hf | exact H]. }
  rewrite H. split; [intros [Hin|Hex]; [set_solver | exact Hex] | intros Hex; right; exact Hex].
Qed.

(** Once a requires file has been loaded the searcher object answers from
    its memo, whatever the file system holds by then. *)
Lemma load_requires_file_memo (w w' : World) (self : Searcher) (req_type : string) :
  load_requires_file w' (load_requires_file w self req_type).2 req_type
  = ((load_requires_file w self req_type).1, (load_requires_file w self req_type).2).
Proof.
  unfold load_requires_file.
  destruct (requires_cache self !! req_type) as [s|] eqn:E.
  - cbn [fst snd]. rewrite E. reflexivity.
  - cbn [fst snd requires_cache set_requires_cache].
    rewrite lookup_insert_eq. reflexivity.
Qed.

(** ** Search: the requires filters *)

Lemma same_loader_refl (w : World) (self : Searcher) : same_loader w self self.
Proof. repeat split. Qed.

Lemma same_loader_trans (w : World) (s1 s2 s3 : Searcher) :
  same_loader w s1 s2 -> same_loader w s2 s3 -> same_loader w s1 s3.
Proof.
  intros (A1 & A2 & A3 & A4) (B1 & B2 & B3 & B4).
  split; [congruence|]. split; [congruence|]. split; [congruence|].
  intros n. rewrite B4. apply A4.
Qed.

Lemma load_requires_file_same (w : World) (self : Searcher) (req_type : string) :
  same_loader w self (load_requires_file w self req_type).2.
Proof.
  unfold load_requires_file.
  destruct (requires_cache self !! req_type) as [s|] eqn:E.
  - apply same_loader_refl.
  - repeat split. intros n. unfold requires_set, load_requires_file.
    cbn [snd requires_cache set_requires_cache].
    destruct (decide (req_type = n)) as [<-|Hne].
    + rewrite lookup_insert_eq, E. reflexivity.
    + rewrite lookup_insert_ne by exact Hne.
      destruct (requires_cache self !! n); reflexivity.
Qed.

Lemma requirement_met_same (w : World) (self self' : Searcher) (shader_id : string)
    (req_list : list string) (c : Capability) :
  same_loader w self self' ->
  requirement_met w self' shader_id req_list c = requirement_met w self shader_id req_list c.
Proof.
  intros (_ & _ & _ & H). unfold requirement_met. rewrite H. reflexivity.
Qed.

Lemma check_requirement_loop (args : SearchArgs) (w : World) (shader_id : string)
    (req_list : list string) (cs : list Capability) :
  forall (conds : list bool) (checked : bool) (self : Searcher),
  let r := foldl (check_requirement args w shader_id req_list) (conds, checked, self) cs in
  same_loader w self r.2
  /\ r.1.1 = (conds ++ List.map (requirement_met w self shader_id req_list)
                               (List.filter (requested args) cs))%list
  /\ r.1.2 = checked || existsb (requested args) cs.
Proof.
  induction cs as [|c cs IH]; intros conds checked self.
  - cbn. split; [apply same_loader_refl|]. split.
    + rewrite app_nil_r. reflexivity.
    + rewrite orb_false_r. reflexivity.
  - change (foldl (check_requirement args w shader_id req_list) (conds, checked, self) (c :: cs))
      with (foldl (check_requirement args w shader_id req_list)
              (check_requirement args w shader_id req_list (conds, checked, self) c) cs).
    unfold check_requirement at 2. cbn [List.filter existsb].
    destruct (requested args c) eqn:Hc.
    + pose proof (load_requires_file_same w self (requires_file_of c)) as Hsame.
      change (load_requires_file w self (requires_file_of c)).1
        with (requires_set w self (requires_file_of c)).
      destruct (load_requires_file w self (requires_file_of c)) as [from_file self1] eqn:El.
      assert (Hff : from_file = requires_set w self (requires_file_of c))
        by (unfold requires_set; rewrite El; reflexivity).
      cbn [snd] in Hsame.
      destruct (IH (conds ++ [bool_decide (shader_id ∈ from_file)
                              || bool_decide (json_requirement_of c ∈ req_list)])%list
                   true self1) as (I1 & I2 & I3).
      split; [exact (same_loader_trans _ _ _ _ Hsame I1)|]. split.
      * rewrite I2, <- app_assoc. cbn [List.map app]. f_equal. f_equal.
        -- unfold requirement_met. rewrite Hff. reflexivity.
        -- apply map_ext. intros c'. apply requirement_met_same. exact Hsame.
      * rewrite I3. cbn [orb]. rewrite orb_true_r. reflexivity.
    + destruct (IH conds checked self) as (I1 & I2 & I3).
      split; [exact I1|]. split; [exact I2|]. rewrite I3. reflexivity.
Qed.

Lemma any_requires_blocks (args : SearchArgs) :
  existsb (requested args) capability_blocks = any_requires args.
Proof.
  unfold any_requires, capability_blocks. cbn [existsb requested].
  rewrite orb_false_r, !orb_assoc. reflexivity.
Qed.

Lemma capability_blocks_complete (c : Capability) : In c capability_blocks.
Proof. destruct c; simpl; tauto. Qed.

Lemma conditions_all_met (args : SearchArgs) (met : Capability -> bool) :
  forallb id (List.map met (List.filter (requested args) capability_blocks)) = true
  <-> forall c, requested args c = true -> met c = true.
Proof.
  rewrite forallb_forall. split.
  - intros H c Hc. apply (H (met c)). apply in_map.
    apply filter_In. split; [apply capability_blocks_complete | exact Hc].
  - intros H b Hb. apply in_map_iff in Hb as (c & <- & Hc).
    apply filter_In in Hc as [_ Hc]. apply H. exact Hc.
Qed.

Lemma read_req_list_same (w : World) (self self' : Searcher) (shader_info : IndexEntry) :
  same_loader w self self' ->
  read_req_list w self' shader_info = read_req_list w self shader_info.
Proof. intros (H & _). unfold read_req_list. rewrite H. reflexivity. Qed.

(** One pass of the loop body keeps the shader exactly when every requested
    capability is met. *)
Lemma filter_by_requires_step (args : SearchArgs) (w : World)
    (temp_matching : gset string) (self : Searcher) (shader_id : string) :
  any_requires args = true ->
  let r := filter_by_requires args w (temp_matching, self) shader_id in
  same_loader w self r.2
  /\ forall i, i ∈ r.1 <->
        i ∈ temp_matching
        \/ (i = shader_id
            /\ exists shader_info,
                 shader_index self !! shader_id = Some shader_info
                 /\ forall c, requested args c = true ->
                      requirement_met w self shader_id
                        (read_req_list w self shader_info) c = true).
Proof.
  intros Hany. unfold filter_by_requires.
  destruct (shader_index self !! shader_id) as [shader_info|] eqn:E.
  - destruct (check_requirement_loop args w shader_id
                (read_req_list w self shader_info) capability_blocks [] false self)
      as (L1 & L2 & L3).
    destruct (foldl (check_requirement args w shader_id (read_req_list w self shader_info))
                    ([], false, self) capability_blocks) as [[conds checked] self1].
    cbn [fst snd] in L1, L2, L3. cbn zeta.
    rewrite any_requires_blocks, Hany in L3. cbn in L3. subst checked.
    cbn [app] in L2. subst conds. cbn [andb negb].
    rewrite orb_false_r.
    destruct (forallb id _) eqn:Hall; cbn [fst snd].
    + split; [exact L1|]. intros i. rewrite elem_of_union, elem_of_singleton.
      pose proof (proj1 (conditions_all_met args
        (requirement_met w self shader_id (read_req_list w self shader_info))) Hall)
        as Hmet.
      split.
      * intros [->|H]; [right|left; exact H].
        split; [reflexivity|]. exists shader_info. split; [reflexivity | exact Hmet].
      * intros [H|[-> _]]; [right; exact H | left; reflexivity].
    + split; [exact L1|]. intros i. split; [intros H; left; exact H|].
      intros [H|[-> (info & [= <-] & Hmet)]]; [exact H|].
      pose proof (proj2 (conditions_all_met args
        (requirement_met w self shader_id (read_req_list w self shader_info))) Hmet)
        as Hall'.
      rewrite Hall' in Hall. discriminate Hall.
  - cbn zeta. cbn [fst snd]. split; [apply same_loader_refl|].
    intros i. split; [intros H; left; exact H|].
    intros [H|[_ (info & Hinfo & _)]]; [exact H | discriminate Hinfo].
Qed.

Lemma filter_by_requires_loop (args : SearchArgs) (w : World) (ids : list string) :
  any_requires args = true ->
  forall (temp_matching : gset string) (self : Searcher),
  let r := foldl (filter_by_requires args w) (temp_matching, self) ids in
  same_loader w self r.2
  /\ forall i, i ∈ r.1 <->
        i ∈ temp_matching
        \/ (i ∈ ids
            /\ exists shader_info,
                 shader_index self !! i = Some shader_info
                 /\ forall c, requested args c = true ->
                      requirement_met w self i (read_req_list w self shader_info) c = true).
Proof.
  intros Hany. induction ids as [|shader_id ids IH]; intros temp_matching self.
  - cbn. split; [apply same_loader_refl|]. intros i. split; [auto|].
    intros [H|[H _]]; [exact H | inversion H].
  - change (foldl (filter_by_requires args w) (temp_matching, self) (shader_id :: ids))
      with (foldl (filter_by_requires args w)
              (filter_by_requires args w (temp_matching, self) shader_id) ids).
    destruct (filter_by_requires_step args w temp_matching self shader_id Hany)
      as [S1 S2].
    destruct (filter_by_requires args w (temp_matching, self) shader_id)
      as [temp1 self1].
    cbn [fst snd] in S1, S2.
    destruct (IH temp1 self1) as [I1 I2]. cbn zeta.
    split; [exact (same_loader_trans _ _ _ _ S1 I1)|].
    assert (Hmet_eq : forall i info c,
              requirement_met w self1 i (read_req_list w self1 info) c
              = requirement_met w self i (read_req_list w self info) c).
    { intros i info c. rewrite (read_req_list_same w self self1 info S1).
      apply requirement_met_same. exact S1. }
    assert (Hix : shader_index self1 = shader_index self) by apply S1.
    intros i. rewrite I2, S2, Hix. split.
    + intros [[H|[-> H]]|[Hin (info & Hinfo & Hmet)]].
      * left; exact H.
      * right. split; [left | exact H].
      * right. split; [right; exact Hin|]. exists info. split; [exact Hinfo|].
        intros c Hc. rewrite <- Hmet_eq. exact (Hmet c Hc).
    + intros [H|[Hin (info & Hinfo & Hmet)]].
      * left; left; exact H.
      * apply elem_of_cons in Hin as [->|Hin].
        -- left; right. split; [reflexivity|]. exists info. split; assumption.
        -- right. split; [exact Hin|]. exists info. split; [exact Hinfo|].
           intros c Hc. rewrite Hmet_eq. exact (Hmet c Hc).
Qed.

Lemma requirement_met_true (w : World) (self : Searcher) (shader_id : string)
    (req_list : list string) (c : Capability) :
  requirement_met w self shader_id req_list c = true
  <-> shader_id ∈ requires_set w self (requires_file_of c)
      \/ json_requirement_of c ∈ req_list.
Proof.
  unfold requirement_met. rewrite orb_true_iff, !bool_decide_eq_true. reflexivity.
Qed.

(** *** The file a stored path opens *)

Lemma append_empty_r (s : string) : s ++ "" = s.
Proof.
  induction s as [|c s IH]; [reflexivity|].
  change (String c (s ++ "") = String c s). rewrite IH. reflexivity.
Qed.

Lemma append_assoc_string (a b c : string) : (a ++ b) ++ c = a ++ (b ++ c).
Proof.
  induction a as [|x a IH]; [reflexivity|].
  change (String x ((a ++ b) ++ c) = String x (a ++ (b ++ c))). rewrite IH. reflexivity.
Qed.













(** ** Search: the tags filter *)

Lemma prefix_contains (p s : string) :
  String.prefix p s = true -> contains p s = true.
Proof. intros H. destruct s; cbn [contains]; rewrite H; reflexivity. Qed.

Lemma collect_cached_tag_keeps (tag_lower shader_id tag : string)
    (items : list (string * gset string)) :
  forall all_tags : list string,
  tag ∈ all_tags ->
  tag ∈ foldl (collect_cached_tag tag_lower shader_id) all_tags items.
Proof.
  induction items as [|[t ids] items IH]; intros all_tags H; [exact H|].
  change (foldl (collect_cached_tag tag_lower shader_id) all_tags ((t, ids) :: items))
    with (foldl (collect_cached_tag tag_lower shader_id)
            (collect_cached_tag tag_lower shader_id all_tags (t, ids)) items).
  apply IH. unfold collect_cached_tag.
  destruct (bool_decide (shader_id ∈ ids) && startswith (lower t) tag_lower);
    [|exact H].
  destruct (bool_decide (t ∈ all_tags)); [exact H|].
  apply elem_of_app. left. exact H.
Qed.

Lemma collect_cached_tag_adds (tag_lower shader_id tag : string) (ids : gset string)
    (items : list (string * gset string)) :
  forall all_tags : list string,
  (tag, ids) ∈ items -> shader_id ∈ ids -> startswith (lower tag) tag_lower = true ->
  tag ∈ foldl (collect_cached_tag tag_lower shader_id) all_tags items.
Proof.
  induction items as [|[t ids'] items IH]; intros all_tags Hin Hid Hpre.
  - inversion Hin.
  - change (foldl (collect_cached_tag tag_lower shader_id) all_tags ((t, ids') :: items))
      with (foldl (collect_cached_tag tag_lower shader_id)
              (collect_cached_tag tag_lower shader_id all_tags (t, ids')) items).
    apply elem_of_cons in Hin as [[= <- <-]|Hin].
    + apply collect_cached_tag_keeps. unfold collect_cached_tag.
      rewrite bool_decide_eq_true_2 by exact Hid. rewrite Hpre. cbn [andb].
      destruct (bool_decide (tag ∈ all_tags)) eqn:E.
      * apply bool_decide_eq_true_1 in E. exact E.
      * apply elem_of_app. right. left.
    + apply IH; assumption.
Qed.

Lemma tags_match_cached (tags_of : gmap string (gset string))
    (tag_lower shader_id tag : string) (ids : gset string) (data : IndexEntry) :
  tags_of !! tag = Some ids -> shader_id ∈ ids ->
  startswith (lower tag) tag_lower = true ->
  tags_match tags_of tag_lower shader_id data = true.
Proof.
  intros Htag Hid Hpre. unfold tags_match.
  apply existsb_exists. exists tag. split.
  - apply list_elem_of_In.
    apply (collect_cached_tag_adds tag_lower shader_id tag ids); try assumption.
    apply elem_of_map_to_list. exact Htag.
  - apply prefix_contains. exact Hpre.
Qed.

(** C8, as stated, fails: with [force_rebuild] the tag mapping is not
    loaded, and a new searcher object, whose [tag_cache] is empty, does not
    find the shader that the tag file [procedural] lists. *)
Lemma rebuild_search_misses_tag_file :
  search_results procedural_archive
  = Some {[ "procedural" := RegularFile (Lines ["XsBSRd" ++ newline]) ]}
  /\ json_files procedural_world !! "XsBSRd.json" = Some procedural_doc
  /\ startswith (lower "procedural") (lower "proc") = true
  /\ (search (tags_only "proc" true) procedural_world (new_searcher "json")).1.1
     = Some [].
Proof. repeat split; vm_compute; reflexivity. Qed.

(** C8, amended: a search that does not ask for a rebuild loads the shader
    index and the tag mapping ([build_tag_mappings]: the [tag_cache] slot of
    the cache file when it has one, the tag files otherwise), and a tags
    filter that is a case-insensitive prefix of a tag of that mapping finds
    every indexed shader the tag lists, whatever the shader's own tags; a
    search that asks for a rebuild keeps the [tag_cache] the searcher object
    had. *)
Theorem tags_filter_uses_tag_mapping (w : World) (self : Searcher)
    (t tag shader_id : string) (ids : gset string) :
  let st := search_load (tags_only t false) w self in
  t <> "" ->
  (build_tag_mappings w self).1.1 !! tag = Some ids ->
  shader_id ∈ ids ->
  startswith (lower tag) (lower t) = true ->
  is_Some ((load_all_json_metadata w self false).1 !! shader_id) ->
  shader_index st.2 = (load_all_json_metadata w self false).1
  /\ tag_cache st.2 = (build_tag_mappings w self).1.1
  /\ (build_tag_mappings w self).1.1
     = match cached_tag_cache w with
       | Some tc => tc
       | None => scan_tag_files w
       end
  /\ tag_cache (search_load (tags_only t true) w self).2 = tag_cache self
  /\ exists results,
       (search (tags_only t false) w self).1.1 = Some results
       /\ shader_id ∈ r_id <$> results.
Proof.
  intros st Ht Htag Hid Hpre [data Hdata].
  assert (Hix : shader_index st.2 = (load_all_json_metadata w self false).1)
    by apply (search_load_index (tags_only t false) w self).
  assert (Htc : tag_cache st.2 = (build_tag_mappings w self).1.1)
    by apply (search_load_tag_cache (tags_only t false) w self).
  split; [exact Hix|]. split; [exact Htc|].
  split; [apply build_tag_mappings_source|].
  split; [apply (search_load_tag_cache (tags_only t true) w self)|].
  rewrite search_unfold. cbn zeta. fold st.
  rewrite requires_filters_off by reflexivity. cbn [fst snd].
  destruct (prepare_results_spec (shader_index st.2)
              (elements (text_filters (tags_only t false) st.2)))
    as (results & Hres & Hids & _).
  { intros i Hi. apply elem_of_elements in Hi.
    exact (text_filters_in_index _ _ _ Hi). }
  exists results. split; [exact Hres|].
  rewrite Hids. apply elem_of_elements.
  unfold text_filters, apply_text_filter. cbn [arg_tags arg_name arg_author
    arg_description tags_only truthy].
  destruct (String.eqb_spec t "") as [->|_]; [congruence|].
  apply elem_of_intersection. split.
  - apply elem_of_dom. rewrite Hix, Hdata. eexists; reflexivity.
  - apply elem_of_select_ids. exists data. split; [rewrite Hix; exact Hdata|].
    rewrite Htc. exact (tags_match_cached _ _ _ _ _ _ Htag Hid Hpre).
Qed.

Lemma tags_filter_uses_tag_mapping_witness :
  exists results,
    (search (tags_only "proc" false) procedural_world (new_searcher "json")).1.1
    = Some results
    /\ "XsBSRd" ∈ r_id <$> results.
Proof.
  refine (proj2 (proj2 (proj2 (proj2
    (tags_filter_uses_tag_mapping procedural_world (new_searcher "json")
       "proc" "procedural" "XsBSRd" {[ "XsBSRd" ]} _ _ _ _ _))))).
  - discriminate.
  - vm_compute. reflexivity.
  - apply elem_of_singleton. reflexivity.
  - vm_compute. reflexivity.
  - vm_compute. eexists. reflexivity.
Defined.


(** ** The model at work on the sample inputs *)

Example search_sound_by_jon :
  (list_to_set (r_id <$> default []
      (search sound_by_jon sound_world (new_searcher "json")).1.1) : gset string)
  = {[ "A"; "D" ]}.
Proof. vm_compute. reflexivity. Qed.

(** A searcher that spells the directory otherwise gets the same answer
    from the cached index: the stored paths are opened as they are. *)
Example search_other_spelling :
  let w1 := (search sound_only sound_world (new_searcher "json")).1.2 in
  (list_to_set (r_id <$> default []
      (search sound_only w1 (new_searcher "./json")).1.1) : gset string)
  = {[ "A"; "C"; "D" ]}
  /\ (list_to_set (r_id <$> default []
        (search sound_only w1 (new_searcher "json")).1.1) : gset string)
    = {[ "A"; "C"; "D" ]}.
Proof. vm_compute. split; reflexivity. Qed.

Example glob_dirname_ex :
  glob_dirname "json" = "json" /\ glob_dirname "json//" = "json"
  /\ glob_dirname "/" = "/" /\ glob_dirname "" = ""
  /\ glob_path "json/" "a.json" = "json/a.json"
  /\ glob_path "./json" "a.json" = "./json/a.json"
  /\ glob_path "" "a.json" = "a.json".
Proof. vm_compute. repeat split; reflexivity. Qed.

(** A directory name read as a pattern: [json*], [js?n] and [a[] match
    themselves, [j[s]on] and [[!a]z] do not, [[!a]*] does. *)
Example matches_itself_ex :
  matches_itself "json*" = true /\ matches_itself "js?n" = true
  /\ matches_itself "a[" = true /\ matches_itself "j[s]on" = false
  /\ matches_itself "[!a]z" = false /\ matches_itself "[!a]*" = true
  /\ matches_itself "sub/j[s]on" = false /\ fnmatch "json" "j[s]on" = true.
Proof. vm_compute. repeat split; reflexivity. Qed.

Example glob_json_pattern_dir :
  glob_json "j[s]on" (json_files sound_world) = []
  /\ build_index "j[s]on" (json_files sound_world) = ∅
  /\ length (glob_json "json" (json_files sound_world)) = 4.
Proof. vm_compute. repeat split; reflexivity. Qed.

Example mutator_two_runs :
  let run1 := add_requires_info_to_jsons unsettled_world (new_searcher "json") in
  let run2 := add_requires_info_to_jsons run1.1.2 (new_searcher "json") in
  run1.1.1 = (0, 1)
  /\ requires_of_file <$> json_files run1.1.2 !! "S.json"
     = Some (Some ["soundbuf"; "imagebuf"])
  /\ run2.1.1 = (0, 0)
  /\ json_files run2.1.2 = json_files run1.1.2.
Proof. vm_compute. repeat split; reflexivity. Qed.

Example search_by_name :
  let w := mkWorld CacheAbsent
             {[ "g.json" := Parsed (mkDoc (Some (mkInfo None (Some "Glow Sphere")
                                                        None None None None)) None);
                "f.json" := Parsed (mkDoc (Some (mkInfo None (Some "Flat Color")
                                                        None None None None)) None) ]}
             [] in
  r_name <$> default []
    (search (mkArgs None (Some "glow") None None
                    false false false false false false false false
                    false false false false false false false false false)
            w (new_searcher "json")).1.1
  = ["Glow Sphere"].
Proof. vm_compute. reflexivity. Qed.

(** * Further properties of [search.py] *)

(** ** What [search] returns *)

Lemma requires_filters_shape (args : SearchArgs) (w : World) (self : Searcher)
    (matching_shaders : gset string) :
  let rf := requires_filters args w self matching_shaders in
  same_loader w self rf.2 /\ rf.1 ⊆ matching_shaders.
Proof.
  unfold requires_filters. destruct (any_requires args) eqn:Hany; cbn zeta.
  - destruct (filter_by_requires_loop args w (elements matching_shaders) Hany ∅ self)
      as [Hsame Hmem].
    split; [exact Hsame|]. intros i Hi. apply Hmem in Hi.
    destruct Hi as [Hi|[Hi _]]; [set_solver|]. apply elem_of_elements in Hi. exact Hi.
  - split; [apply same_loader_refl | reflexivity].
Qed.

Lemma search_results_shape (args : SearchArgs) (w : World) (self : Searcher) :
  let st := search_load args w self in
  let rf := requires_filters args st.1 st.2 (text_filters args st.2) in
  exists results,
    (search args w self).1.1 = Some results
    /\ r_id <$> results = elements rf.1
    /\ (forall r, r ∈ results ->
          exists data, shader_index st.2 !! r_id r = Some data
                       /\ r = result_of (r_id r) data).
Proof.
  intros st rf. rewrite search_unfold. cbn zeta. fold st. fold rf. cbn [fst snd].
  destruct (requires_filters_shape args st.1 st.2 (text_filters args st.2))
    as [Hsame Hsub]. fold rf in Hsame, Hsub.
  assert (Hix : shader_index rf.2 = shader_index st.2) by apply Hsame.
  rewrite Hix.
  apply prepare_results_spec. intros i Hi.
  apply elem_of_elements, Hsub in Hi. exact (text_filters_in_index _ _ _ Hi).
Qed.

Lemma search_returns_index_records_aux (args : SearchArgs) (w : World)
    (self : Searcher) :
  exists results, (search args w self).1.1 = Some results.
Proof.
  destruct (search_results_shape args w self) as (results & Hres & _).
  exists results. exact Hres.
Qed.

(** X1: [search] raises no [KeyError]: for every file system, searcher
    object and arguments it returns a list, without two records of the same
    id, and every record carries the fields of the index entry of its id. *)
Theorem search_returns_index_records (args : SearchArgs) (w : World) (self : Searcher) :
  exists results,
    (search args w self).1.1 = Some results
    /\ NoDup (r_id <$> results)
    /\ (forall r, r ∈ results ->
          exists data,
            (load_all_json_metadata w self (force_rebuild args)).1 !! r_id r = Some data
            /\ r = result_of (r_id r) data).
Proof.
  destruct (search_results_shape args w self) as (results & Hres & Hids & Hrec).
  exists results. split; [exact Hres|]. split.
  - rewrite Hids. apply NoDup_elements.
  - intros r Hr. destruct (Hrec r Hr) as (data & Hdata & Heq).
    exists data. split; [|exact Heq].
    rewrite <- (proj1 (search_load_index args w self)). exact Hdata.
Qed.

(** ** The text filters *)

Lemma elem_of_apply_text_filter (arg : option string)
    (keep : string -> string -> IndexEntry -> bool)
    (index : gmap string IndexEntry) (matching_shaders : gset string)
    (shader_id : string) (data : IndexEntry) :
  index !! shader_id = Some data ->
  shader_id ∈ apply_text_filter arg keep index matching_shaders
  <-> shader_id ∈ matching_shaders /\ passes_filter arg keep shader_id data.
Proof.
  intros Hdata. unfold apply_text_filter, passes_filter.
  destruct (truthy arg) as [s|]; [|tauto].
  rewrite elem_of_intersection, elem_of_select_ids. split.
  - intros [Hm (d & Hd & Hk)]. rewrite Hdata in Hd. injection Hd as <-. tauto.
  - intros [Hm Hk]. split; [exact Hm|]. exists data. tauto.
Qed.

Lemma elem_of_text_filters (args : SearchArgs) (self : Searcher) (shader_id : string) :
  shader_id ∈ text_filters args self
  <-> exists data,
        shader_index self !! shader_id = Some data
        /\ passes_text_filters args (tag_cache self) shader_id data.
Proof.
  split.
  - intros H. destruct (text_filters_in_index _ _ _ H) as [data Hdata].
    exists data. split; [exact Hdata|].
    unfold text_filters in H.
    rewrite !(elem_of_apply_text_filter _ _ _ _ _ data Hdata) in H.
    unfold passes_text_filters. tauto.
  - intros (data & Hdata & Hp). unfold text_filters.
    rewrite !(elem_of_apply_text_filter _ _ _ _ _ data Hdata).
    unfold passes_text_filters in Hp.
    assert (shader_id ∈ (dom (shader_index self) : gset string))
      by (apply elem_of_dom; eexists; exact Hdata).
    tauto.
Qed.

(** X2: every record [search] returns passes each text filter that was
    supplied (the lower-cased argument occurs in the lower-cased name,
    author or description, and the tags filter holds); when no capability
    flag is set the returned ids are exactly the ids of the index records
    that pass them all. *)
Theorem text_filters_conjunctive (args : SearchArgs) (w : World) (self : Searcher) :
  let st := search_load args w self in
  exists results,
    (search args w self).1.1 = Some results
    /\ (forall r, r ∈ results ->
          exists data,
            shader_index st.2 !! r_id r = Some data
            /\ passes_text_filters args (tag_cache st.2) (r_id r) data)
    /\ (any_requires args = false ->
        forall shader_id data,
          shader_index st.2 !! shader_id = Some data ->
          passes_text_filters args (tag_cache st.2) shader_id data ->
          shader_id ∈ r_id <$> results).
Proof.
  intros st.
  destruct (search_results_shape args w self) as (results & Hres & Hids & Hrec).
  fold st in Hids, Hrec.
  destruct (requires_filters_shape args st.1 st.2 (text_filters args st.2))
    as [_ Hsub].
  exists results. split; [exact Hres|]. split.
  - intros r Hr.
    assert (Hin : r_id r ∈ text_filters args st.2).
    { apply Hsub. apply elem_of_elements. rewrite <- Hids.
      apply list_elem_of_fmap. exists r. split; [reflexivity | exact Hr]. }
    apply elem_of_text_filters in Hin. exact Hin.
  - intros Hany shader_id data Hdata Hp.
    rewrite Hids, elem_of_elements, requires_filters_off by exact Hany.
    apply elem_of_text_filters. exists data. split; assumption.
Qed.

Lemma text_filters_conjunctive_witness :
  exists results,
    (search (mkArgs None (Some "glow") (Some "JON") None
                    false false false false false false false false
                    false false false false false false false false false)
            procedural_world (new_searcher "json")).1.1 = Some results
    /\ "XsBSRd" ∈ r_id <$> results.
Proof.
  destruct (text_filters_conjunctive
              (mkArgs None (Some "glow") (Some "JON") None
                      false false false false false false false false
                      false false false false false false false false false)
              procedural_world (new_searcher "json"))
    as (results & Hres & _ & Hall).
  exists results. split; [exact Hres|].
  apply (Hall eq_refl "XsBSRd"
              (mkEntry "json/XsBSRd.json" "Glow Sphere" "jon" "" [])).
  - vm_compute. reflexivity.
  - vm_compute. repeat split; reflexivity.
Defined.

(** ** The tags filter *)

Lemma collect_cached_tag_loop (tag_lower shader_id tag : string)
    (items : list (string * gset string)) :
  forall all_tags : list string,
  tag ∈ foldl (collect_cached_tag tag_lower shader_id) all_tags items
  <-> tag ∈ all_tags
      \/ exists ids, (tag, ids) ∈ items /\ shader_id ∈ ids
                     /\ startswith (lower tag) tag_lower = true.
Proof.
  induction items as [|[t ids'] items IH]; intros all_tags.
  - cbn. split; [auto|]. intros [H|(ids & H & _)]; [exact H | inversion H].
  - change (foldl (collect_cached_tag tag_lower shader_id) all_tags ((t, ids') :: items))
      with (foldl (collect_cached_tag tag_lower shader_id)
              (collect_cached_tag tag_lower shader_id all_tags (t, ids')) items).
    rewrite IH. unfold collect_cached_tag.
    destruct (bool_decide (shader_id ∈ ids')) eqn:Hb; cbn [andb].
    + apply bool_decide_eq_true_1 in Hb.
      destruct (startswith (lower t) tag_lower) eqn:Hs.
      * destruct (bool_decide (t ∈ all_tags)) eqn:Ht.
        -- apply bool_decide_eq_true_1 in Ht. split.
           ++ intros [H|(ids & H & Hr)]; [left; exact H|].
              right. exists ids. split; [right; exact H | exact Hr].
           ++ intros [H|(ids & H & Hr)]; [left; exact H|].
              apply elem_of_cons in H as [[= -> ->]|H]; [left; exact Ht|].
              right. exists ids. split; [exact H | exact Hr].
        -- rewrite elem_of_app, list_elem_of_singleton. split.
           ++ intros [[H| ->]|(ids & H & Hr)].
              ** left; exact H.
              ** right. exists ids'. split; [left|]. split; assumption.
              ** right. exists ids. split; [right; exact H | exact Hr].
           ++ intros [H|(ids & H & Hr)]; [left; left; exact H|].
              apply elem_of_cons in H as [[= -> ->]|H]; [left; right; reflexivity|].
              right. exists ids. split; [exact H | exact Hr].
      * split.
        -- intros [H|(ids & H & Hr)]; [left; exact H|].
           right. exists ids. split; [right; exact H | exact Hr].
        -- intros [H|(ids & H & Hi & Hr)]; [left; exact H|].
           apply elem_of_cons in H as [[= -> ->]|H]; [congruence|].
           right. exists ids. repeat split; assumption.
    + apply bool_decide_eq_false_1 in Hb. split.
      * intros [H|(ids & H & Hr)]; [left; exact H|].
        right. exists ids. split; [right; exact H | exact Hr].
      * intros [H|(ids & H & Hi & Hr)]; [left; exact H|].
        apply elem_of_cons in H as [[= -> ->]|H]; [contradiction|].
        right. exists ids. repeat split; assumption.
Qed.

(** X3: the tags filter accepts a shader exactly when the lower-cased
    argument occurs in one of the shader's own tags (lower-cased), or is a
    prefix of the lower-cased name of a tag that the tag mapping gives the
    shader: tags of the mapping match by prefix only, own tags anywhere. *)
Theorem tags_match_iff (tags_of : gmap string (gset string))
    (tag_lower shader_id : string) (data : IndexEntry) :
  tags_match tags_of tag_lower shader_id data = true
  <-> (exists t, t ∈ e_tags data /\ contains tag_lower (lower t) = true)
      \/ (exists t ids, tags_of !! t = Some ids /\ shader_id ∈ ids
                        /\ startswith (lower t) tag_lower = true).
Proof.
  unfold tags_match. rewrite existsb_exists. split.
  - intros (t & Hin & Hc). apply list_elem_of_In, collect_cached_tag_loop in Hin.
    destruct Hin as [Hin|(ids & Hin & Hid & Hs)].
    + left. exists t. split; assumption.
    + right. exists t, ids. apply elem_of_map_to_list in Hin. repeat split; assumption.
  - intros [(t & Hin & Hc)|(t & ids & Hl & Hid & Hs)].
    + exists t. split; [|exact Hc]. apply list_elem_of_In, collect_cached_tag_loop.
      left. exact Hin.
    + exists t. split; [|apply prefix_contains; exact Hs].
      apply list_elem_of_In, collect_cached_tag_loop. right. exists ids.
      split; [apply elem_of_map_to_list; exact Hl|]. split; assumption.
Qed.

(** ** What [search] does to the file system *)

Lemma search_world (args : SearchArgs) (w : World) (self : Searcher) :
  (search args w self).1.2 = (search_load args w self).1.
Proof. rewrite search_unfold. reflexivity. Qed.

Lemma load_index_cache_file (w : World) (self : Searcher) :
  cache_file (load_all_json_metadata w self false).2
  = CacheStored (mkCache (cached_tag_cache w)
                         (Some (load_all_json_metadata w self false).1)).
Proof.
  unfold load_all_json_metadata, initial_cache_data, cached_tag_cache.
  destruct (cache_file w) as [| |[t [ix|]]] eqn:E;
    cbn [cd_shader_index cd_tag_cache fst snd cache_file set_cache_file];
    rewrite ?E; reflexivity.
Qed.

Lemma build_tag_mappings_cache_file (w : World) (self : Searcher)
    (t : option (gmap string (gset string))) (ix : gmap string IndexEntry) :
  cache_file w = CacheStored (mkCache t (Some ix)) ->
  cache_file (build_tag_mappings w self).1.2
  = CacheStored (mkCache (Some (build_tag_mappings w self).1.1) (Some ix)).
Proof.
  intros E. unfold build_tag_mappings, cached_tag_cache, save_tag_cache.
  rewrite E. destruct t as [tc|];
    cbn [cd_shader_index cd_tag_cache fst snd cache_file set_cache_file];
    rewrite ?E; reflexivity.
Qed.

Lemma search_load_cache_file (args : SearchArgs) (w : World) (self : Searcher) :
  let st := search_load args w self in
  cache_file st.1
  = CacheStored (mkCache (if force_rebuild args then None else Some (tag_cache st.2))
                         (Some (shader_index st.2))).
Proof.
  destruct (force_rebuild args) eqn:Hf.
  - rewrite (search_load_forced _ _ _ Hf). reflexivity.
  - rewrite (search_load_cached _ _ _ Hf). cbn zeta. cbn [fst snd].
    rewrite (build_tag_mappings_cache_file _ _ _ _ (load_index_cache_file w self)).
    rewrite build_tag_mappings_self. reflexivity.
Qed.

(** X4: [search] never writes to the corpus or to the shader archives; the
    one file it may write is the cache file, which afterwards holds the index
    the call used and, unless a rebuild was asked for, the tag mapping it
    used (after a rebuild it holds no tag mapping), whatever the cache file
    was before: absent, unreadable or complete. *)
Theorem search_writes_cache_only (args : SearchArgs) (w : World) (self : Searcher) :
  let st := search_load args w self in
  json_files (search args w self).1.2 = json_files w
  /\ archives (search args w self).1.2 = archives w
  /\ cache_file (search args w self).1.2
     = CacheStored (mkCache (if force_rebuild args then None else Some (tag_cache st.2))
                            (Some (shader_index st.2))).
Proof.
  intros st. rewrite search_world.
  destruct (search_load_index args w self) as (_ & _ & _ & Hj & Ha).
  split; [exact Hj|]. split; [exact Ha|]. apply search_load_cache_file.
Qed.

Lemma text_filters_ext (args : SearchArgs) (s1 s2 : Searcher) :
  shader_index s1 = shader_index s2 -> tag_cache s1 = tag_cache s2 ->
  text_filters args s1 = text_filters args s2.
Proof. intros H1 H2. unfold text_filters. rewrite H1, H2. reflexivity. Qed.

Lemma search_text_only (args : SearchArgs) (w : World) (self : Searcher) :
  any_requires args = false ->
  (search args w self).1.1
  = prepare_results (shader_index (search_load args w self).2)
                    (elements (text_filters args (search_load args w self).2)).
Proof.
  intros Hany. rewrite search_unfold. cbn zeta.
  rewrite requires_filters_off by exact Hany. reflexivity.
Qed.

Lemma search_load_from_cache (args : SearchArgs) (w : World) (self : Searcher)
    (tc : gmap string (gset string)) (ix : gmap string IndexEntry) :
  force_rebuild args = false ->
  cache_file w = CacheStored (mkCache (Some tc) (Some ix)) ->
  shader_index (search_load args w self).2 = ix
  /\ tag_cache (search_load args w self).2 = tc.
Proof.
  intros Hf Hc. split.
  - rewrite (proj1 (search_load_index args w self)), Hf.
    unfold load_all_json_metadata, initial_cache_data. rewrite Hc. reflexivity.
  - rewrite search_load_tag_cache, Hf.
    unfold build_tag_mappings, cached_tag_cache. rewrite Hc. reflexivity.
Qed.

(** X5: once a search without rebuild has run, a later search without
    rebuild and without capability flags is answered from the cache file
    alone: whatever the corpus and the tag files hold by then, and whichever
    searcher object asks, the result is the same. *)
Theorem text_search_answered_from_cache (args0 args : SearchArgs) (w : World)
    (self0 self self' : Searcher) (corpus' : gmap string JsonFile)
    (archs' : list Archive) :
  force_rebuild args0 = false ->
  force_rebuild args = false ->
  any_requires args = false ->
  let w1 := (search args0 w self0).1.2 in
  (search args (set_archives (set_json_files w1 corpus') archs') self').1.1
  = (search args w1 self).1.1.
Proof.
  intros Hf0 Hf Hany w1.
  assert (Hc : cache_file w1
               = CacheStored (mkCache (Some (tag_cache (search_load args0 w self0).2))
                                      (Some (shader_index (search_load args0 w self0).2)))).
  { subst w1. rewrite search_world, search_load_cache_file, Hf0. reflexivity. }
  rewrite !search_text_only by exact Hany.
  destruct (search_load_from_cache args w1 self _ _ Hf Hc) as [Hi1 Ht1].
  destruct (search_load_from_cache args
              (set_archives (set_json_files w1 corpus') archs') self' _ _ Hf Hc)
    as [Hi2 Ht2].
  rewrite (text_filters_ext args _ _ (eq_trans Hi2 (eq_sym Hi1))
             (eq_trans Ht2 (eq_sym Ht1))).
  rewrite Hi1, Hi2. reflexivity.
Qed.

Lemma text_search_answered_from_cache_witness :
  (search (tags_only "proc" false)
          (set_archives (set_json_files
             (search (no_predicates false) procedural_world (new_searcher "json")).1.2
             ∅) [])
          (new_searcher "json")).1.1
  = (search (tags_only "proc" false)
            (search (no_predicates false) procedural_world (new_searcher "json")).1.2
            (new_searcher "json")).1.1.
Proof.
  exact (text_search_answered_from_cache (no_predicates false) (tags_only "proc" false)
           procedural_world (new_searcher "json") (new_searcher "json")
           (new_searcher "json") ∅ [] eq_refl eq_refl eq_refl).
Defined.

(** ** The index builder *)

(** X6: for a [json_dir] that holds none of the characters [glob] reads as
    a pattern ([*], [?], [[]), the ids of a rebuilt index are exactly the
    ids computed for the files of the corpus directory whose name ends in
    [.json] and does not start with a dot and whose content parses to an
    object with an [info] section; files that do not parse, parse to
    something else or lack [info] contribute nothing. *)
Theorem build_index_ids (dir : string) (files : gmap string JsonFile)
    (shader_id : string) :
  has_magic dir = false ->
  is_Some (build_index dir files !! shader_id)
  <-> exists name data info,
        files !! name = Some (Parsed data) /\ doc_info data = Some info
        /\ endswith name ".json" = true /\ startswith name "." = false
        /\ shader_id = indexed_id dir name info.
Proof.
  intros Hd. split.
  - intros [e He].
    apply build_index_sound in He as (name & data & info & Hg & Hf & Hi & Hid & _).
    apply glob_json_names in Hg as (_ & He1 & He2).
    exists name, data, info. repeat split; assumption.
  - intros (name & data & info & Hf & Hi & He1 & He2 & ->).
    apply (build_index_complete dir files name data info); [|exact Hf|exact Hi].
    apply (elem_of_glob_json dir files name Hd).
    split; [eexists; exact Hf|]. split; assumption.
Qed.

Lemma build_index_ids_witness :
  is_Some (build_index "json" (json_files sound_world) !! "A")
  <-> exists name data info,
        json_files sound_world !! name = Some (Parsed data)
        /\ doc_info data = Some info
        /\ endswith name ".json" = true /\ startswith name "." = false
        /\ "A" = indexed_id "json" name info.
Proof.
  exact (build_index_ids "json" (json_files sound_world) "A" eq_refl).
Defined.

Lemma prefix_append (d x : string) : String.prefix d (d ++ x) = true.
Proof.
  induction d as [|c d IH]; [destruct x; reflexivity|].
  change (String.prefix (String c d) (String c (d ++ x)) = true).
  cbn [String.prefix]. destruct (Ascii.ascii_dec c c) as [_|Hne]; [exact IH | congruence].
Qed.

Lemma drop_chars_append (d x : string) : drop_chars (String.length d) (d ++ x) = x.
Proof.
  induction d as [|c d IH]; [reflexivity|].
  change (drop_chars (S (String.length d)) (String c (d ++ x)) = x). exact IH.
Qed.

Lemma name_in_dir_join (dir name : string) :
  name_in_dir dir (glob_path dir name) = Some name.
Proof.
  unfold name_in_dir, glob_path. generalize (glob_dirname dir). intros g.
  unfold path_join.
  destruct (String.eqb g "") eqn:E.
  - cbn. destruct name; reflexivity.
  - destruct (endswith g "/").
    + rewrite append_empty_r, prefix_append, drop_chars_append. reflexivity.
    + rewrite append_empty_r.
      rewrite <- (append_assoc_string g "/" name).
      rewrite prefix_append, drop_chars_append. reflexivity.
Qed.

(** A path [glob] returned for a file of the corpus opens that file. *)
Lemma open_json_glob_path (w : World) (dir name : string) (f : JsonFile) :
  json_files w !! name = Some f -> open_json w dir (glob_path dir name) = Some f.
Proof.
  intros Hf. unfold open_json. rewrite name_in_dir_join, Hf. reflexivity.
Qed.

(** X7: the file path stored in a record of a rebuilt index leads back to
    the document the record was built from: opening it gives a document of
    the corpus with an [info] section from which the record's id, name,
    author, description and tags were taken, so the [requires] list a
    capability search reads for the record is the one of that document. *)
Theorem index_filepath_resolves (w : World) (self : Searcher)
    (shader_id : string) (e : IndexEntry) :
  build_index (json_dir self) (json_files w) !! shader_id = Some e ->
  exists name data info,
    json_files w !! name = Some (Parsed data)
    /\ doc_info data = Some info
    /\ open_json w (json_dir self) (e_filepath e) = Some (Parsed data)
    /\ shader_id = indexed_id (json_dir self) name info
    /\ e = indexed_entry (json_dir self) name info
    /\ read_req_list w self e = py_get (info_requires info) [].
Proof.
  intros He.
  apply build_index_sound in He as (name & data & info & _ & Hf & Hi & Hid & ->).
  exists name, data, info.
  assert (Ho : open_json w (json_dir self)
                 (e_filepath (indexed_entry (json_dir self) name info))
               = Some (Parsed data)).
  { cbn [e_filepath indexed_entry]. apply open_json_glob_path. exact Hf. }
  repeat split; try assumption.
  unfold read_req_list. rewrite Ho, Hi. reflexivity.
Qed.

Lemma index_filepath_resolves_witness :
  exists name data info,
    json_files sound_world !! name = Some (Parsed data)
    /\ doc_info data = Some info
    /\ open_json sound_world "json" "json/A.json" = Some (Parsed data)
    /\ "A" = indexed_id "json" name info
    /\ mkEntry "json/A.json" "" "jon" "" [] = indexed_entry "json" name info
    /\ read_req_list sound_world (new_searcher "json")
         (mkEntry "json/A.json" "" "jon" "" [])
       = py_get (info_requires info) [].
Proof.
  refine (index_filepath_resolves sound_world (new_searcher "json") "A"
            (mkEntry "json/A.json" "" "jon" "" []) _).
  vm_compute. reflexivity.
Defined.

(** ** The tag mapping *)

Lemma fold_tag_file_none (tag : string) (archs : list Archive)
    (found : option (gset string)) :
  Forall (fun b => tag_file_ids b tag = None) archs ->
  foldl (fun found a =>
           match tag_file_ids a tag with Some ids => Some ids | None => found end)
        found archs = found.
Proof.
  induction 1 as [|a archs Ha _ IH]; [reflexivity|].
  cbn [foldl]. rewrite Ha. exact IH.
Qed.

(** X8: the tag mapping scanned from the archives gives a tag the ids of
    the last archive, in the order of [shader_dirs], that has a readable
    file of that name, and nothing of the earlier archives: the set is
    replaced, not united; a tag no archive has a readable file for is not
    in the mapping. *)
Theorem tag_file_last_archive_wins (w : World) (tag : string) :
  (forall front a back ids,
     archives w = (front ++ a :: back)%list ->
     tag_file_ids a tag = Some ids ->
     Forall (fun b => tag_file_ids b tag = None) back ->
     scan_tag_files w !! tag = Some ids)
  /\ (Forall (fun b => tag_file_ids b tag = None) (archives w) ->
      scan_tag_files w !! tag = None).
Proof.
  split.
  - intros front a back ids Ha Hids Hback.
    rewrite scan_tag_files_lookup, Ha, foldl_app. cbn [foldl]. rewrite Hids.
    apply fold_tag_file_none. exact Hback.
  - intros Hall. rewrite scan_tag_files_lookup. apply fold_tag_file_none. exact Hall.
Qed.

Lemma tag_file_last_archive_wins_witness :
  scan_tag_files three_archives_world !! "procedural" = Some {[ "XsBSRd" ]}.
Proof.
  refine (proj1 (tag_file_last_archive_wins three_archives_world "procedural")
            [mkArchive (Some {[ "procedural" := RegularFile (Lines ["A"; "B"]) ]}) ∅]
            procedural_archive
            [mkArchive (Some {[ "procedural" := RegularFile Unreadable ]}) ∅]
            {[ "XsBSRd" ]} eq_refl _ _).
  - vm_compute. reflexivity.
  - repeat constructor.
Defined.

(** X9: once [build_tag_mappings] has run on a cache file that is absent
    or readable, the mapping it returned (the stored one when the cache file
    has a [tag_cache], the one scanned from the tag files otherwise) is in
    the [tag_cache] slot of the cache file, and every later call returns it
    without looking at the tag files, whatever they hold by then; on an
    unreadable cache file the scanned mapping is returned and nothing is
    written, so the next call scans again. *)
Theorem tag_cache_round_trip (w : World) (self self' : Searcher)
    (archs' : list Archive) :
  (cache_file w <> CacheCorrupt ->
   let b := build_tag_mappings w self in
   b.1.1 = match cached_tag_cache w with
           | Some tag_mappings => tag_mappings
           | None => scan_tag_files w
           end
   /\ cached_tag_cache b.1.2 = Some b.1.1
   /\ build_tag_mappings (set_archives b.1.2 archs') self'
      = (b.1.1, set_archives b.1.2 archs', set_tag_cache self' b.1.1))
  /\ (cache_file w = CacheCorrupt ->
      build_tag_mappings w self
      = (scan_tag_files w, w, set_tag_cache self (scan_tag_files w))).
Proof.
  split.
  - intros Hc. unfold build_tag_mappings, cached_tag_cache, save_tag_cache.
    destruct (cache_file w) as [| |[[tc|] ix]] eqn:E; [|congruence| |];
      cbn [cd_tag_cache fst snd cache_file set_cache_file set_archives];
      rewrite ?E; cbn [cd_tag_cache]; repeat split; reflexivity.
  - intros Hc. unfold build_tag_mappings, cached_tag_cache, save_tag_cache.
    rewrite Hc. reflexivity.
Qed.

Lemma tag_cache_round_trip_witness :
  let b := build_tag_mappings procedural_world (new_searcher "json") in
  b.1.1 = match cached_tag_cache procedural_world with
          | Some tag_mappings => tag_mappings
          | None => scan_tag_files procedural_world
          end
  /\ cached_tag_cache b.1.2 = Some b.1.1
  /\ build_tag_mappings (set_archives b.1.2 []) (new_searcher "json")
     = (b.1.1, set_archives b.1.2 [], set_tag_cache (new_searcher "json") b.1.1).
Proof.
  refine (proj1 (tag_cache_round_trip procedural_world (new_searcher "json")
                   (new_searcher "json") []) _).
  discriminate.
Defined.

(** ** The requires files *)

(** X11: for a searcher object that has not loaded the capability yet,
    [load_requires_file] answers with exactly the ids that some readable
    [requires_<capability>.txt] of an archive lists: one per line that is
    neither blank nor starts with [---], stripped, and cut down to what
    follows its last [/]; missing and unreadable files contribute nothing. *)
Theorem requires_file_ids (w : World) (dir req_type shader_id : string) :
  shader_id ∈ (load_requires_file w (new_searcher dir) req_type).1
  <-> exists a ls line,
        a ∈ archives w
        /\ archive_files a !! ("requires_" ++ req_type ++ ".txt") = Some (Lines ls)
        /\ line ∈ ls /\ strip line <> "" /\ startswith (strip line) "---" = false
        /\ shader_id = (if contains "/" (strip line)
                        then last_segment "/"%char (strip line)
                        else strip line).
Proof.
  unfold load_requires_file, new_searcher. cbn [requires_cache].
  rewrite lookup_empty. cbn [fst]. apply elem_of_scan_requires_files.
Qed.

(** X12: a requires file is read once per searcher object: after
    [load_requires_file] has answered for a capability, a second call
    answers the same set and leaves the object as it is, whatever the
    archives hold by then, and the answers for the other capabilities are
    not affected. *)
Theorem requires_file_read_once (w w' : World) (self : Searcher) (req_type : string) :
  let r := load_requires_file w self req_type in
  load_requires_file w' r.2 req_type = (r.1, r.2)
  /\ forall other, requires_set w r.2 other = requires_set w self other.
Proof.
  intros r. split.
  - apply load_requires_file_memo.
  - apply (load_requires_file_same w self req_type).
Qed.

(** ** What the mutator changes *)

Lemma info_grows_refl (i : Info) : info_grows i i.
Proof. repeat split; reflexivity. Qed.

Lemma info_grows_trans (i1 i2 i3 : Info) :
  info_grows i1 i2 -> info_grows i2 i3 -> info_grows i1 i3.
Proof.
  intros (A1 & A2 & A3 & A4 & A5 & A6) (B1 & B2 & B3 & B4 & B5 & B6).
  split; [congruence|]. split; [congruence|]. split; [congruence|].
  split; [congruence|]. split; etransitivity; eassumption.
Qed.

Lemma file_grows_refl (f : JsonFile) : file_grows f f.
Proof.
  destruct f as [| |d]; cbn; try exact I.
  split; [reflexivity|]. destruct (doc_info d); [apply info_grows_refl | exact I].
Qed.

Lemma file_grows_trans (f1 f2 f3 : JsonFile) :
  file_grows f1 f2 -> file_grows f2 f3 -> file_grows f1 f3.
Proof.
  destruct f1 as [| |d1], f2 as [| |d2], f3 as [| |d3]; cbn; try tauto.
  intros [A1 A2] [B1 B2]. split; [congruence|].
  destruct (doc_info d1), (doc_info d2), (doc_info d3); try tauto.
  eapply info_grows_trans; eassumption.
Qed.

Lemma dir_grows_refl (o : option JsonFile) : dir_grows o o.
Proof. destruct o; cbn; [apply file_grows_refl | exact I]. Qed.

Lemma dir_grows_trans (o1 o2 o3 : option JsonFile) :
  dir_grows o1 o2 -> dir_grows o2 o3 -> dir_grows o1 o3.
Proof.
  destruct o1, o2, o3; cbn; try tauto. apply file_grows_trans.
Qed.

Lemma add_tag_to_json_grows (tag : string) (files : gmap string JsonFile)
    (n : nat) (shader_id k : string) :
  dir_grows ((add_tag_to_json tag (files, n) shader_id).1 !! k) (files !! k).
Proof.
  unfold add_tag_to_json.
  destruct (files !! (shader_id ++ ".json")) as [[| |data]|] eqn:E;
    try apply dir_grows_refl.
  destruct (doc_info data) as [info|] eqn:Ei; try apply dir_grows_refl.
  destruct (bool_decide (tag ∈ py_get (info_tags info) []));
    try apply dir_grows_refl.
  cbn [fst].
  destruct (decide (shader_id ++ ".json" = k)) as [<-|Hne].
  - rewrite lookup_insert_eq, E. cbn. rewrite Ei.
    split; [reflexivity|]. repeat split; try reflexivity.
    eexists. reflexivity.
  - rewrite lookup_insert_ne by exact Hne. apply dir_grows_refl.
Qed.

Lemma add_tag_to_jsons_grows (tag : string) (ids : list string) :
  forall (files : gmap string JsonFile) (n : nat) (k : string),
  dir_grows ((foldl (add_tag_to_json tag) (files, n) ids).1 !! k) (files !! k).
Proof.
  induction ids as [|shader_id ids IH]; intros files n k.
  - apply dir_grows_refl.
  - change (foldl (add_tag_to_json tag) (files, n) (shader_id :: ids))
      with (foldl (add_tag_to_json tag) (add_tag_to_json tag (files, n) shader_id) ids).
    pose proof (add_tag_to_json_grows tag files n shader_id k) as Hstep.
    destruct (add_tag_to_json tag (files, n) shader_id) as [files1 n1].
    exact (dir_grows_trans _ _ _ (IH files1 n1 k) Hstep).
Qed.

Lemma tag_loop_grows (items : list (string * gset string)) :
  forall (files : gmap string JsonFile) (n : nat) (k : string),
  dir_grows ((foldl add_tag_to_jsons (files, n) items).1 !! k) (files !! k).
Proof.
  induction items as [|[tag ids] items IH]; intros files n k.
  - apply dir_grows_refl.
  - change (foldl add_tag_to_jsons (files, n) ((tag, ids) :: items))
      with (foldl add_tag_to_jsons
              (foldl (add_tag_to_json tag) (files, n) (elements ids)) items).
    pose proof (add_tag_to_jsons_grows tag (elements ids) files n k) as Hstep.
    destruct (foldl (add_tag_to_json tag) (files, n) (elements ids)) as [files1 n1].
    exact (dir_grows_trans _ _ _ (IH files1 n1 k) Hstep).
Qed.

Lemma append_missing_prefix (reqs l : list string) :
  l `prefix_of` append_missing l reqs.
Proof.
  unfold append_missing. revert l.
  induction reqs as [|r reqs IH]; intros l; [reflexivity|].
  cbn [foldl]. etransitivity; [|apply IH].
  destruct (bool_decide (r ∈ l)); [reflexivity | eexists; reflexivity].
Qed.

Lemma add_requires_to_json_grows (files : gmap string JsonFile) (n : nat)
    (name k : string) :
  dir_grows ((add_requires_to_json (files, n) name).1 !! k) (files !! k).
Proof.
  rewrite add_requires_to_json_step.
  destruct (files !! name) as [[| |[[info|] [rp|]]]|] eqn:E;
    try apply dir_grows_refl.
  destruct (endswith name ".json"
            && requires_would_grow (Parsed (mkDoc (Some info) (Some rp))));
    try apply dir_grows_refl.
  cbn [fst].
  destruct (decide (name = k)) as [<-|Hne].
  - rewrite lookup_insert_eq, E. cbn.
    split; [reflexivity|]. repeat split; try reflexivity.
    apply append_missing_prefix.
  - rewrite lookup_insert_ne by exact Hne. apply dir_grows_refl.
Qed.

Lemma requires_loop_grows (names : list string) :
  forall (files : gmap string JsonFile) (n : nat) (k : string),
  dir_grows ((foldl add_requires_to_json (files, n) names).1 !! k) (files !! k).
Proof.
  induction names as [|name names IH]; intros files n k.
  - apply dir_grows_refl.
  - change (foldl add_requires_to_json (files, n) (name :: names))
      with (foldl add_requires_to_json (add_requires_to_json (files, n) name) names).
    pose proof (add_requires_to_json_grows files n name k) as Hstep.
    destruct (add_requires_to_json (files, n) name) as [files1 n1].
    exact (dir_grows_trans _ _ _ (IH files1 n1 k) Hstep).
Qed.

Lemma mutator_files (w : World) (self : Searcher) :
  json_files (add_requires_info_to_jsons w self).1.2
  = (requires_pass (tag_pass (build_tag_mappings w self).1.1 (json_files w)).1).1.
Proof. rewrite add_requires_info_to_jsons_unfold. reflexivity. Qed.

(** X15: [add_requires_info_to_jsons] only ever appends: it creates and
    removes no file of the corpus, leaves alone every file that does not
    parse, is no object or has no [info], and in the others changes nothing
    but the [tags] and [requires] lists, which keep their entries in place
    and may get new ones at the end; [renderpass], id, name, author and
    description stay as they were.  It does not touch the archives or the
    [shader_index] slot of the cache file. *)
Theorem mutator_only_appends (w : World) (self : Searcher) :
  let w' := (add_requires_info_to_jsons w self).1.2 in
  (forall name, dir_grows (json_files w' !! name) (json_files w !! name))
  /\ archives w' = archives w
  /\ cached_shader_index w' = cached_shader_index w.
Proof.
  intros w'. split; [|split].
  - intros name. subst w'. rewrite mutator_files.
    eapply dir_grows_trans; [apply requires_loop_grows | apply tag_loop_grows].
  - subst w'. rewrite add_requires_info_to_jsons_unfold.
    cbn [fst snd archives set_json_files]. apply build_tag_mappings_archives.
  - subst w'. rewrite add_requires_info_to_jsons_unfold.
    cbn [fst snd]. unfold cached_shader_index at 1.
    cbn [cache_file set_json_files].
    apply (build_tag_mappings_keeps_index w self).
Qed.

Lemma dir_grows_some (o' : option JsonFile) (f : JsonFile) :
  dir_grows o' (Some f) -> exists f', o' = Some f' /\ file_grows f' f.
Proof. destruct o' as [f'|]; cbn; [eauto | tauto]. Qed.

Lemma file_grows_tags (f' f : JsonFile) (tag : string) :
  file_grows f' f ->
  has_info f' = has_info f /\ (tag ∈ tags_of_file f -> tag ∈ tags_of_file f').
Proof.
  destruct f' as [| |d'], f as [| |d]; cbn; try tauto.
  intros [_ H]. destruct (doc_info d') as [i'|], (doc_info d) as [i|]; try tauto.
  destruct H as (_ & _ & _ & _ & [k Hk] & _). split; [reflexivity|].
  rewrite Hk. intros Hin. apply elem_of_app. left. exact Hin.
Qed.

Lemma add_tag_to_json_tags (tag : string) (files : gmap string JsonFile)
    (n : nat) (shader_id : string) (f : JsonFile) :
  files !! (shader_id ++ ".json") = Some f -> has_info f = true ->
  exists f', (add_tag_to_json tag (files, n) shader_id).1 !! (shader_id ++ ".json")
             = Some f'
             /\ has_info f' = true /\ tag ∈ tags_of_file f'.
Proof.
  intros Hf Hi. unfold add_tag_to_json. rewrite Hf.
  destruct f as [| |data]; try discriminate Hi.
  cbn in Hi. destruct (doc_info data) as [info|] eqn:Ei; [|discriminate Hi].
  destruct (bool_decide (tag ∈ py_get (info_tags info) [])) eqn:Hb.
  - apply bool_decide_eq_true_1 in Hb. exists (Parsed data). cbn [fst].
    split; [exact Hf|]. cbn. rewrite Ei. split; [reflexivity | exact Hb].
  - eexists. cbn [fst]. rewrite lookup_insert_eq. split; [reflexivity|].
    cbn. split; [reflexivity|]. apply elem_of_app. right. left.
Qed.

Lemma add_tag_to_jsons_tags (tag shader_id : string) (ids : list string) :
  shader_id ∈ ids ->
  forall (files : gmap string JsonFile) (n : nat) (f : JsonFile),
  files !! (shader_id ++ ".json") = Some f -> has_info f = true ->
  exists f', (foldl (add_tag_to_json tag) (files, n) ids).1 !! (shader_id ++ ".json")
             = Some f'
             /\ has_info f' = true /\ tag ∈ tags_of_file f'.
Proof.
  induction ids as [|i ids IH]; intros Hin files n f Hf Hi; [inversion Hin|].
  change (foldl (add_tag_to_json tag) (files, n) (i :: ids))
    with (foldl (add_tag_to_json tag) (add_tag_to_json tag (files, n) i) ids).
  apply elem_of_cons in Hin as [<-|Hin].
  - destruct (add_tag_to_json_tags tag files n shader_id f Hf Hi)
      as (f1 & Hf1 & Hi1 & Ht1).
    destruct (add_tag_to_json tag (files, n) shader_id) as [files1 n1].
    cbn [fst] in Hf1.
    pose proof (add_tag_to_jsons_grows tag ids files1 n1 (shader_id ++ ".json")) as Hg.
    rewrite Hf1 in Hg. apply dir_grows_some in Hg as (f' & Hf' & Hg).
    exists f'. split; [exact Hf'|].
    destruct (file_grows_tags f' f1 tag Hg) as [Hh Ht].
    split; [congruence | exact (Ht Ht1)].
  - pose proof (add_tag_to_json_grows tag files n i (shader_id ++ ".json")) as Hg.
    rewrite Hf in Hg. apply dir_grows_some in Hg as (f1 & Hf1 & Hg).
    destruct (add_tag_to_json tag (files, n) i) as [files1 n1]. cbn [fst] in Hf1.
    apply (IH Hin files1 n1 f1 Hf1).
    destruct (file_grows_tags f1 f tag Hg) as [Hh _]. congruence.
Qed.

Lemma tag_loop_tags (tag shader_id : string) (ids : gset string)
    (items : list (string * gset string)) :
  (tag, ids) ∈ items -> shader_id ∈ ids ->
  forall (files : gmap string JsonFile) (n : nat) (f : JsonFile),
  files !! (shader_id ++ ".json") = Some f -> has_info f = true ->
  exists f', (foldl add_tag_to_jsons (files, n) items).1 !! (shader_id ++ ".json")
             = Some f'
             /\ has_info f' = true /\ tag ∈ tags_of_file f'.
Proof.
  intros Hin Hid. induction items as [|[t ids'] items IH]; intros files n f Hf Hi;
    [inversion Hin|].
  change (foldl add_tag_to_jsons (files, n) ((t, ids') :: items))
    with (foldl add_tag_to_jsons
            (foldl (add_tag_to_json t) (files, n) (elements ids')) items).
  apply elem_of_cons in Hin as [[= <- <-]|Hin].
  - destruct (add_tag_to_jsons_tags tag shader_id (elements ids)
                (proj2 (elem_of_elements ids shader_id) Hid) files n f Hf Hi)
      as (f1 & Hf1 & Hi1 & Ht1).
    destruct (foldl (add_tag_to_json tag) (files, n) (elements ids)) as [files1 n1].
    cbn [fst] in Hf1.
    pose proof (tag_loop_grows items files1 n1 (shader_id ++ ".json")) as Hg.
    rewrite Hf1 in Hg. apply dir_grows_some in Hg as (f' & Hf' & Hg).
    exists f'. split; [exact Hf'|].
    destruct (file_grows_tags f' f1 tag Hg) as [Hh Ht].
    split; [congruence | exact (Ht Ht1)].
  - pose proof (add_tag_to_jsons_grows t (elements ids') files n (shader_id ++ ".json"))
      as Hg.
    rewrite Hf in Hg. apply dir_grows_some in Hg as (f1 & Hf1 & Hg).
    destruct (foldl (add_tag_to_json t) (files, n) (elements ids')) as [files1 n1].
    cbn [fst] in Hf1.
    apply (IH Hin files1 n1 f1 Hf1).
    destruct (file_grows_tags f1 f tag Hg) as [Hh _]. congruence.
Qed.

(** X13: after [add_requires_info_to_jsons], every document
    [<shader id>.json] of the corpus that has an [info] section carries
    each tag under which the tag mapping lists the shader. *)
Theorem mutator_adds_tags (w : World) (self : Searcher) (tag shader_id : string)
    (ids : gset string) (f : JsonFile) :
  (build_tag_mappings w self).1.1 !! tag = Some ids ->
  shader_id ∈ ids ->
  json_files w !! (shader_id ++ ".json") = Some f ->
  has_info f = true ->
  exists f',
    json_files (add_requires_info_to_jsons w self).1.2 !! (shader_id ++ ".json")
    = Some f'
    /\ tag ∈ tags_of_file f'.
Proof.
  intros Htag Hid Hf Hi. rewrite mutator_files.
  destruct (tag_loop_tags tag shader_id ids
              (map_to_list (build_tag_mappings w self).1.1)
              (proj2 (elem_of_map_to_list _ _ _) Htag) Hid (json_files w) 0 f Hf Hi)
    as (f1 & Hf1 & Hi1 & Ht1).
  fold (tag_pass (build_tag_mappings w self).1.1 (json_files w)) in Hf1.
  pose proof (requires_loop_grows
                (listdir (tag_pass (build_tag_mappings w self).1.1 (json_files w)).1)
                (tag_pass (build_tag_mappings w self).1.1 (json_files w)).1 0
                (shader_id ++ ".json")) as Hg.
  fold (requires_pass (tag_pass (build_tag_mappings w self).1.1 (json_files w)).1) in Hg.
  rewrite Hf1 in Hg. apply dir_grows_some in Hg as (f' & Hf' & Hg).
  exists f'. split; [exact Hf'|].
  exact (proj2 (file_grows_tags f' f1 tag Hg) Ht1).
Qed.

Lemma mutator_adds_tags_witness :
  exists f',
    json_files (add_requires_info_to_jsons procedural_world (new_searcher "json")).1.2
      !! ("XsBSRd" ++ ".json") = Some f'
    /\ "procedural" ∈ tags_of_file f'.
Proof.
  refine (mutator_adds_tags procedural_world (new_searcher "json")
            "procedural" "XsBSRd" {[ "XsBSRd" ]} procedural_doc _ _ _ _).
  - vm_compute. reflexivity.
  - apply elem_of_singleton. reflexivity.
  - vm_compute. reflexivity.
  - reflexivity.
Defined.

Lemma append_missing_no_growth (reqs l : list string) :
  length (append_missing l reqs) <= length l -> forall r, r ∈ reqs -> r ∈ l.
Proof.
  revert l. induction reqs as [|r reqs IH]; intros l Hlen x Hx; [inversion Hx|].
  change (append_missing l (r :: reqs))
    with (append_missing (if bool_decide (r ∈ l) then l else (l ++ [r])%list) reqs)
    in Hlen.
  destruct (bool_decide (r ∈ l)) eqn:Hb.
  - apply bool_decide_eq_true_1 in Hb.
    apply elem_of_cons in Hx as [->|Hx]; [exact Hb | exact (IH l Hlen x Hx)].
  - pose proof (prefix_length _ _ (append_missing_prefix reqs (l ++ [r]))) as Hp.
    rewrite length_app in Hp. cbn in Hp. lia.
Qed.

(** X14: after [add_requires_info_to_jsons], the [requires] list of every
    [.json] document of the corpus that has [info] and [renderpass] holds
    every capability inferred from its render passes. *)
Theorem mutator_records_requirements (w : World) (self : Searcher) (name : string)
    (data : Document) (info : Info) (renderpass : list PassInfo) (c : string) :
  json_files (add_requires_info_to_jsons w self).1.2 !! name = Some (Parsed data) ->
  endswith name ".json" = true ->
  doc_info data = Some info ->
  doc_renderpass data = Some renderpass ->
  c ∈ required_resources renderpass ->
  c ∈ py_get (info_requires info) [].
Proof.
  intros Hf Hjson Hi Hrp Hc. rewrite mutator_files in Hf.
  pose proof (requires_pass_settles _ name _ Hf Hjson) as Hs.
  unfold requires_would_grow in Hs. rewrite Hi, Hrp in Hs.
  apply Nat.ltb_ge in Hs.
  apply (append_missing_no_growth _ _ Hs). apply elem_of_elements. exact Hc.
Qed.

Lemma mutator_records_requirements_witness :
  "soundbuf" ∈ py_get (Some ["soundbuf"; "imagebuf"]) [].
Proof.
  refine (mutator_records_requirements unsettled_world (new_searcher "json") "S.json"
            (mkDoc (Some (mkInfo None None None None None (Some ["soundbuf"; "imagebuf"])))
                   (Some [mkPass (Some "image")
                                 (Some [mkInput (Some "sound") None None])]))
            (mkInfo None None None None None (Some ["soundbuf"; "imagebuf"]))
            [mkPass (Some "image") (Some [mkInput (Some "sound") None None])]
            "soundbuf" _ _ _ _ _).
  - vm_compute. reflexivity.
  - reflexivity.
  - reflexivity.
  - reflexivity.
  - apply (bool_decide_unpack _). vm_compute. exact I.
Defined.

(** ** The command line *)

Lemma has_criteria_false (a : SearchArgs) :
  has_criteria a = false
  <-> truthy (arg_tags a) = None /\ truthy (arg_name a) = None
      /\ truthy (arg_author a) = None /\ truthy (arg_description a) = None
      /\ any_requires a = false.
Proof.
  unfold has_criteria, any_requires, is_truthy. cbn [existsb id].
  destruct (truthy (arg_tags a)), (truthy (arg_name a)), (truthy (arg_author a)),
    (truthy (arg_description a)); cbn [orb];
    try (split; [discriminate | intros (? & ? & ? & ? & ?); discriminate]).
  rewrite orb_false_r, !orb_assoc.
  split; [intros H; repeat split; exact H | intros (_ & _ & _ & _ & H); exact H].
Qed.

(** X16: [main] never ends in a traceback from [search]; without
    [--add-tags] it leaves the corpus as it is; and when no criterion is
    given (every text option absent or empty, no capability flag) it prints
    the help and touches no file at all, so [--reindex] on its own rebuilds
    nothing. *)
Theorem main_outcomes (dir : string) (cli : CliArgs) (w : World) :
  (main dir cli w).1 <> Traceback
  /\ (cli_add_tags cli = false -> json_files (main dir cli w).2 = json_files w)
  /\ (cli_add_tags cli = false ->
      truthy (arg_tags (cli_search cli)) = None ->
      truthy (arg_name (cli_search cli)) = None ->
      truthy (arg_author (cli_search cli)) = None ->
      truthy (arg_description (cli_search cli)) = None ->
      any_requires (cli_search cli) = false ->
      main dir cli w = (PrintedHelp, w)).
Proof.
  assert (Hsearch : forall r, r = search (cli_search cli) w (new_searcher dir) ->
            exists results, r.1.1 = Some results /\ json_files r.1.2 = json_files w).
  { intros r ->.
    destruct (search_returns_index_records_aux (cli_search cli) w (new_searcher dir))
      as (results & Hres). exists results. split; [exact Hres|].
    rewrite search_world. apply search_load_index. }
  split; [|split].
  - unfold main. destruct (cli_add_tags cli).
    + destruct (add_requires_info_to_jsons w (new_searcher dir)) as [[counts w1] s1].
      discriminate.
    + destruct (has_criteria (cli_search cli)); [|discriminate].
      destruct (Hsearch _ eq_refl) as (results & Hres & _).
      destruct (search (cli_search cli) w (new_searcher dir)) as [[res w1] s1].
      cbn [fst] in Hres. subst res. destruct results; discriminate.
  - intros Ha. unfold main. rewrite Ha.
    destruct (has_criteria (cli_search cli)); [|reflexivity].
    destruct (Hsearch _ eq_refl) as (results & Hres & Hj).
    destruct (search (cli_search cli) w (new_searcher dir)) as [[res w1] s1].
    cbn [fst snd] in Hres, Hj. subst res. destruct results; exact Hj.
  - intros Ha H1 H2 H3 H4 H5. unfold main. rewrite Ha.
    rewrite (proj2 (has_criteria_false (cli_search cli))) by (repeat split; assumption).
    reflexivity.
Qed.

Lemma main_outcomes_witness :
  main "json" (mkCli (no_predicates true) false) procedural_world
  = (PrintedHelp, procedural_world).
Proof.
  exact (proj2 (proj2 (main_outcomes "json" (mkCli (no_predicates true) false)
                         procedural_world))
               eq_refl eq_refl eq_refl eq_refl eq_refl eq_refl).
Defined.

(** ** More on the requirement inference *)

Lemma lower_ascii_idem (c : ascii) : lower_ascii (lower_ascii c) = lower_ascii c.
Proof. destruct c as [[] [] [] [] [] [] [] []]; reflexivity. Qed.

Lemma lower_idem (s : string) : lower (lower s) = lower s.
Proof.
  induction s as [|c s IH]; [reflexivity|].
  cbn [lower]. rewrite lower_ascii_idem, IH. reflexivity.
Qed.

Lemma lower_append (a b : string) : lower (a ++ b) = lower a ++ lower b.
Proof.
  induction a as [|c a IH]; [reflexivity|].
  change (lower (String c (a ++ b)) = String (lower_ascii c) (lower a ++ lower b)).
  cbn [lower]. rewrite IH. reflexivity.
Qed.

(** X17: the inference works pass by pass: the set inferred from two
    render-pass lists put one after the other is the union of the sets
    inferred from each, so neither the order of the passes nor a repeated
    pass changes the result. *)
Theorem required_resources_app (rp1 rp2 : list PassInfo) :
  required_resources (rp1 ++ rp2) = required_resources rp1 ∪ required_resources rp2
  /\ required_resources (rp2 ++ rp1) = required_resources (rp1 ++ rp2)
  /\ required_resources (rp1 ++ rp1) = required_resources rp1.
Proof.
  assert (H : forall a b, required_resources (a ++ b)
                          = required_resources a ∪ required_resources b).
  { intros a b. unfold required_resources. rewrite foldl_app.
    rewrite (foldl_infer_pass_spec b (foldl infer_pass ∅ a)).
    rewrite (foldl_infer_pass_spec b ∅). set_solver. }
  split; [apply H|]. split.
  - rewrite !H. set_solver.
  - rewrite H. set_solver.
Qed.

Lemma type_capabilities_lower (field : option string) (c : string) :
  c ∈ type_capabilities (fun T => lower T ++ "buf") field -> lower c = c.
Proof.
  destruct field as [T|]; cbn; [|set_solver].
  destruct (String.eqb (lower T) "image" || String.eqb (lower T) "buffer");
    [intros ->%elem_of_singleton; reflexivity|].
  destruct (String.eqb (lower T) "sound"); [intros ->%elem_of_singleton; reflexivity|].
  destruct (String.eqb (lower T) "common"); [intros ->%elem_of_singleton; reflexivity|].
  destruct (String.eqb (lower T) "cubemap"); [intros ->%elem_of_singleton; reflexivity|].
  destruct (String.eqb T ""); [set_solver|].
  intros ->%elem_of_singleton. rewrite lower_append, lower_idem. reflexivity.
Qed.

(** X18: every capability string the inference produces is in lower case,
    whatever the case of the type fields it was read from; the literals
    [search] looks for in a [requires] list are lower case too. *)
Theorem required_resources_lower_case (renderpass : list PassInfo) (c : string) :
  c ∈ required_resources renderpass -> lower c = c.
Proof.
  unfold required_resources. rewrite foldl_infer_pass_spec.
  rewrite elem_of_union. intros [H|H]; [set_solver|].
  unfold capabilities_lowercased, renderpass_capabilities in H.
  apply elem_of_union_list in H as (X & HX & Hc).
  apply list_elem_of_fmap in HX as (p & -> & _).
  unfold pass_capabilities in Hc. apply elem_of_union in Hc as [Hc|Hc].
  - exact (type_capabilities_lower _ _ Hc).
  - apply elem_of_union_list in Hc as (Y & HY & Hc).
    apply list_elem_of_fmap in HY as (inp & -> & _).
    unfold input_capabilities in Hc. apply elem_of_union in Hc as [Hc|Hc].
    + exact (type_capabilities_lower _ _ Hc).
    + unfold filepath_capabilities in Hc.
      destruct (inp_filepath inp) as [fp|]; [|set_solver].
      destruct (contains "/media/" fp || contains "cubemap" (lower fp)); [|set_solver].
      apply elem_of_singleton in Hc as ->. reflexivity.
Qed.

Lemma required_resources_lower_case_witness :
  lower "videobuf" = "videobuf".
Proof.
  refine (required_resources_lower_case
            [mkPass (Some "Image") (Some [mkInput (Some "VIDEO") None None])]
            "videobuf" _).
  apply (bool_decide_unpack _). vm_compute. exact I.
Defined.

Lemma add_type_resource_mono (ty : string) (required : gset string) :
  required ⊆ add_type_resource ty required.
Proof.
  unfold add_type_resource.
  repeat (match goal with |- context [if ?b then _ else _] => destruct b end);
    set_solver.
Qed.

Lemma infer_input_mono (required : gset string) (inp : InputDesc) :
  required ⊆ infer_input required inp.
Proof.
  unfold infer_input.
  pose proof (add_type_resource_mono (lower (py_get (inp_type inp) "")) required) as H.
  destruct (contains "/media/" _ || contains "cubemap" _); set_solver.
Qed.

Lemma foldl_infer_input_mono (inputs : list InputDesc) :
  forall required : gset string, required ⊆ foldl infer_input required inputs.
Proof.
  induction inputs as [|i inputs IH]; intros required; [reflexivity|].
  cbn [foldl]. etransitivity; [apply infer_input_mono | apply IH].
Qed.

Lemma infer_pass_mono (required : gset string) (p : PassInfo) :
  required ⊆ infer_pass required p.
Proof.
  unfold infer_pass.
  etransitivity; [apply foldl_infer_input_mono | apply add_type_resource_mono].
Qed.

Lemma foldl_infer_pass_mono (renderpass : list PassInfo) :
  forall required : gset string, required ⊆ foldl infer_pass required renderpass.
Proof.
  induction renderpass as [|p rp IH]; intros required; [reflexivity|].
  cbn [foldl]. etransitivity; [apply infer_pass_mono | apply IH].
Qed.

Lemma add_type_resource_requirement (c : Capability) (required : gset string) :
  c <> Imagebuf -> c <> Library -> c <> Soundbuf ->
  json_requirement_of c ∈ add_type_resource (requires_file_of c) required.
Proof.
  intros H1 H2 H3. destruct c; try congruence; cbn; set_solver.
Qed.

Lemma foldl_infer_input_requirement (c : Capability) (inp : InputDesc)
    (inputs : list InputDesc) :
  c <> Imagebuf -> c <> Library -> c <> Soundbuf ->
  inp ∈ inputs -> lower (py_get (inp_type inp) "") = requires_file_of c ->
  forall required : gset string,
  json_requirement_of c ∈ foldl infer_input required inputs.
Proof.
  intros H1 H2 H3 Hin Hty.
  induction inputs as [|i inputs IH]; intros required; [inversion Hin|].
  cbn [foldl]. apply elem_of_cons in Hin as [<-|Hin].
  - apply foldl_infer_input_mono. unfold infer_input. rewrite Hty.
    destruct (contains "/media/" _ || contains "cubemap" _);
      [apply elem_of_union; right|];
      apply add_type_resource_requirement; assumption.
  - apply IH. exact Hin.
Qed.

(** X19: the inference and the capability filters of [search] agree on
    thirteen of the sixteen capabilities: when a pass, or an input of a pass,
    has the type a capability is named after (in any case), the inferred set
    holds the very string the capability's filter looks for in a [requires]
    list.  The three others, [imagebuf], [library] and [soundbuf], are names
    of inferred strings, not of types. *)
Theorem inference_feeds_search (c : Capability) (renderpass : list PassInfo)
    (p : PassInfo) :
  c <> Imagebuf -> c <> Library -> c <> Soundbuf ->
  p ∈ renderpass ->
  lower (py_get (pass_type p) "") = requires_file_of c
  \/ (exists inp, inp ∈ py_get (pass_inputs p) []
                  /\ lower (py_get (inp_type inp) "") = requires_file_of c) ->
  json_requirement_of c ∈ required_resources renderpass.
Proof.
  intros H1 H2 H3 Hin Hty. unfold required_resources. generalize (∅ : gset string).
  induction renderpass as [|q rp IH]; intros required; [inversion Hin|].
  cbn [foldl]. apply elem_of_cons in Hin as [<-|Hin]; [|apply IH; exact Hin].
  apply foldl_infer_pass_mono. unfold infer_pass.
  destruct Hty as [Hty|(inp & Hinp & Hty)].
  - rewrite Hty. apply add_type_resource_requirement; assumption.
  - apply add_type_resource_mono.
    exact (foldl_infer_input_requirement c inp _ H1 H2 H3 Hinp Hty required).
Qed.

Lemma inference_feeds_search_witness :
  json_requirement_of Keyboard
  ∈ required_resources [mkPass (Some "image")
                               (Some [mkInput (Some "Keyboard") None None])].
Proof.
  refine (inference_feeds_search Keyboard _
            (mkPass (Some "image") (Some [mkInput (Some "Keyboard") None None]))
            _ _ _ _ _); try discriminate.
  - left.
  - right. exists (mkInput (Some "Keyboard") None None). split; [left | reflexivity].
Defined.

(** ** The printed description *)

Lemma length_take_chars (n : nat) (s : string) :
  String.length (take_chars n s) = Nat.min n (String.length s).
Proof.
  revert s. induction n as [|n IH]; intros [|c s]; cbn [take_chars String.length];
    try reflexivity.
  rewrite IH. reflexivity.
Qed.

Lemma length_append_string (a b : string) :
  String.length (a ++ b) = String.length a + String.length b.
Proof.
  induction a as [|c a IH]; [reflexivity|].
  change (String.length (String c (a ++ b)) = S (String.length a + String.length b)).
  cbn [String.length]. rewrite IH. reflexivity.
Qed.

Lemma take_chars_append (a b : string) : take_chars (String.length a) (a ++ b) = a.
Proof.
  induction a as [|c a IH]; [destruct b; reflexivity|].
  change (take_chars (S (String.length a)) (String c (a ++ b)) = String c a).
  cbn [take_chars]. rewrite IH. reflexivity.
Qed.

(** X30: the description [main] prints for a result is never longer than
    103 characters and always starts with the first 100 characters of the
    stored description: a description of at most 100 characters is printed
    as it is, a longer one as its first 100 characters followed by three
    dots. *)
Theorem shown_description_bound (d : string) :
  String.length (shown_description d) <= 103
  /\ take_chars 100 (shown_description d) = take_chars 100 d
  /\ (String.length d <= 100 -> shown_description d = d)
  /\ (100 < String.length d -> String.length (shown_description d) = 103).
Proof.
  unfold shown_description.
  destruct (Nat.ltb_spec 100 (String.length d)) as [Hlong|Hshort].
  - assert (E : String.length (take_chars 100 d) = 100).
    { rewrite length_take_chars. lia. }
    assert (L : String.length (take_chars 100 d ++ "...") = 103).
    { rewrite length_append_string, E. reflexivity. }
    split; [lia|]. split.
    + rewrite <- E at 1. apply take_chars_append.
    + split; [lia | intros _; exact L].
  - split; [lia|]. split; [reflexivity|]. split; [reflexivity | lia].
Qed.

(** ** The mutator and the search together *)

Lemma indexed_id_info_id (dir name : string) (info' info : Info) :
  info_id info' = info_id info -> indexed_id dir name info' = indexed_id dir name info.
Proof. intros H. unfold indexed_id. rewrite H. reflexivity. Qed.

Lemma load_all_json_metadata_forced (w : World) (self : Searcher) :
  load_all_json_metadata w self true
  = (build_index (json_dir self) (json_files w),
     set_cache_file w
       (CacheStored (mkCache None (Some (build_index (json_dir self) (json_files w)))))).
Proof. reflexivity. Qed.

Lemma text_filters_none (args : SearchArgs) (self : Searcher) :
  truthy (arg_tags args) = None -> truthy (arg_name args) = None ->
  truthy (arg_author args) = None -> truthy (arg_description args) = None ->
  text_filters args self = dom (shader_index self).
Proof.
  intros H1 H2 H3 H4. unfold text_filters, apply_text_filter.
  rewrite H1, H2, H3, H4. reflexivity.
Qed.

Lemma mutator_grows (w : World) (self : Searcher) (name : string) :
  dir_grows (json_files (add_requires_info_to_jsons w self).1.2 !! name)
            (json_files w !! name).
Proof.
  rewrite mutator_files.
  eapply dir_grows_trans; [apply requires_loop_grows | apply tag_loop_grows].
Qed.

Lemma dir_grows_parsed (o : option JsonFile) (data' : Document) (info' : Info) :
  dir_grows (Some (Parsed data')) o -> doc_info data' = Some info' ->
  exists data info,
    o = Some (Parsed data) /\ doc_info data = Some info
    /\ doc_renderpass data' = doc_renderpass data /\ info_grows info' info.
Proof.
  intros H Hi'. destruct o as [[| |data]|]; try contradiction.
  cbn [dir_grows file_grows] in H. destruct H as [Hrp H]. rewrite Hi' in H.
  destruct (doc_info data) as [info|] eqn:Hi; [|contradiction].
  exists data, info. repeat split; try assumption; apply H.
Qed.

(** X10: the mutator and the search fit together: after
    [add_requires_info_to_jsons] has run, a search with rebuild and without
    text filters, by a searcher whose [json_dir] holds none of the
    characters [glob] reads as a pattern, returns the record of every
    indexed document whose render passes, by the inference, need each
    requested capability, whether or not a requires file of an archive lists
    the shader; the document is one with [info] and [renderpass] whose id no
    other document of the corpus has. *)
Theorem mutated_corpus_search (args : SearchArgs) (w : World) (self0 self : Searcher)
    (name : string) (data : Document) (info : Info) (renderpass : list PassInfo) :
  let w' := (add_requires_info_to_jsons w self0).1.2 in
  let shader_id := indexed_id (json_dir self) name info in
  has_magic (json_dir self) = false ->
  force_rebuild args = true ->
  truthy (arg_tags args) = None -> truthy (arg_name args) = None ->
  truthy (arg_author args) = None -> truthy (arg_description args) = None ->
  json_files w !! name = Some (Parsed data) ->
  endswith name ".json" = true -> startswith name "." = false ->
  doc_info data = Some info ->
  doc_renderpass data = Some renderpass ->
  (forall c, requested args c = true ->
             json_requirement_of c ∈ required_resources renderpass) ->
  (forall name' data' info',
     json_files w !! name' = Some (Parsed data') -> doc_info data' = Some info' ->
     indexed_id (json_dir self) name' info' = shader_id -> name' = name) ->
  exists results r,
    (search args w' self).1.1 = Some results
    /\ r ∈ results /\ r_id r = shader_id
    /\ r_filepath r = glob_path (json_dir self) name.
Proof.
  cbn zeta. intros Hplain Hforce Ht1 Ht2 Ht3 Ht4 Hf Hjson Hdot Hi Hrp Hreq Huniq.
  set (w' := (add_requires_info_to_jsons w self0).1.2).
  set (dir := json_dir self) in *.
  (* the document after the mutator *)
  destruct (json_files w' !! name) as [f'|] eqn:Hf'.
  2:{ pose proof (mutator_grows w self0 name) as Hg. fold w' in Hg.
      rewrite Hf', Hf in Hg. contradiction. }
  assert (Hdoc : exists data' info',
             f' = Parsed data' /\ doc_info data' = Some info'
             /\ doc_renderpass data' = Some renderpass
             /\ info_id info' = info_id info).
  { pose proof (mutator_grows w self0 name) as Hg. fold w' in Hg.
    rewrite Hf', Hf in Hg. destruct f' as [| |data']; try contradiction.
    cbn [dir_grows file_grows] in Hg. destruct Hg as [Hrp' Hg]. rewrite Hi in Hg.
    destruct (doc_info data') as [info'|] eqn:Hi'; [|contradiction].
    exists data', info'. split; [reflexivity|]. split; [exact Hi'|].
    split; [congruence | apply Hg]. }
  destruct Hdoc as (data' & info' & -> & Hi' & Hrp' & Hid').
  assert (Hall : forall c, c ∈ required_resources renderpass ->
                           c ∈ py_get (info_requires info') []).
  { intros c Hc. pose proof Hf' as Hf2. unfold w' in Hf2. rewrite mutator_files in Hf2.
    pose proof (requires_pass_settles _ name _ Hf2 Hjson) as Hs.
    unfold requires_would_grow in Hs. rewrite Hi', Hrp' in Hs.
    apply Nat.ltb_ge in Hs.
    apply (append_missing_no_growth _ _ Hs). apply elem_of_elements. exact Hc. }
  (* the rebuilt index *)
  destruct (search_results_shape args w' self) as (results & Hres & Hids & Hrec).
  cbn zeta in Hids, Hrec.
  rewrite (search_load_forced args w' self Hforce) in Hids, Hrec.
  rewrite load_all_json_metadata_forced in Hids, Hrec. cbn [fst snd] in Hids, Hrec.
  fold dir in Hids, Hrec.
  set (index := build_index dir (json_files w')) in *.
  set (w1 := set_cache_file w' (CacheStored (mkCache None (Some index)))) in *.
  set (s1 := set_shader_index self index) in *.
  assert (Hsome : is_Some (index !! indexed_id dir name info)).
  { rewrite <- (indexed_id_info_id dir name info' info Hid').
    apply (build_index_complete dir (json_files w') name data' info'); [|exact Hf'|exact Hi'].
    apply (elem_of_glob_json dir (json_files w') name Hplain).
    split; [eexists; exact Hf'|]. split; assumption. }
  destruct Hsome as [e He].
  assert (Hentry : e = indexed_entry dir name info').
  { pose proof He as Hs.
    apply build_index_sound in Hs as (name2 & data2 & info2 & _ & Hf2 & Hi2 & Hid2 & ->).
    pose proof (mutator_grows w self0 name2) as Hg. fold w' in Hg. rewrite Hf2 in Hg.
    destruct (dir_grows_parsed _ _ _ Hg Hi2) as (d0 & i0 & Hf0 & Hi0 & _ & Hgi).
    assert (name2 = name) as ->.
    { apply (Huniq name2 d0 i0 Hf0 Hi0). rewrite Hid2.
      symmetry. apply indexed_id_info_id. apply Hgi. }
    rewrite Hf' in Hf2. injection Hf2 as <-. rewrite Hi' in Hi2. injection Hi2 as <-.
    reflexivity. }
  subst e.
  (* the requires filters keep the id *)
  assert (Hkept : indexed_id dir name info
                  ∈ (requires_filters args w1 s1 (text_filters args s1)).1).
  { rewrite (text_filters_none args s1 Ht1 Ht2 Ht3 Ht4).
    change (shader_index s1) with index.
    assert (Hdom : indexed_id dir name info ∈ dom index).
    { apply elem_of_dom. eexists; exact He. }
    destruct (any_requires args) eqn:Hany.
    - unfold requires_filters. rewrite Hany.
      apply (filter_by_requires_loop args w1 (elements (dom index)) Hany ∅ s1).
      right. split; [apply elem_of_elements; exact Hdom|].
      exists (indexed_entry dir name info'). split; [exact He|].
      intros c Hc. apply requirement_met_true. right.
      unfold read_req_list.
      change (json_dir s1) with dir. cbn [e_filepath indexed_entry].
      rewrite (open_json_glob_path w1 dir name (Parsed data') Hf'), Hi'.
      apply Hall, Hreq, Hc.
    - rewrite requires_filters_off by exact Hany. exact Hdom. }
  apply elem_of_elements in Hkept. rewrite <- Hids in Hkept.
  apply list_elem_of_fmap in Hkept as (r & Hr & Hin).
  exists results, r. split; [exact Hres|]. split; [exact Hin|].
  split; [symmetry; exact Hr|].
  destruct (Hrec r Hin) as (e & He' & ->).
  cbn [r_id result_of] in Hr, He'. rewrite <- Hr in He'.
  change (shader_index s1) with index in He'. rewrite He in He'.
  injection He' as <-. reflexivity.
Qed.

Lemma mutated_corpus_search_witness :
  exists results r,
    (search sound_rebuilt
       (add_requires_info_to_jsons unsettled_world (new_searcher "json")).1.2
       (new_searcher "json")).1.1 = Some results
    /\ r ∈ results
    /\ r_id r = indexed_id "json" "S.json" empty_info
    /\ r_filepath r = glob_path "json" "S.json".
Proof.
  refine (mutated_corpus_search sound_rebuilt unsettled_world (new_searcher "json")
            (new_searcher "json") "S.json"
            (mkDoc (Some empty_info)
                   (Some [mkPass (Some "image")
                                 (Some [mkInput (Some "sound") None None])]))
            empty_info
            [mkPass (Some "image") (Some [mkInput (Some "sound") None None])]
            eq_refl eq_refl eq_refl eq_refl eq_refl eq_refl _ eq_refl eq_refl eq_refl
            eq_refl _ _).
  - vm_compute. reflexivity.
  - intros c Hc. destruct c; try discriminate Hc.
    apply (bool_decide_unpack _). vm_compute. exact I.
  - intros name' data' info' Hf' _ _. unfold unsettled_world in Hf'.
    cbn [json_files] in Hf'. apply lookup_singleton_Some in Hf' as [<- _].
    reflexivity.
Defined.

(** * Properties of [webserver.py] *)

(** ** String order *)

Lemma ascii_compare_refl (c : ascii) : Ascii.compare c c = Eq.
Proof. unfold Ascii.compare. apply N.compare_refl. Qed.

Lemma string_compare_refl (s : string) : String.compare s s = Eq.
Proof.
  induction s as [|c s IH]; [reflexivity|].
  cbn [String.compare]. rewrite ascii_compare_refl. exact IH.
Qed.

Lemma ascii_compare_lt_trans (a b c : ascii) :
  Ascii.compare a b = Lt -> Ascii.compare b c = Lt -> Ascii.compare a c = Lt.
Proof.
  unfold Ascii.compare. rewrite !N.compare_lt_iff. apply N.lt_trans.
Qed.

Lemma string_compare_lt_trans (s1 : string) :
  forall s2 s3, String.compare s1 s2 = Lt -> String.compare s2 s3 = Lt ->
                String.compare s1 s3 = Lt.
Proof.
  induction s1 as [|a s1 IH]; intros [|b s2] [|c s3]; cbn [String.compare];
    try discriminate; try reflexivity.
  destruct (Ascii.compare a b) eqn:Eab; try discriminate;
    destruct (Ascii.compare b c) eqn:Ebc; try discriminate; intros H1 H2.
  - apply Ascii.compare_eq_iff in Eab, Ebc. subst.
    rewrite ascii_compare_refl. exact (IH _ _ H1 H2).
  - apply Ascii.compare_eq_iff in Eab. subst. rewrite Ebc. reflexivity.
  - apply Ascii.compare_eq_iff in Ebc. subst. rewrite Eab. reflexivity.
  - rewrite (ascii_compare_lt_trans _ _ _ Eab Ebc). reflexivity.
Qed.

Lemma ltb_irrefl (s : string) : String.ltb s s = false.
Proof. unfold String.ltb. rewrite string_compare_refl. reflexivity. Qed.

Lemma ltb_asym (a b : string) : String.ltb a b = true -> String.ltb b a = false.
Proof.
  unfold String.ltb. rewrite (String.compare_antisym b a).
  destruct (String.compare a b); cbn; congruence.
Qed.

Lemma ltb_false_trans (a b c : string) :
  String.ltb b a = false -> String.ltb c b = false -> String.ltb c a = false.
Proof.
  unfold String.ltb. intros H1 H2.
  destruct (String.compare c a) eqn:Eca; try reflexivity.
  destruct (String.compare b a) eqn:Eba; try discriminate.
  - apply String.compare_eq_iff in Eba. subst. rewrite Eca in H2. discriminate.
  - destruct (String.compare c b) eqn:Ecb; try discriminate.
    + apply String.compare_eq_iff in Ecb. subst. congruence.
    + (* a < b, b < c, c < a *)
      assert (Hab : String.compare a b = Lt)
        by (rewrite String.compare_antisym, Eba; reflexivity).
      assert (Hbc : String.compare b c = Lt)
        by (rewrite String.compare_antisym, Ecb; reflexivity).
      pose proof (string_compare_lt_trans _ _ _ Hab Hbc) as Hac.
      rewrite String.compare_antisym, Eca in Hac. discriminate.
Qed.

(** ** The sort of [load_all_shaders] *)

Lemma insert_by_key_perm (x : WebShader) (l : list WebShader) :
  Permutation (insert_by_key x l) (x :: l).
Proof.
  induction l as [|y l IH]; [reflexivity|]. cbn [insert_by_key].
  destruct (String.ltb (sort_key y) (sort_key x)); [|reflexivity].
  rewrite IH. apply perm_swap.
Qed.

Lemma sort_by_key_perm (l : list WebShader) : Permutation (sort_by_key l) l.
Proof.
  induction l as [|x l IH]; [reflexivity|].
  cbn [sort_by_key foldr]. fold (sort_by_key l).
  rewrite insert_by_key_perm, IH. reflexivity.
Qed.

Lemma insert_by_key_sorted (x : WebShader) (l : list WebShader) :
  StronglySorted key_le l -> StronglySorted key_le (insert_by_key x l).
Proof.
  induction 1 as [|y l Hs IH Hy]; cbn [insert_by_key].
  - constructor; constructor.
  - destruct (String.ltb (sort_key y) (sort_key x)) eqn:E.
    + constructor; [exact IH|].
      apply (Forall_forall (key_le y)). intros z Hz.
      apply list_elem_of_In in Hz.
      apply (Permutation_in _ (insert_by_key_perm x l)) in Hz.
      destruct Hz as [<-|Hz].
      * unfold key_le. apply ltb_asym. exact E.
      * exact (proj1 (Forall_forall (key_le y) l) Hy z (proj2 (list_elem_of_In _ _) Hz)).
    + constructor; [constructor; assumption|].
      constructor; [exact E|].
      apply (Forall_forall (key_le x)). intros z Hz.
      unfold key_le. apply (ltb_false_trans _ (sort_key y)); [exact E|].
      exact (proj1 (Forall_forall (key_le y) l) Hy z Hz).
Qed.

Lemma sort_by_key_sorted (l : list WebShader) : StronglySorted key_le (sort_by_key l).
Proof.
  induction l as [|x l IH]; [constructor|].
  cbn [sort_by_key foldr]. apply insert_by_key_sorted. exact IH.
Qed.

Lemma insert_by_key_stable (k : string) (x : WebShader) (l : list WebShader) :
  List.filter (fun y => String.eqb (sort_key y) k) (insert_by_key x l)
  = List.filter (fun y => String.eqb (sort_key y) k) (x :: l).
Proof.
  induction l as [|y l IH]; [reflexivity|]. cbn [insert_by_key].
  destruct (String.ltb (sort_key y) (sort_key x)) eqn:E; [|reflexivity].
  cbn [List.filter] in *. rewrite IH.
  destruct (String.eqb_spec (sort_key y) k) as [Hy|Hy]; [|reflexivity].
  destruct (String.eqb_spec (sort_key x) k) as [Hx|Hx]; [|reflexivity].
  rewrite Hx, Hy, ltb_irrefl in E. discriminate E.
Qed.

Lemma sort_by_key_stable (k : string) (l : list WebShader) :
  List.filter (fun y => String.eqb (sort_key y) k) (sort_by_key l)
  = List.filter (fun y => String.eqb (sort_key y) k) l.
Proof.
  induction l as [|x l IH]; [reflexivity|].
  cbn [sort_by_key foldr]. fold (sort_by_key l).
  rewrite insert_by_key_stable. cbn [List.filter]. rewrite IH. reflexivity.
Qed.

(** ** What [load_all_shaders] lists *)

Lemma load_shader_file_step (files : gmap string JsonFile)
    (shaders : list WebShader) (filename : string) :
  load_shader_file files shaders filename
  = match files !! filename with
    | Some (Parsed data) =>
        if endswith filename ".json"
        then (shaders ++ [web_shader_of filename data])%list
        else shaders
    | _ => shaders
    end.
Proof.
  unfold load_shader_file, web_shader_of.
  destruct (endswith filename ".json"); destruct (files !! filename) as [[| |d]|];
    reflexivity.
Qed.

Lemma load_shader_loop (files : gmap string JsonFile) (names : list string) :
  forall (shaders : list WebShader) (x : WebShader),
  x ∈ foldl (load_shader_file files) shaders names
  <-> x ∈ shaders
      \/ exists name data,
           name ∈ names /\ endswith name ".json" = true
           /\ files !! name = Some (Parsed data) /\ x = web_shader_of name data.
Proof.
  induction names as [|n names IH]; intros shaders x.
  - cbn. split; [auto|]. intros [H|(name & data & H & _)]; [exact H | inversion H].
  - change (foldl (load_shader_file files) shaders (n :: names))
      with (foldl (load_shader_file files) (load_shader_file files shaders n) names).
    rewrite IH, load_shader_file_step. split.
    + intros [H|(name & data & Hin & Hr)].
      * destruct (files !! n) as [[| |d]|] eqn:E; try (left; exact H).
        destruct (endswith n ".json") eqn:Ej; [|left; exact H].
        apply elem_of_app in H as [H|H]; [left; exact H|].
        apply list_elem_of_singleton in H as ->.
        right. exists n, d. split; [left|]. repeat split; assumption.
      * right. exists name, data. split; [right; exact Hin | exact Hr].
    + intros [H|(name & data & Hin & Hj & Hf & ->)].
      * left. destruct (files !! n) as [[| |d]|]; try exact H.
        destruct (endswith n ".json"); [|exact H]. apply elem_of_app. left. exact H.
      * apply elem_of_cons in Hin as [->|Hin].
        -- left. rewrite Hf, Hj. apply elem_of_app. right. left.
        -- right. exists name, data. repeat split; assumption.
Qed.

Lemma load_shader_loop_filenames (files : gmap string JsonFile) (names : list string) :
  forall shaders : list WebShader,
  ws_filename <$> foldl (load_shader_file files) shaders names
  = ((ws_filename <$> shaders)
     ++ List.filter (fun n => match files !! n with
                              | Some (Parsed _) => endswith n ".json"
                              | _ => false
                              end) names)%list.
Proof.
  induction names as [|n names IH]; intros shaders.
  - cbn. rewrite app_nil_r. reflexivity.
  - change (foldl (load_shader_file files) shaders (n :: names))
      with (foldl (load_shader_file files) (load_shader_file files shaders n) names).
    rewrite IH, load_shader_file_step. cbn [List.filter].
    destruct (files !! n) as [[| |d]|]; try reflexivity.
    destruct (endswith n ".json"); [|reflexivity].
    rewrite fmap_app, <- app_assoc. reflexivity.
Qed.

Lemma load_all_shaders_lists_documents_aux (w : World) (x : WebShader) :
  (exists data,
     endswith (ws_filename x) ".json" = true
     /\ json_files w !! ws_filename x = Some (Parsed data)
     /\ x = web_shader_of (ws_filename x) data)
  <-> x ∈ load_all_shaders w.
Proof.
  unfold load_all_shaders.
  rewrite (sort_by_key_perm _), load_shader_loop. split.
  - intros (data & Hj & Hf & Hx). right. exists (ws_filename x), data.
    split; [|repeat split; assumption].
    unfold listdir. apply list_elem_of_fmap. exists (ws_filename x, Parsed data).
    split; [reflexivity|]. apply elem_of_map_to_list. exact Hf.
  - intros [H|(name & data & _ & Hj & Hf & ->)]; [inversion H|].
    exists data. cbn [ws_filename web_shader_of]. repeat split; assumption.
Qed.

(** X20: [load_all_shaders] lists exactly the files of the corpus directory
    whose name ends in [.json] and whose content parses to an object, one
    entry per file, each under the id its [info] declares or else under the
    file name without its extension; files that do not parse or hold
    another JSON value are left out. *)
Theorem load_all_shaders_lists_documents (w : World) :
  (forall x,
     x ∈ load_all_shaders w
     <-> exists data,
           endswith (ws_filename x) ".json" = true
           /\ json_files w !! ws_filename x = Some (Parsed data)
           /\ x = web_shader_of (ws_filename x) data)
  /\ NoDup (ws_filename <$> load_all_shaders w).
Proof.
  split.
  - intros x. symmetry. apply load_all_shaders_lists_documents_aux.
  - unfold load_all_shaders.
    rewrite (sort_by_key_perm _). rewrite load_shader_loop_filenames.
    cbn [fmap list_fmap app]. apply NoDup_ListNoDup, List.NoDup_filter, NoDup_ListNoDup.
    apply NoDup_fst_map_to_list.
Qed.

(** X21: the list [load_all_shaders] returns is in the order of the keys
    (the lower-cased name, the lower-cased id for a document without a
    name): no entry has a key smaller than the key of an entry before it, it
    has the same entries as the list read from the directory, and entries
    with the same key keep the order in which the directory listed them. *)
Theorem load_all_shaders_sorted (w : World) :
  StronglySorted key_le (load_all_shaders w)
  /\ Permutation (load_all_shaders w) (loaded_shaders w)
  /\ forall k,
       List.filter (fun x => String.eqb (sort_key x) k) (load_all_shaders w)
       = List.filter (fun x => String.eqb (sort_key x) k) (loaded_shaders w).
Proof.
  unfold load_all_shaders. fold (loaded_shaders w). split; [|split].
  - apply sort_by_key_sorted.
  - apply sort_by_key_perm.
  - intros k. apply sort_by_key_stable.
Qed.

(** ** [load_shader_by_id] *)

Lemma find_shader_by_id_some (files : gmap string JsonFile) (shader_id : string)
    (names : list string) (x : WebShader) :
  find_shader_by_id files shader_id names = Some x ->
  exists name data info,
    name ∈ names /\ endswith name ".json" = true
    /\ files !! name = Some (Parsed data) /\ doc_info data = Some info
    /\ info_id info = Some shader_id
    /\ x = mkWebShader shader_id name data (info_or_empty data).
Proof.
  induction names as [|n names IH]; [discriminate|].
  cbn [find_shader_by_id].
  assert (Hrest : find_shader_by_id files shader_id names = Some x ->
            exists name data info,
              name ∈ n :: names /\ endswith name ".json" = true
              /\ files !! name = Some (Parsed data) /\ doc_info data = Some info
              /\ info_id info = Some shader_id
              /\ x = mkWebShader shader_id name data (info_or_empty data)).
  { intros H. destruct (IH H) as (name & data & info & Hin & Hr).
    exists name, data, info. split; [right; exact Hin | exact Hr]. }
  destruct (endswith n ".json") eqn:Ej; [|exact Hrest].
  destruct (files !! n) as [[| |data]|] eqn:Ef; try exact Hrest.
  destruct (doc_info data) as [info|] eqn:Ei; [|exact Hrest].
  destruct (info_id info) as [i|] eqn:Eid; [|exact Hrest].
  destruct (String.eqb_spec i shader_id) as [->|Hne]; [|exact Hrest].
  intros [= <-]. exists n, data, info. split; [left|]. repeat split; assumption.
Qed.

Lemma find_shader_by_id_none (files : gmap string JsonFile) (shader_id : string)
    (names : list string) :
  find_shader_by_id files shader_id names = None
  <-> forall name data info,
        name ∈ names -> endswith name ".json" = true ->
        files !! name = Some (Parsed data) -> doc_info data = Some info ->
        info_id info <> Some shader_id.
Proof.
  induction names as [|n names IH].
  - cbn. split; [|reflexivity]. intros _ name data info H. inversion H.
  - cbn [find_shader_by_id].
    assert (Hskip : (forall data info, endswith n ".json" = true ->
                       files !! n = Some (Parsed data) -> doc_info data = Some info ->
                       info_id info <> Some shader_id) ->
              (find_shader_by_id files shader_id names = None
               <-> forall name data info,
                     name ∈ n :: names -> endswith name ".json" = true ->
                     files !! name = Some (Parsed data) -> doc_info data = Some info ->
                     info_id info <> Some shader_id)).
    { intros Hn. rewrite IH. split.
      - intros H name data info Hin. apply elem_of_cons in Hin as [->|Hin].
        + apply Hn.
        + apply H. exact Hin.
      - intros H name data info Hin. apply H. right. exact Hin. }
    destruct (endswith n ".json") eqn:Ej; [|apply Hskip; discriminate].
    destruct (files !! n) as [[| |data]|] eqn:Ef;
      try (apply Hskip; intros; discriminate).
    destruct (doc_info data) as [info|] eqn:Ei;
      [|apply Hskip; intros d i _ [= <-] Hi; congruence].
    destruct (info_id info) as [i|] eqn:Eid;
      [|apply Hskip; intros d i' _ [= <-] Hi; congruence].
    destruct (String.eqb_spec i shader_id) as [->|Hne].
    + split; [discriminate|]. intros H. exfalso.
      apply (H n data info); try assumption. left.
    + apply Hskip. intros d i' _ [= <-] Hi. congruence.
Qed.

(** X22: [load_shader_by_id] finds a shader exactly when some [.json] file
    of the corpus parses to an object whose [info] declares that id; the
    entry it returns is one of the entries of [load_all_shaders].  A shader
    that [load_all_shaders] lists under an id taken from its file name is
    therefore not found under that id, unless a file declares it. *)
Theorem load_shader_by_id_declared (w : World) (shader_id : string) :
  (forall x,
     load_shader_by_id w shader_id = Some x ->
     ws_id x = shader_id
     /\ info_id (ws_info x) = Some shader_id
     /\ x ∈ load_all_shaders w)
  /\ (load_shader_by_id w shader_id = None
      <-> forall name data info,
            endswith name ".json" = true ->
            json_files w !! name = Some (Parsed data) ->
            doc_info data = Some info ->
            info_id info <> Some shader_id).
Proof.
  split.
  - intros x Hx. unfold load_shader_by_id in Hx.
    apply find_shader_by_id_some
      in Hx as (name & data & info & _ & Hj & Hf & Hi & Hid & ->).
    cbn [ws_id ws_info]. split; [reflexivity|]. split.
    + unfold info_or_empty. rewrite Hi. exact Hid.
    + apply (proj1 (load_all_shaders_lists_documents_aux w _)).
      exists data. cbn [ws_filename]. split; [exact Hj|]. split; [exact Hf|].
      unfold web_shader_of, web_shader_id. rewrite Hi, Hid. reflexivity.
  - unfold load_shader_by_id. rewrite find_shader_by_id_none. split.
    + intros H name data info Hj Hf. apply (H name data info); [|exact Hj|exact Hf].
      unfold listdir. apply list_elem_of_fmap. exists (name, Parsed data).
      split; [reflexivity|]. apply elem_of_map_to_list. exact Hf.
    + intros H name data info _. apply (H name data info).
Qed.

Lemma load_shader_by_id_declared_witness :
  exists x,
    load_shader_by_id procedural_world "XsBSRd" = Some x
    /\ ws_id x = "XsBSRd"
    /\ info_id (ws_info x) = Some "XsBSRd"
    /\ x ∈ load_all_shaders procedural_world.
Proof.
  eexists. split; [vm_compute; reflexivity|].
  refine (proj1 (load_shader_by_id_declared procedural_world "XsBSRd") _ _).
  vm_compute. reflexivity.
Defined.

(** ** Substrings *)

Lemma prefix_iff (p : string) :
  forall s, String.prefix p s = true <-> exists t, s = p ++ t.
Proof.
  induction p as [|a p IH]; intros s.
  - split; [intros _; exists s; reflexivity | intros _; destruct s; reflexivity].
  - destruct s as [|b s].
    + split; [discriminate | intros [t Ht]; discriminate Ht].
    + cbn [String.prefix]. destruct (Ascii.ascii_dec a b) as [->|Hne].
      * rewrite IH. split.
        -- intros [t ->]. exists t. reflexivity.
        -- intros [t Ht]. change (String b s = String b (p ++ t)) in Ht.
           injection Ht as ->. exists t. reflexivity.
      * split; [discriminate|]. intros [t Ht].
        change (String b s = String a (p ++ t)) in Ht. congruence.
Qed.

Lemma contains_iff (n : string) :
  forall h, contains n h = true <-> exists pre post, h = pre ++ (n ++ post).
Proof.
  induction h as [|c h IH]; cbn [contains]; rewrite orb_true_iff.
  - split.
    + intros [H|H]; [|discriminate]. apply prefix_iff in H as [t Ht].
      exists "", t. exact Ht.
    + intros (pre & post & H). left. destruct pre; [|discriminate H].
      apply prefix_iff. exists post. exact H.
  - rewrite IH. split.
    + intros [H|(pre & post & ->)].
      * apply prefix_iff in H as [t Ht]. exists "", t. exact Ht.
      * exists (String c pre), post. reflexivity.
    + intros (pre & post & H). destruct pre as [|a pre].
      * left. apply prefix_iff. exists post. exact H.
      * right. change (String c h = String a (pre ++ (n ++ post))) in H.
        injection H as _ ->. exists pre, post. reflexivity.
Qed.

Lemma contains_trans (a b c : string) :
  contains a b = true -> contains b c = true -> contains a c = true.
Proof.
  rewrite !contains_iff. intros (p1 & q1 & ->) (p2 & q2 & ->).
  exists (p2 ++ p1), (q1 ++ q2).
  rewrite !append_assoc_string. reflexivity.
Qed.

Lemma contains_empty (s : string) : contains "" s = true.
Proof. destruct s; reflexivity. Qed.

Lemma filter_all {A : Type} (f : A -> bool) (l : list A) :
  (forall x, f x = true) -> List.filter f l = l.
Proof.
  intros H. induction l as [|x l IH]; [reflexivity|].
  cbn [List.filter]. rewrite H, IH. reflexivity.
Qed.

Lemma filter_twice {A : Type} (f : A -> bool) (l : list A) :
  List.filter f (List.filter f l) = List.filter f l.
Proof.
  induction l as [|x l IH]; [reflexivity|].
  cbn [List.filter]. destruct (f x) eqn:E; [|exact IH].
  cbn [List.filter]. rewrite E, IH. reflexivity.
Qed.

Lemma filter_sublist {A : Type} (f : A -> bool) (l : list A) :
  sublist (List.filter f l) l.
Proof.
  induction l as [|x l IH]; [constructor|].
  cbn [List.filter]. destruct (f x); constructor; exact IH.
Qed.

(** ** [search_shaders] *)

(** X23: [search_shaders] keeps, in their order, the shaders whose
    lower-cased name, author or description holds the lower-cased query; the
    case of the query does not matter, searching the result again with the
    same query changes nothing, and the empty query keeps every shader. *)
Theorem search_shaders_filter (shaders : list WebShader) (query : string) :
  (forall x, x ∈ search_shaders shaders query
             <-> x ∈ shaders /\ shader_matches (lower query) x = true)
  /\ sublist (search_shaders shaders query) shaders
  /\ search_shaders shaders (lower query) = search_shaders shaders query
  /\ search_shaders (search_shaders shaders query) query = search_shaders shaders query
  /\ search_shaders shaders "" = shaders.
Proof.
  unfold search_shaders. split; [|split; [|split; [|split]]].
  - intros x. rewrite !list_elem_of_In. apply filter_In.
  - apply filter_sublist.
  - rewrite lower_idem. reflexivity.
  - apply filter_twice.
  - apply filter_all. intros x. unfold shader_matches. cbn [lower].
    rewrite contains_empty. reflexivity.
Qed.

(** X24: a longer query never finds more: when the lower-cased query [q1]
    occurs in the lower-cased query [q2], every shader [search_shaders]
    finds for [q2] it also finds for [q1]. *)
Theorem search_shaders_refine (shaders : list WebShader) (q1 q2 : string)
    (x : WebShader) :
  contains (lower q1) (lower q2) = true ->
  x ∈ search_shaders shaders q2 -> x ∈ search_shaders shaders q1.
Proof.
  intros Hq. unfold search_shaders. rewrite !list_elem_of_In, !filter_In.
  intros [Hin Hm]. split; [exact Hin|].
  unfold shader_matches in *. rewrite !orb_true_iff in *.
  destruct Hm as [[H|H]|H]; [left; left | left; right | right];
    exact (contains_trans _ _ _ Hq H).
Qed.

Lemma search_shaders_refine_witness :
  web_shader_of "XsBSRd.json"
    (mkDoc (Some (mkInfo (Some "XsBSRd") (Some "Glow Sphere") (Some "jon")
                         None (Some []) None)) None)
  ∈ search_shaders (load_all_shaders procedural_world) "GLOW".
Proof.
  refine (search_shaders_refine (load_all_shaders procedural_world)
            "GLOW" "Glow Sp" _ _ _).
  - reflexivity.
  - vm_compute. left.
Defined.

(** ** Pagination *)

Lemma py_slice_page {A : Type} (l : list A) (page : Z) :
  (1 <= page)%Z ->
  py_slice l ((page - 1) * per_page) ((page - 1) * per_page + per_page)
  = take 20 (drop (20 * Z.to_nat (page - 1)) l).
Proof.
  intros Hp. unfold py_slice, slice_bound, per_page.
  set (n := length l).
  destruct (Z.ltb_spec ((page - 1) * 20) 0) as [?|_]; [lia|].
  destruct (Z.ltb_spec ((page - 1) * 20 + 20) 0) as [?|_]; [lia|].
  destruct (Z_le_gt_dec (Z.of_nat n) ((page - 1) * 20)) as [Hbig|Hsmall].
  - rewrite !Z.min_r by lia.
    rewrite Nat2Z.id, !drop_ge by (subst n; lia). rewrite take_nil. reflexivity.
  - rewrite (Z.min_l ((page - 1) * 20)) by lia.
    replace (Z.to_nat ((page - 1) * 20)) with (20 * Z.to_nat (page - 1)) by lia.
    destruct (Z_le_gt_dec ((page - 1) * 20 + 20) (Z.of_nat n)) as [Hfull|Hpart].
    + rewrite Z.min_l by lia. f_equal. lia.
    + rewrite Z.min_r by lia.
      rewrite !take_ge; [reflexivity| |]; rewrite length_drop; subst n; lia.
Qed.

Lemma py_slice_nonpositive {A : Type} (l : list A) :
  py_slice l ((0 - 1) * per_page) ((0 - 1) * per_page + per_page) = [].
Proof.
  unfold py_slice, slice_bound, per_page. cbn [Z.ltb Z.sub Z.add Z.mul Z.opp Z.compare
    Z.pos_sub Pos.mul Pos.add Pos.compare Pos.compare_cont Pos.succ].
  change (take (Z.to_nat (Z.min 0 (Z.of_nat (length l))
                          - Z.max (-20 + Z.of_nat (length l)) 0))
               (drop (Z.to_nat (Z.max (-20 + Z.of_nat (length l)) 0)) l) = []).
  replace (Z.to_nat (Z.min 0 (Z.of_nat (length l))
                     - Z.max (-20 + Z.of_nat (length l)) 0)) with 0 by lia.
  apply take_0.
Qed.

Lemma concat_pages {A : Type} (l : list A) (m : nat) :
  concat ((fun k => take 20 (drop (20 * k) l)) <$> seq 0 m) = take (20 * m) l.
Proof.
  induction m as [|m IH]; [rewrite take_0; reflexivity|].
  rewrite seq_S, fmap_app, concat_app, IH. cbn [fmap list_fmap concat].
  rewrite app_nil_r, take_take_drop. f_equal. lia.
Qed.

Lemma total_pages_bounds (n : Z) :
  (0 <= n)%Z ->
  let total := ((n + per_page - 1) / per_page)%Z in
  (0 <= total /\ n <= 20 * total /\ 20 * total < n + 20)%Z.
Proof.
  intros Hn total. subst total. unfold per_page.
  pose proof (Z.div_mod (n + 20 - 1) 20 ltac:(lia)) as Hdm.
  pose proof (Z.mod_pos_bound (n + 20 - 1) 20 ltac:(lia)) as Hm.
  lia.
Qed.

(** X25: the pages of [browse] partition the listing: the pages 1 to
    [total_pages], one after the other, are the whole list in its order; a
    page holds at most 20 shaders; from page 1 on a page is empty exactly
    when its number is above [total_pages]; and page 0 is empty. *)
Theorem browse_pages_partition (w : World) (query : string) :
  let total := pv_total_pages (browse w 1 query) in
  (forall page, pv_total_pages (browse w page query) = total)
  /\ (0 <= total)%Z
  /\ concat ((fun k => pv_shaders (browse w (Z.of_nat k) query))
             <$> seq 1 (Z.to_nat total))
     = browse_listing w query
  /\ (forall page, (1 <= page)%Z ->
        length (pv_shaders (browse w page query)) <= 20
        /\ (pv_shaders (browse w page query) = [] <-> (total < page)%Z))
  /\ pv_shaders (browse w 0 query) = [].
Proof.
  assert (Hb : forall page, browse w page query
                = paginate (browse_listing w query) page (strip query)).
  { intros page. unfold browse, browse_listing.
    destruct (String.eqb (strip query) ""); reflexivity. }
  cbn zeta. rewrite !Hb. cbn [pv_total_pages paginate].
  set (l := browse_listing w query) in *. clearbody l.
  destruct (total_pages_bounds (Z.of_nat (length l)) ltac:(lia)) as (T0 & T1 & T2).
  cbn zeta in T0, T1, T2.
  set (total := ((Z.of_nat (length l) + per_page - 1) / per_page)%Z) in *.
  split; [intros page; rewrite Hb; reflexivity|].
  clearbody total.
  split; [exact T0|]. split; [|split].
  - transitivity (take (20 * Z.to_nat total) l); [|apply take_ge; lia].
    rewrite <- concat_pages.
    rewrite <- (fmap_S_seq 0), <- list_fmap_compose. f_equal.
    apply list_fmap_ext. intros _ k _. cbn [compose]. rewrite Hb.
    cbn [pv_shaders paginate]. rewrite py_slice_page by lia. do 2 f_equal. lia.
  - intros page Hp. rewrite Hb. cbn [pv_shaders paginate].
    rewrite py_slice_page by exact Hp. split.
    + rewrite length_take. lia.
    + split.
      * intros H. apply (f_equal length) in H.
        rewrite length_take, length_drop in H. cbn [length] in H. lia.
      * intros H. rewrite drop_ge by lia. apply take_nil.
  - cbn [pv_shaders paginate]. apply (py_slice_nonpositive l).
Qed.

Lemma browse_pages_partition_witness :
  length (pv_shaders (browse procedural_world 1 "")) <= 20
  /\ (pv_shaders (browse procedural_world 1 "") = []
      <-> (pv_total_pages (browse procedural_world 1 "") < 1)%Z).
Proof.
  refine (proj1 (proj2 (proj2 (proj2 (browse_pages_partition procedural_world ""))))
            1%Z _).
  lia.
Defined.

Lemma browse_paginate (w : World) (page : Z) (query : string) :
  browse w page query = paginate (browse_listing w query) page (strip query).
Proof.
  unfold browse, browse_listing. destruct (String.eqb (strip query) ""); reflexivity.
Qed.

Lemma api_shaders_listing (w : World) (page : Z) (query : string) :
  api_shaders w page query
  = let shaders := browse_listing w query in
    mkShadersPage
      (py_slice shaders ((page - 1) * per_page) ((page - 1) * per_page + per_page))
      (Z.of_nat (length shaders)) page
      (Z.ltb ((page - 1) * per_page + per_page) (Z.of_nat (length shaders)))
      (Z.ltb 0 ((page - 1) * per_page)).
Proof.
  unfold api_shaders, browse_listing. destruct (String.eqb (strip query) ""); reflexivity.
Qed.

(** X26: [api_shaders] and [browse] agree, for every integer page number:
    they show the same slice of the same listing, [total] is the length of
    that listing, [has_next] holds exactly when the page number is below the
    [total_pages] of [browse], and [has_prev] exactly when it is above 1. *)
Theorem api_shaders_navigation (w : World) (page : Z) (query : string) :
  sp_shaders (api_shaders w page query) = pv_shaders (browse w page query)
  /\ sp_total (api_shaders w page query) = Z.of_nat (length (browse_listing w query))
  /\ (sp_has_next (api_shaders w page query) = true
      <-> (page < pv_total_pages (browse w page query))%Z)
  /\ (sp_has_prev (api_shaders w page query) = true <-> (1 < page)%Z).
Proof.
  rewrite api_shaders_listing, browse_paginate. cbn zeta.
  cbn [sp_shaders sp_total sp_has_next sp_has_prev pv_shaders pv_total_results
       pv_total_pages paginate].
  split; [reflexivity|]. split; [reflexivity|].
  destruct (total_pages_bounds (Z.of_nat (length (browse_listing w query)))
              ltac:(lia)) as (T0 & T1 & T2).
  cbn zeta in T0, T1, T2.
  set (total := ((Z.of_nat (length (browse_listing w query)) + per_page - 1)
                 / per_page)%Z) in *.
  clearbody total. unfold per_page. rewrite !Z.ltb_lt. split; lia.
Qed.

(** X27: on an existing page of [browse] the page links run over at most
    five consecutive existing pages that include the current one. *)
Theorem browse_page_window (w : World) (page : Z) (query : string) :
  let v := browse w page query in
  (1 <= page <= pv_total_pages v)%Z ->
  (1 <= pv_start_page v <= page)%Z
  /\ (page <= pv_end_page v <= pv_total_pages v)%Z
  /\ (pv_end_page v - pv_start_page v <= 4)%Z.
Proof.
  cbn zeta. rewrite browse_paginate.
  cbn [pv_start_page pv_end_page pv_total_pages paginate].
  generalize ((Z.of_nat (length (browse_listing w query)) + per_page - 1) / per_page)%Z.
  intros total. lia.
Qed.

Lemma browse_page_window_witness :
  (1 <= pv_start_page (browse procedural_world 1 "") <= 1)%Z
  /\ (1 <= pv_end_page (browse procedural_world 1 "")
      <= pv_total_pages (browse procedural_world 1 ""))%Z
  /\ (pv_end_page (browse procedural_world 1 "")
      - pv_start_page (browse procedural_world 1 "") <= 4)%Z.
Proof.
  refine (browse_page_window procedural_world 1 "" _).
  vm_compute. split; discriminate.
Defined.

Lemma py_slice_first {A : Type} (l : list A) (k : nat) :
  py_slice l 0 (Z.of_nat k) = take k l.
Proof.
  unfold py_slice, slice_bound.
  destruct (Z.ltb_spec (Z.of_nat k) 0) as [?|_]; [lia|].
  cbn [Z.ltb Z.compare]. rewrite (Z.min_l 0) by lia. cbn [Z.to_nat]. rewrite drop_0.
  destruct (Z_le_gt_dec (Z.of_nat k) (Z.of_nat (length l))).
  - rewrite Z.min_l by lia. f_equal. lia.
  - rewrite Z.min_r by lia. rewrite !take_ge by lia. reflexivity.
Qed.

(** X28: [api_search] returns the first matches, at most 50 of them and in
    the order of [load_all_shaders], while [total] counts every match; a
    query that is empty or blank gives no shader and a total of 0. *)
Theorem api_search_limit (w : World) (q : string) :
  let results := search_shaders (load_all_shaders w) (strip q) in
  (strip q = "" -> api_search w q = ([], 0%Z))
  /\ (strip q <> "" ->
      api_search w q = (take 50 results, Z.of_nat (length results)))
  /\ length (api_search w q).1 <= 50
  /\ (Z.of_nat (length (api_search w q).1) <= (api_search w q).2)%Z
  /\ sublist (api_search w q).1 (load_all_shaders w).
Proof.
  cbn zeta. unfold api_search.
  destruct (String.eqb_spec (strip q) "") as [He|Hne].
  - split; [reflexivity|]. split; [congruence|]. cbn [fst snd length].
    split; [lia|]. split; [lia|]. apply sublist_nil_l.
  - split; [congruence|]. cbn [fst snd].
    change 50%Z with (Z.of_nat 50). rewrite py_slice_first.
    split; [reflexivity|]. split; [rewrite length_take; lia|].
    split; [rewrite length_take; lia|].
    etransitivity; [apply sublist_take | apply filter_sublist].
Qed.

Lemma api_search_limit_witness :
  api_search procedural_world "   " = ([], 0%Z).
Proof.
  exact (proj1 (api_search_limit procedural_world "   ") eq_refl).
Defined.

(** X29: for a query that is not blank [search_page] computes the page
    [browse] computes for the same request: the same slice of the same
    matches, page count and page links, and [total_results] is the number
    of matches.  For a blank query it shows no shader, page 1 of 1 and 0
    results whatever page was asked for, and its page links hold a page,
    then page 1 alone, only when the page asked for is between -1 and 3:
    otherwise [start_page] is above [end_page]. *)
Theorem search_page_or_browse (w : World) (page : Z) (q : string) :
  let v := search_page w page q in
  (strip q <> "" ->
   v = browse w page q
   /\ pv_total_results v
      = Z.of_nat (length (search_shaders (load_all_shaders w) (strip q))))
  /\ (strip q = "" ->
      pv_shaders v = [] /\ pv_page v = 1%Z /\ pv_total_pages v = 1%Z
      /\ pv_total_results v = 0%Z /\ pv_query v = ""
      /\ ((pv_start_page v <= pv_end_page v)%Z <-> (-1 <= page <= 3)%Z)
      /\ ((-1 <= page <= 3)%Z -> pv_start_page v = 1%Z /\ pv_end_page v = 1%Z)).
Proof.
  cbn zeta. unfold search_page, browse.
  destruct (String.eqb_spec (strip q) "") as [He|Hne].
  - split; [congruence|]. intros _.
    cbn [pv_shaders pv_page pv_total_pages pv_total_results pv_query
         pv_start_page pv_end_page].
    repeat split; lia.
  - split; [|congruence]. intros _. split; reflexivity.
Qed.

Lemma search_page_or_browse_witness :
  search_page procedural_world 1 " Glow " = browse procedural_world 1 " Glow "
  /\ pv_total_results (search_page procedural_world 1 " Glow ")
     = Z.of_nat (length (search_shaders (load_all_shaders procedural_world)
                           (strip " Glow "))).
Proof.
  refine (proj1 (search_page_or_browse procedural_world 1 " Glow ") _).
  vm_compute. discriminate.
Defined.
